(** * A shallow embedding of [transformer.py]

    The forward pass of the encoder-decoder model is embedded over the real
    numbers: a floating point tensor is a shape together with a total
    element function into [R], an integer tensor (token ids, masks) the
    same over [Z].  Every operation computes the shape of its result from
    the shapes of its arguments and raises where the tensor library
    raises. *)

From Stdlib Require Import String Reals Lra Lia List Arith ZArith Bool QArith
  Qreals.
Import ListNotations.

Set Implicit Arguments.

Close Scope Q_scope.
Close Scope R_scope.
Open Scope nat_scope.

(** ** Exceptions *)

Inductive PyError : Type :=
| AssertionError
| ZeroDivisionError
| IndexError
| RuntimeError
| TypeError
| ValueError
| FileNotFoundError.

Inductive result (A : Type) : Type :=
| Ok (a : A)
| Raise (e : PyError).

Arguments Ok {A} a.
Arguments Raise {A} e.

Definition bind {A B : Type} (r : result A) (k : A -> result B) : result B :=
  match r with
  | Ok a => k a
  | Raise e => Raise e
  end.

Notation "x <- c1 ;; c2" := (bind c1 (fun x => c2))
  (at level 61, c1 at next level, right associativity).

Definition is_ok {A : Type} (r : result A) : bool :=
  match r with Ok _ => true | Raise _ => false end.

(** ** Tensors *)

Record Tensor1 (A : Type) : Type := T1 { len1 : nat; at1 : nat -> A }.
Record Tensor2 (A : Type) : Type :=
  T2 { rows : nat; cols : nat; at2 : nat -> nat -> A }.
Record Tensor3 (A : Type) : Type :=
  T3 { dim0 : nat; dim1 : nat; dim2 : nat; at3 : nat -> nat -> nat -> A }.
Record Tensor4 (A : Type) : Type :=
  T4 { s0 : nat; s1 : nat; s2 : nat; s3 : nat;
       at4 : nat -> nat -> nat -> nat -> A }.

Definition shape2 {A} (x : Tensor2 A) : nat * nat := (rows x, cols x).
Definition shape3 {A} (x : Tensor3 A) : nat * nat * nat :=
  (dim0 x, dim1 x, dim2 x).
Definition shape4 {A} (x : Tensor4 A) : nat * nat * nat * nat :=
  (s0 x, s1 x, s2 x, s3 x).

Definition map1 {A B} (f : A -> B) (x : Tensor1 A) : Tensor1 B :=
  T1 (len1 x) (fun i => f (at1 x i)).
Definition map2 {A B} (f : A -> B) (x : Tensor2 A) : Tensor2 B :=
  T2 (rows x) (cols x) (fun i j => f (at2 x i j)).
Definition map3 {A B} (f : A -> B) (x : Tensor3 A) : Tensor3 B :=
  T3 (dim0 x) (dim1 x) (dim2 x) (fun b l e => f (at3 x b l e)).
Definition map4 {A B} (f : A -> B) (x : Tensor4 A) : Tensor4 B :=
  T4 (s0 x) (s1 x) (s2 x) (s3 x) (fun b h i j => f (at4 x b h i j)).

Definition to_list1 {A} (x : Tensor1 A) : list A :=
  map (at1 x) (seq 0 (len1 x)).
Definition to_list2 {A} (x : Tensor2 A) : list (list A) :=
  map (fun i => map (at2 x i) (seq 0 (cols x))) (seq 0 (rows x)).

(** Broadcasting.  Two sizes are compatible when they are equal or one of
    them is 1; a dimension of size 1 is read at index 0 whatever the index.
    An in-place operation or an assignment expands its right-hand side to
    the shape of the left-hand side, which never changes. *)

Definition bdim (a b : nat) : result nat :=
  if a =? b then Ok a
  else if a =? 1 then Ok b
  else if b =? 1 then Ok a
  else Raise RuntimeError.

Definition bidx (dim i : nat) : nat := if dim =? 1 then 0 else i.

Definition expandable (src dst : nat) : bool := (src =? dst) || (src =? 1).

(** Sum of [f 0 .. f (n-1)]. *)
Definition Rsum (n : nat) (f : nat -> R) : R :=
  fold_right Rplus 0%R (map f (seq 0 n)).

(** ** [create_causal_mask] *)

Definition ones (n m : nat) : Tensor2 R := T2 n m (fun _ _ => 1%R).

(** [torch.tril(x, diagonal)]: entries above the given diagonal are zeroed. *)
Definition tril (x : Tensor2 R) (diagonal : Z) : Tensor2 R :=
  T2 (rows x) (cols x)
     (fun i j => if (Z.of_nat j - Z.of_nat i <=? diagonal)%Z
                 then at2 x i j else 0%R).

(** Conversion of a float to [uint8]: truncation toward zero, then the
    value modulo 2^8. *)
Definition trunc (r : R) : Z :=
  if Rle_dec 0 r then Int_part r else (- Int_part (- r))%Z.
Definition to_uint8 (r : R) : Z := (trunc r mod 256)%Z.
Definition type_uint8 (x : Tensor2 R) : Tensor2 Z := map2 to_uint8 x.

Definition create_causal_mask (seq_len : nat) : Tensor2 Z :=
  type_uint8 (tril (ones seq_len seq_len) 0).

(** ** [positional_encoding] *)

Definition arange (n : nat) : Tensor1 Z := T1 n (fun i => Z.of_nat i).

(** Number of indices [start, start+step, ...] below [stop]. *)
Definition slice_len (start stop step : nat) : nat :=
  (stop - start + (step - 1)) / step.

Definition arange_step (start stop step : nat) : Tensor1 Z :=
  T1 (slice_len start stop step) (fun i => Z.of_nat (start + i * step)).

Definition unsqueeze_1 {A} (x : Tensor1 A) : Tensor2 A :=
  T2 (len1 x) 1 (fun i _ => at1 x i).

(** A rank-1 tensor broadcasts as a single row. *)
Definition as_row {A} (x : Tensor1 A) : Tensor2 A :=
  T2 1 (len1 x) (fun _ j => at1 x j).

(** [torch.empty]: the elements are whatever the allocator left there. *)
Definition empty (n m : nat) (uninit : nat -> nat -> R) : Tensor2 R :=
  T2 n m uninit.

Definition mul2 (x y : Tensor2 R) : result (Tensor2 R) :=
  r <- bdim (rows x) (rows y) ;;
  c <- bdim (cols x) (cols y) ;;
  Ok (T2 r c (fun i j =>
        (at2 x (bidx (rows x) i) (bidx (cols x) j)
         * at2 y (bidx (rows y) i) (bidx (cols y) j))%R)).

(** [dest[:, start::step] = src] *)
Definition setitem_cols (dest : Tensor2 R) (start step : nat)
    (src : Tensor2 R) : result (Tensor2 R) :=
  if expandable (rows src) (rows dest)
     && expandable (cols src) (slice_len start (cols dest) step)
  then Ok (T2 (rows dest) (cols dest)
             (fun i j =>
                if (start <=? j) && ((j - start) mod step =? 0)
                then at2 src (bidx (rows src) i)
                             (bidx (cols src) ((j - start) / step))
                else at2 dest i j))
  else Raise RuntimeError.

Definition positional_encoding (uninit : nat -> nat -> R)
    (seq_len embed_size : nat) : result (Tensor2 R) :=
  let pos_vec := unsqueeze_1 (arange seq_len) in
  let i_times_two_vec := arange_step 0 embed_size 2 in
  let pos_encoding := empty seq_len embed_size uninit in
  let div_term :=
    map1 (fun z => exp (- ln 10000 * IZR z / INR embed_size)) i_times_two_vec in
  a <- mul2 (map2 IZR pos_vec) (as_row div_term) ;;
  pos_encoding <- setitem_cols pos_encoding 0 2 (map2 sin a) ;;
  a <- mul2 (map2 IZR pos_vec) (as_row div_term) ;;
  pos_encoding <- setitem_cols pos_encoding 1 2 (map2 cos a) ;;
  Ok pos_encoding.

(** ** Tensor operations of the forward pass *)

Definition unsqueeze3_0 {A} (x : Tensor2 A) : Tensor3 A :=
  T3 1 (rows x) (cols x) (fun _ i j => at2 x i j).
(** [x[:, torch.newaxis]] *)
Definition newaxis_1 {A} (x : Tensor2 A) : Tensor3 A :=
  T3 (rows x) 1 (cols x) (fun b _ j => at2 x b j).
Definition unsqueeze4_1 {A} (x : Tensor3 A) : Tensor4 A :=
  T4 (dim0 x) 1 (dim1 x) (dim2 x) (fun b _ i j => at3 x b i j).
Definition transpose_1_2 {A} (x : Tensor4 A) : Tensor4 A :=
  T4 (s0 x) (s2 x) (s1 x) (s3 x) (fun b i h c => at4 x b h i c).
Definition transpose_last {A} (x : Tensor4 A) : Tensor4 A :=
  T4 (s0 x) (s1 x) (s3 x) (s2 x) (fun b h c j => at4 x b h j c).
(** [.contiguous()] rearranges storage only. *)
Definition contiguous {A} (x : Tensor4 A) : Tensor4 A := x.

(** [x[:n]] on the rows of a matrix: slicing clamps to the length. *)
Definition slice_rows {A} (x : Tensor2 A) (n : nat) : Tensor2 A :=
  T2 (Nat.min n (rows x)) (cols x) (at2 x).

(** [.view]: the same elements in row-major order under another shape; the
    element counts must agree. *)
Definition view_3_4 {A} (x : Tensor3 A) (a b c d : nat) : result (Tensor4 A) :=
  if dim0 x * dim1 x * dim2 x =? a * b * c * d
  then Ok (T4 a b c d (fun i j k l =>
             let f := ((i * b + j) * c + k) * d + l in
             at3 x (f / (dim1 x * dim2 x)) ((f / dim2 x) mod dim1 x)
                   (f mod dim2 x)))
  else Raise RuntimeError.

Definition view_4_3 {A} (x : Tensor4 A) (a b c : nat) : result (Tensor3 A) :=
  if s0 x * s1 x * s2 x * s3 x =? a * b * c
  then Ok (T3 a b c (fun i j k =>
             let f := (i * b + j) * c + k in
             at4 x (f / (s1 x * s2 x * s3 x)) ((f / (s2 x * s3 x)) mod s1 x)
                   ((f / s3 x) mod s2 x) (f mod s3 x)))
  else Raise RuntimeError.

(** [x + y] with broadcasting. *)
Definition add3 (x y : Tensor3 R) : result (Tensor3 R) :=
  a <- bdim (dim0 x) (dim0 y) ;;
  b <- bdim (dim1 x) (dim1 y) ;;
  c <- bdim (dim2 x) (dim2 y) ;;
  Ok (T3 a b c (fun i j k =>
        (at3 x (bidx (dim0 x) i) (bidx (dim1 x) j) (bidx (dim2 x) k)
         + at3 y (bidx (dim0 y) i) (bidx (dim1 y) j) (bidx (dim2 y) k))%R)).

(** [x += y] for a rank-2 [y]: [y] is expanded to the shape of [x]. *)
Definition iadd3_2 (x : Tensor3 R) (y : Tensor2 R) : result (Tensor3 R) :=
  if expandable (rows y) (dim1 x) && expandable (cols y) (dim2 x)
  then Ok (T3 (dim0 x) (dim1 x) (dim2 x) (fun b l e =>
             (at3 x b l e + at2 y (bidx (rows y) l) (bidx (cols y) e))%R))
  else Raise RuntimeError.

(** [x *= c] *)
Definition imul3 (x : Tensor3 R) (c : R) : Tensor3 R :=
  map3 (fun v => (v * c)%R) x.

(** Batched matrix product of rank-4 tensors; the two leading (batch)
    dimensions broadcast. *)
Definition matmul4 (x y : Tensor4 R) : result (Tensor4 R) :=
  if s3 x =? s2 y then
    a <- bdim (s0 x) (s0 y) ;;
    b <- bdim (s1 x) (s1 y) ;;
    Ok (T4 a b (s2 x) (s3 y) (fun i h r c =>
          Rsum (s3 x) (fun t =>
            (at4 x (bidx (s0 x) i) (bidx (s1 x) h) r t
             * at4 y (bidx (s0 y) i) (bidx (s1 y) h) t c)%R)))
  else Raise RuntimeError.

(** Attention scores may hold minus infinity after [masked_fill]. *)
Inductive ExtR : Type :=
| NegInf
| Fin (r : R).

Definition eexp (s : ExtR) : R :=
  match s with NegInf => 0%R | Fin r => exp r end.

(** [x.masked_fill(mask == 0, float("-inf"))]: the mask is expanded to the
    shape of [x]. *)
Definition masked_fill_neg_inf (x : Tensor4 R) (mask : Tensor4 Z)
    : result (Tensor4 ExtR) :=
  if expandable (s0 mask) (s0 x) && expandable (s1 mask) (s1 x)
     && expandable (s2 mask) (s2 x) && expandable (s3 mask) (s3 x)
  then Ok (T4 (s0 x) (s1 x) (s2 x) (s3 x) (fun b h i j =>
             if (at4 mask (bidx (s0 mask) b) (bidx (s1 mask) h)
                          (bidx (s2 mask) i) (bidx (s3 mask) j) =? 0)%Z
             then NegInf else Fin (at4 x b h i j)))
  else Raise RuntimeError.

(** [torch.softmax(x, dim=-1)] *)
Definition softmax (x : Tensor4 ExtR) : Tensor4 R :=
  T4 (s0 x) (s1 x) (s2 x) (s3 x) (fun b h i j =>
    (eexp (at4 x b h i j) / Rsum (s3 x) (fun t => eexp (at4 x b h i t)))%R).

(** ** Dropout and the random choices of a call *)

(** In training mode every dropout call draws, for every element, whether
    it is kept.  The draws of one forward call are given by an oracle from
    the place of the call and the element index. *)
Definition Noise : Type := list nat -> bool.
Definition Mode : Type := option Noise.

Definition sub (k : nat) (md : Mode) : Mode :=
  option_map (fun nz key => nz (k :: key)) md.

Record Dropout : Type := mkDropout { p : Q }.

Definition drop (d : Dropout) (keep : bool) (v : R) : R :=
  if keep then (v / (1 - Q2R (p d)))%R else 0%R.

Definition Dropout_forward3 (d : Dropout) (md : Mode) (x : Tensor3 R)
    : Tensor3 R :=
  match md with
  | Some nz =>
      if Qeq_bool (p d) 0%Q then x
      else T3 (dim0 x) (dim1 x) (dim2 x)
              (fun b l e => drop d (nz [b; l; e]) (at3 x b l e))
  | None => x
  end.

Definition Dropout_forward4 (d : Dropout) (md : Mode) (x : Tensor4 R)
    : Tensor4 R :=
  match md with
  | Some nz =>
      if Qeq_bool (p d) 0%Q then x
      else T4 (s0 x) (s1 x) (s2 x) (s3 x)
              (fun b h i j => drop d (nz [b; h; i; j]) (at4 x b h i j))
  | None => x
  end.

(** ** Library layers: [nn.Linear], [nn.LayerNorm], [nn.ReLU] *)

Record Linear : Type := mkLinear { weight : Tensor2 R; bias : Tensor1 R }.

Definition Linear_forward (m : Linear) (x : Tensor3 R) : result (Tensor3 R) :=
  if (dim2 x =? cols (weight m))
     && expandable (len1 (bias m)) (rows (weight m))
  then Ok (T3 (dim0 x) (dim1 x) (rows (weight m)) (fun b l o =>
             (Rsum (dim2 x) (fun e => at3 x b l e * at2 (weight m) o e)%R
              + at1 (bias m) (bidx (len1 (bias m)) o))%R))
  else Raise RuntimeError.

Record LayerNorm : Type :=
  mkLayerNorm { normalized_shape : nat; ln_weight : Tensor1 R;
                ln_bias : Tensor1 R; eps : R }.

Definition mean (n : nat) (f : nat -> R) : R := (Rsum n f / INR n)%R.

Definition LayerNorm_forward (m : LayerNorm) (x : Tensor3 R)
    : result (Tensor3 R) :=
  if (dim2 x =? normalized_shape m)
     && (len1 (ln_weight m) =? normalized_shape m)
     && (len1 (ln_bias m) =? normalized_shape m)
  then Ok (T3 (dim0 x) (dim1 x) (dim2 x) (fun b l e =>
             let mu := mean (dim2 x) (at3 x b l) in
             let var :=
               mean (dim2 x)
                    (fun t => ((at3 x b l t - mu) * (at3 x b l t - mu))%R)
             in
             ((at3 x b l e - mu) / sqrt (var + eps m) * at1 (ln_weight m) e
              + at1 (ln_bias m) e)%R))
  else Raise RuntimeError.

Definition ReLU_forward (x : Tensor3 R) : Tensor3 R := map3 (Rmax 0) x.

(** ** [ScaledDotProductAttention] *)

Record ScaledDotProductAttention : Type := mkSDPA { sdpa_dropout : Dropout }.

Definition ScaledDotProductAttention_init (use_dropout : bool)
    : ScaledDotProductAttention :=
  let p := (if use_dropout then 1 # 10 else 0)%Q in
  mkSDPA (mkDropout p).

Definition ScaledDotProductAttention_forward
    (self : ScaledDotProductAttention) (md : Mode)
    (q k v : Tensor4 R) (mask : option (Tensor3 Z)) : result (Tensor4 R) :=
  let d_k := s3 k in
  let k := transpose_last k in
  qk <- matmul4 q k ;;
  let attn_weights := map4 (fun s => (s / sqrt (INR d_k))%R) qk in
  attn_weights <-
    match mask with
    | Some mask =>
        let mask := unsqueeze4_1 mask in
        masked_fill_neg_inf attn_weights mask
    | None => Ok (map4 Fin attn_weights)
    end ;;
  let attn_weights := softmax attn_weights in
  let attn_weights := Dropout_forward4 (sdpa_dropout self) md attn_weights in
  matmul4 attn_weights v.

(** ** [MultiHeadAttention] *)

Record MultiHeadAttention : Type :=
  mkMHA { n_heads : nat; embed_size : nat; head_dim : nat;
          q_weights : Linear; k_weights : Linear; v_weights : Linear;
          proj : Linear; sdpa : ScaledDotProductAttention }.

Definition MultiHeadAttention_forward (self : MultiHeadAttention) (md : Mode)
    (q k v : Tensor3 R) (mask : option (Tensor3 Z)) : result (Tensor3 R) :=
  let batch_size := dim0 q in
  q <- Linear_forward (q_weights self) q ;;
  k <- Linear_forward (k_weights self) k ;;
  v <- Linear_forward (v_weights self) v ;;
  q <- view_3_4 q batch_size (dim1 q) (n_heads self) (head_dim self) ;;
  let q := transpose_1_2 q in
  k <- view_3_4 k batch_size (dim1 k) (n_heads self) (head_dim self) ;;
  let k := transpose_1_2 k in
  v <- view_3_4 v batch_size (dim1 v) (n_heads self) (head_dim self) ;;
  let v := transpose_1_2 v in
  attentions <- ScaledDotProductAttention_forward (sdpa self) md q k v mask ;;
  attentions <-
    view_4_3 (contiguous (transpose_1_2 attentions))
             batch_size (s2 q) (embed_size self) ;;
  Linear_forward (proj self) attentions.

(** ** [FeedForward] *)

(** The four members of the [nn.Sequential]; the [nn.ReLU] has no state. *)
Record FeedForward : Type :=
  mkFF { ff_0 : Linear; ff_2 : Dropout; ff_3 : Linear }.

Definition FeedForward_forward (self : FeedForward) (md : Mode)
    (x : Tensor3 R) : result (Tensor3 R) :=
  x <- Linear_forward (ff_0 self) x ;;
  let x := ReLU_forward x in
  let x := Dropout_forward3 (ff_2 self) md x in
  Linear_forward (ff_3 self) x.

(** ** [EncoderLayer] and [Encoder] *)

Record EncoderLayer : Type :=
  mkEncoderLayer { enc_ff : FeedForward; enc_mha : MultiHeadAttention;
                   enc_ln1 : LayerNorm; enc_ln2 : LayerNorm;
                   enc_dropout1 : Dropout; enc_dropout2 : Dropout;
                   enc_post_ln : bool }.

Definition EncoderLayer_forward (self : EncoderLayer) (md : Mode)
    (x : Tensor3 R) (mask : option (Tensor3 Z)) : result (Tensor3 R) :=
  if enc_post_ln self then
    a <- MultiHeadAttention_forward (enc_mha self) (sub 0 md) x x x mask ;;
    s <- add3 x (Dropout_forward3 (enc_dropout1 self) (sub 1 md) a) ;;
    attention <- LayerNorm_forward (enc_ln1 self) s ;;
    f <- FeedForward_forward (enc_ff self) (sub 2 md) attention ;;
    s <- add3 attention (Dropout_forward3 (enc_dropout2 self) (sub 3 md) f) ;;
    LayerNorm_forward (enc_ln2 self) s
  else
    x_ln <- LayerNorm_forward (enc_ln1 self) x ;;
    a <- MultiHeadAttention_forward (enc_mha self) (sub 0 md)
           x_ln x_ln x_ln mask ;;
    attention <- add3 x (Dropout_forward3 (enc_dropout1 self) (sub 1 md) a) ;;
    attention_ln <- LayerNorm_forward (enc_ln2 self) attention ;;
    f <- FeedForward_forward (enc_ff self) (sub 2 md) attention_ln ;;
    add3 attention (Dropout_forward3 (enc_dropout2 self) (sub 3 md) f).

Record Encoder : Type :=
  mkEncoder { encoder_layers : list EncoderLayer;
              enc_final_ln : option LayerNorm }.

(** The loop over the layers; [i] is the index of the first one. *)
Fixpoint encoder_loop (layers : list EncoderLayer) (i : nat) (md : Mode)
    (x : Tensor3 R) (mask : option (Tensor3 Z)) : result (Tensor3 R) :=
  match layers with
  | [] => Ok x
  | encoder_layer :: rest =>
      x <- EncoderLayer_forward encoder_layer (sub i md) x mask ;;
      encoder_loop rest (S i) md x mask
  end.

Definition Encoder_forward (self : Encoder) (md : Mode)
    (x : Tensor3 R) (mask : option (Tensor3 Z)) : result (Tensor3 R) :=
  x <- encoder_loop (encoder_layers self) 0 md x mask ;;
  match enc_final_ln self with
  | Some final_ln => LayerNorm_forward final_ln x
  | None => Ok x
  end.

(** ** [DecoderLayer] and [Decoder] *)

Record DecoderLayer : Type :=
  mkDecoderLayer { dec_ff : FeedForward; dec_mha : MultiHeadAttention;
                   dec_mmha : MultiHeadAttention;
                   dec_ln1 : LayerNorm; dec_ln2 : LayerNorm;
                   dec_ln3 : LayerNorm;
                   dec_dropout1 : Dropout; dec_dropout2 : Dropout;
                   dec_dropout3 : Dropout; dec_post_ln : bool }.

Definition DecoderLayer_forward (self : DecoderLayer) (md : Mode)
    (x memory : Tensor3 R) (causal_mask : Tensor3 Z)
    (encoder_mask : option (Tensor3 Z)) : result (Tensor3 R) :=
  if dec_post_ln self then
    a <- MultiHeadAttention_forward (dec_mmha self) (sub 0 md)
           x x x (Some causal_mask) ;;
    s <- add3 x (Dropout_forward3 (dec_dropout1 self) (sub 1 md) a) ;;
    attention <- LayerNorm_forward (dec_ln1 self) s ;;
    a <- MultiHeadAttention_forward (dec_mha self) (sub 2 md)
           attention memory memory encoder_mask ;;
    s <- add3 attention (Dropout_forward3 (dec_dropout2 self) (sub 3 md) a) ;;
    attention <- LayerNorm_forward (dec_ln2 self) s ;;
    f <- FeedForward_forward (dec_ff self) (sub 4 md) attention ;;
    s <- add3 attention (Dropout_forward3 (dec_dropout3 self) (sub 5 md) f) ;;
    LayerNorm_forward (dec_ln3 self) s
  else
    x_ln <- LayerNorm_forward (dec_ln1 self) x ;;
    a <- MultiHeadAttention_forward (dec_mmha self) (sub 0 md)
           x_ln x_ln x_ln (Some causal_mask) ;;
    attention <- add3 x (Dropout_forward3 (dec_dropout1 self) (sub 1 md) a) ;;
    attention_ln <- LayerNorm_forward (dec_ln2 self) attention ;;
    a <- MultiHeadAttention_forward (dec_mha self) (sub 2 md)
           attention_ln memory memory encoder_mask ;;
    attention <-
      add3 attention (Dropout_forward3 (dec_dropout2 self) (sub 3 md) a) ;;
    attention_ln <- LayerNorm_forward (dec_ln3 self) attention ;;
    f <- FeedForward_forward (dec_ff self) (sub 4 md) attention_ln ;;
    add3 attention (Dropout_forward3 (dec_dropout3 self) (sub 5 md) f).

Record Decoder : Type :=
  mkDecoder { decoder_layers : list DecoderLayer;
              dec_final_ln : option LayerNorm }.

Fixpoint decoder_loop (layers : list DecoderLayer) (i : nat) (md : Mode)
    (x memory : Tensor3 R) (tgt_mask : Tensor3 Z)
    (encoder_mask : option (Tensor3 Z)) : result (Tensor3 R) :=
  match layers with
  | [] => Ok x
  | decoder_layer :: rest =>
      x <- DecoderLayer_forward decoder_layer (sub i md) x memory tgt_mask
             encoder_mask ;;
      decoder_loop rest (S i) md x memory tgt_mask encoder_mask
  end.

Definition Decoder_forward (self : Decoder) (md : Mode)
    (x memory : Tensor3 R) (encoder_mask : option (Tensor3 Z))
    : result (Tensor3 R) :=
  let tgt_mask := unsqueeze3_0 (create_causal_mask (dim1 x)) in
  x <- decoder_loop (decoder_layers self) 0 md x memory tgt_mask
         encoder_mask ;;
  match dec_final_ln self with
  | Some final_ln => LayerNorm_forward final_ln x
  | None => Ok x
  end.

(** ** [TransformerConfig] *)

Record TransformerConfig : Type :=
  mkConfig { vocab_size : nat;
             n_encoder_layers : nat;
             n_decoder_layers : nat;
             n_encoder_heads : nat;
             n_decoder_heads : nat;
             cfg_embed_size : nat;
             d_ff : nat;
             max_len : nat;
             tie_embeddings : bool;
             post_ln : bool;
             use_additional_dropout : bool;
             xavier_initialization : bool }.

Definition default_config : TransformerConfig :=
  mkConfig 8192 6 6 8 8 512 2048 4096 true true false false.

(** ** Structural names of the parameters *)

Inductive wb : Type := Weight_ | Bias_.
Inductive mha_slot : Type := SQ | SK | SV | SProj.
Inductive ff_slot : Type := FF0 | FF3.
Inductive enc_slot : Type :=
| EncFF (s : ff_slot)
| EncMha (s : mha_slot)
| EncLn1
| EncLn2.
Inductive dec_slot : Type :=
| DecFF (s : ff_slot)
| DecMha (s : mha_slot)
| DecMmha (s : mha_slot)
| DecLn1
| DecLn2
| DecLn3.

(** [PEncoderLayer i (EncMha SQ) Weight_] stands for
    [encoder.encoder_layers.i.mha.q_weights.weight], and so on. *)
Inductive pname : Type :=
| PEncoderLayer (i : nat) (s : enc_slot) (p : wb)
| PEncoderFinalLn (p : wb)
| PDecoderLayer (i : nat) (s : dec_slot) (p : wb)
| PDecoderFinalLn (p : wb)
| PEmbeddingsWeight
| PFcWeight
| PFcBias.

Definition wb_eq_dec (a b : wb) : {a = b} + {a <> b}.
Proof. decide equality. Defined.
Definition mha_slot_eq_dec (a b : mha_slot) : {a = b} + {a <> b}.
Proof. decide equality. Defined.
Definition ff_slot_eq_dec (a b : ff_slot) : {a = b} + {a <> b}.
Proof. decide equality. Defined.
Definition enc_slot_eq_dec (a b : enc_slot) : {a = b} + {a <> b}.
Proof.
  decide equality; [apply ff_slot_eq_dec | apply mha_slot_eq_dec].
Defined.
Definition dec_slot_eq_dec (a b : dec_slot) : {a = b} + {a <> b}.
Proof.
  decide equality;
    [apply ff_slot_eq_dec | apply mha_slot_eq_dec | apply mha_slot_eq_dec].
Defined.
Definition pname_eq_dec (a b : pname) : {a = b} + {a <> b}.
Proof.
  decide equality;
    try apply wb_eq_dec; try apply Nat.eq_dec;
    try apply enc_slot_eq_dec; try apply dec_slot_eq_dec.
Defined.

Definition wbs : list wb := [Weight_; Bias_].
Definition ff_slots : list ff_slot := [FF0; FF3].
Definition mha_slots : list mha_slot := [SQ; SK; SV; SProj].
Definition enc_slots : list enc_slot :=
  map EncFF ff_slots ++ map EncMha mha_slots ++ [EncLn1; EncLn2].
Definition dec_slots : list dec_slot :=
  map DecFF ff_slots ++ map DecMha mha_slots ++ map DecMmha mha_slots
  ++ [DecLn1; DecLn2; DecLn3].

(** The keys of [state_dict()], in registration order.  A tied weight is
    listed under both of its names. *)
Definition names (c : TransformerConfig) : list pname :=
  flat_map (fun i => flat_map (fun s => map (PEncoderLayer i s) wbs) enc_slots)
           (seq 0 (n_encoder_layers c))
  ++ (if post_ln c then [] else map PEncoderFinalLn wbs)
  ++ flat_map (fun i => flat_map (fun s => map (PDecoderLayer i s) wbs)
                                 dec_slots)
              (seq 0 (n_decoder_layers c))
  ++ (if post_ln c then [] else map PDecoderFinalLn wbs)
  ++ [PEmbeddingsWeight; PFcWeight; PFcBias].

(** ** Objects and the heap *)

(** A tensor object is a parameter, named after the constructor call and
    the attribute it was created for, or a temporary of a forward call. *)
Inductive loc : Type :=
| LParam (model : nat) (n : pname)
| LTmp (k : nat).

Definition loc_eq_dec (a b : loc) : {a = b} + {a <> b}.
Proof. decide equality; try apply Nat.eq_dec; apply pname_eq_dec. Defined.

Inductive obj : Type :=
| O1 (t : Tensor1 R)
| O2 (t : Tensor2 R)
| O3 (t : Tensor3 R).

Definition as1 (o : obj) : Tensor1 R :=
  match o with O1 t => t | _ => T1 0 (fun _ => 0%R) end.
Definition as2 (o : obj) : Tensor2 R :=
  match o with O2 t => t | _ => T2 0 0 (fun _ _ => 0%R) end.
Definition as3 (o : obj) : Tensor3 R :=
  match o with O3 t => t | _ => T3 0 0 0 (fun _ _ _ => 0%R) end.

Record Heap : Type :=
  mkHeap { cell : loc -> obj; next_model : nat; next_tmp : nat }.

Definition write (h : Heap) (l : loc) (o : obj) : Heap :=
  mkHeap (fun l' => if loc_eq_dec l l' then o else cell h l')
         (next_model h) (next_tmp h).

Definition alloc_tmp (h : Heap) (o : obj) : loc * Heap :=
  (LTmp (next_tmp h),
   mkHeap (fun l' => if loc_eq_dec (LTmp (next_tmp h)) l' then o
                     else cell h l')
          (next_model h) (S (next_tmp h))).

(** Computations on the heap that may raise. *)
Definition M (A : Type) : Type := Heap -> result (A * Heap).

Definition ret {A} (a : A) : M A := fun h => Ok (a, h).
Definition mbind {A B} (m : M A) (k : A -> M B) : M B :=
  fun h => match m h with
           | Ok (a, h') => k a h'
           | Raise e => Raise e
           end.
Definition lift {A} (r : result A) : M A :=
  fun h => match r with Ok a => Ok (a, h) | Raise e => Raise e end.

Notation "x <-- c1 ;; c2" := (mbind c1 (fun x => c2))
  (at level 61, c1 at next level, right associativity).
Notation "c1 ;;; c2" := (mbind c1 (fun _ => c2))
  (at level 61, right associativity).

(** ** Random choices of a constructor call *)

Record Rng : Type :=
  mkRng { default_init : pname -> nat -> nat -> R;
          xavier_uniform : pname -> nat -> nat -> R;
          uninit : nat -> nat -> R }.

(** ** Constructors *)

Definition Linear_init (rng : Rng) (name : wb -> pname)
    (in_features out_features : nat) : Linear :=
  mkLinear (T2 out_features in_features (default_init rng (name Weight_)))
           (T1 out_features (default_init rng (name Bias_) 0)).

Definition LayerNorm_init (normalized_shape : nat) : LayerNorm :=
  mkLayerNorm normalized_shape
              (T1 normalized_shape (fun _ => 1%R))
              (T1 normalized_shape (fun _ => 0%R))
              (1 / 100000)%R.

(** [a % b] *)
Definition py_mod (a b : nat) : result nat :=
  if b =? 0 then Raise ZeroDivisionError else Ok (a mod b).

Definition py_assert (b : bool) : result unit :=
  if b then Ok tt else Raise AssertionError.

Definition MultiHeadAttention_init (rng : Rng) (name : mha_slot -> wb -> pname)
    (n_heads embed_size : nat) (use_additional_dropout : bool)
    : result MultiHeadAttention :=
  r <- py_mod embed_size n_heads ;;
  _ <- py_assert (r =? 0) ;;
  Ok (mkMHA n_heads embed_size (embed_size / n_heads)
            (Linear_init rng (name SQ) embed_size embed_size)
            (Linear_init rng (name SK) embed_size embed_size)
            (Linear_init rng (name SV) embed_size embed_size)
            (Linear_init rng (name SProj) embed_size embed_size)
            (ScaledDotProductAttention_init use_additional_dropout)).

Definition FeedForward_init (rng : Rng) (name : ff_slot -> wb -> pname)
    (d_out d_ff : nat) (use_dropout : bool) : FeedForward :=
  let p := (if use_dropout then 1 # 10 else 0)%Q in
  mkFF (Linear_init rng (name FF0) d_out d_ff)
       (mkDropout p)
       (Linear_init rng (name FF3) d_ff d_out).

Definition EncoderLayer_init (rng : Rng) (name : enc_slot -> wb -> pname)
    (n_heads embed_size d_ff : nat) (post_ln use_additional_dropout : bool)
    : result EncoderLayer :=
  let ff := FeedForward_init rng (fun s => name (EncFF s)) embed_size d_ff
              use_additional_dropout in
  mha <- MultiHeadAttention_init rng (fun s => name (EncMha s))
           n_heads embed_size use_additional_dropout ;;
  Ok (mkEncoderLayer ff mha
        (LayerNorm_init embed_size) (LayerNorm_init embed_size)
        (mkDropout (1 # 10)) (mkDropout (1 # 10)) post_ln).

(** [[f(i) for i in range(n)]], stopping at the first exception. *)
Fixpoint list_comprehension {A} (f : nat -> result A) (start n : nat)
    : result (list A) :=
  match n with
  | 0 => Ok []
  | S n' =>
      a <- f start ;;
      rest <- list_comprehension f (S start) n' ;;
      Ok (a :: rest)
  end.

Definition Encoder_init (rng : Rng) (n_layers n_heads embed_size d_ff : nat)
    (post_ln use_additional_dropout : bool) : result Encoder :=
  layers <- list_comprehension
              (fun i => EncoderLayer_init rng (PEncoderLayer i) n_heads
                          embed_size d_ff post_ln use_additional_dropout)
              0 n_layers ;;
  Ok (mkEncoder layers
        (if post_ln then None else Some (LayerNorm_init embed_size))).

Definition DecoderLayer_init (rng : Rng) (name : dec_slot -> wb -> pname)
    (n_heads embed_size d_ff : nat) (post_ln use_additional_dropout : bool)
    : result DecoderLayer :=
  let ff := FeedForward_init rng (fun s => name (DecFF s)) embed_size d_ff
              use_additional_dropout in
  mha <- MultiHeadAttention_init rng (fun s => name (DecMha s))
           n_heads embed_size use_additional_dropout ;;
  mmha <- MultiHeadAttention_init rng (fun s => name (DecMmha s))
            n_heads embed_size use_additional_dropout ;;
  Ok (mkDecoderLayer ff mha mmha
        (LayerNorm_init embed_size) (LayerNorm_init embed_size)
        (LayerNorm_init embed_size)
        (mkDropout (1 # 10)) (mkDropout (1 # 10)) (mkDropout (1 # 10))
        post_ln).

Definition Decoder_init (rng : Rng) (n_layers n_heads embed_size d_ff : nat)
    (post_ln use_additional_dropout : bool) : result Decoder :=
  layers <- list_comprehension
              (fun i => DecoderLayer_init rng (PDecoderLayer i) n_heads
                          embed_size d_ff post_ln use_additional_dropout)
              0 n_layers ;;
  Ok (mkDecoder layers
        (if post_ln then None else Some (LayerNorm_init embed_size))).

(** ** The module tree and its parameters *)

Record Embedding : Type := mkEmbedding { emb_weight : Tensor2 R }.

Definition Embedding_init (rng : Rng) (num_embeddings embedding_dim : nat)
    : Embedding :=
  mkEmbedding (T2 num_embeddings embedding_dim
                  (default_init rng PEmbeddingsWeight)).

Definition fc_name (p : wb) : pname :=
  match p with Weight_ => PFcWeight | Bias_ => PFcBias end.

Record Modules : Type :=
  mkModules { encoder : Encoder; decoder : Decoder;
              embeddings : Embedding; fc : Linear }.

Definition no_param : obj := O1 (T1 0 (fun _ => 0%R)).

Definition Linear_param (m : Linear) (p : wb) : obj :=
  match p with Weight_ => O2 (weight m) | Bias_ => O1 (bias m) end.
Definition LayerNorm_param (m : LayerNorm) (p : wb) : obj :=
  match p with Weight_ => O1 (ln_weight m) | Bias_ => O1 (ln_bias m) end.
Definition MultiHeadAttention_param (m : MultiHeadAttention) (s : mha_slot)
    : wb -> obj :=
  Linear_param match s with
               | SQ => q_weights m | SK => k_weights m
               | SV => v_weights m | SProj => proj m
               end.
Definition FeedForward_param (m : FeedForward) (s : ff_slot) : wb -> obj :=
  Linear_param match s with FF0 => ff_0 m | FF3 => ff_3 m end.
Definition EncoderLayer_param (m : EncoderLayer) (s : enc_slot) : wb -> obj :=
  match s with
  | EncFF s => FeedForward_param (enc_ff m) s
  | EncMha s => MultiHeadAttention_param (enc_mha m) s
  | EncLn1 => LayerNorm_param (enc_ln1 m)
  | EncLn2 => LayerNorm_param (enc_ln2 m)
  end.
Definition DecoderLayer_param (m : DecoderLayer) (s : dec_slot) : wb -> obj :=
  match s with
  | DecFF s => FeedForward_param (dec_ff m) s
  | DecMha s => MultiHeadAttention_param (dec_mha m) s
  | DecMmha s => MultiHeadAttention_param (dec_mmha m) s
  | DecLn1 => LayerNorm_param (dec_ln1 m)
  | DecLn2 => LayerNorm_param (dec_ln2 m)
  | DecLn3 => LayerNorm_param (dec_ln3 m)
  end.

(** The parameter tensor registered under a structural name. *)
Definition parameters (m : Modules) (n : pname) : obj :=
  match n with
  | PEncoderLayer i s p =>
      match nth_error (encoder_layers (encoder m)) i with
      | Some l => EncoderLayer_param l s p
      | None => no_param
      end
  | PEncoderFinalLn p =>
      match enc_final_ln (encoder m) with
      | Some l => LayerNorm_param l p
      | None => no_param
      end
  | PDecoderLayer i s p =>
      match nth_error (decoder_layers (decoder m)) i with
      | Some l => DecoderLayer_param l s p
      | None => no_param
      end
  | PDecoderFinalLn p =>
      match dec_final_ln (decoder m) with
      | Some l => LayerNorm_param l p
      | None => no_param
      end
  | PEmbeddingsWeight => O2 (emb_weight (embeddings m))
  | PFcWeight => O2 (weight (fc m))
  | PFcBias => O1 (bias (fc m))
  end.

(** Reading a module: its attributes are those the constructor set, its
    parameter tensors are the current contents of the objects registered
    under its names. *)
Definition Linear_read (rd : wb -> obj) (m : Linear) : Linear :=
  mkLinear (as2 (rd Weight_)) (as1 (rd Bias_)).
Definition LayerNorm_read (rd : wb -> obj) (m : LayerNorm) : LayerNorm :=
  mkLayerNorm (normalized_shape m) (as1 (rd Weight_)) (as1 (rd Bias_))
              (eps m).
Definition MultiHeadAttention_read (rd : mha_slot -> wb -> obj)
    (m : MultiHeadAttention) : MultiHeadAttention :=
  mkMHA (n_heads m) (embed_size m) (head_dim m)
        (Linear_read (rd SQ) (q_weights m)) (Linear_read (rd SK) (k_weights m))
        (Linear_read (rd SV) (v_weights m)) (Linear_read (rd SProj) (proj m))
        (sdpa m).
Definition FeedForward_read (rd : ff_slot -> wb -> obj) (m : FeedForward)
    : FeedForward :=
  mkFF (Linear_read (rd FF0) (ff_0 m)) (ff_2 m) (Linear_read (rd FF3) (ff_3 m)).
Definition EncoderLayer_read (rd : enc_slot -> wb -> obj) (m : EncoderLayer)
    : EncoderLayer :=
  mkEncoderLayer (FeedForward_read (fun s => rd (EncFF s)) (enc_ff m))
                 (MultiHeadAttention_read (fun s => rd (EncMha s)) (enc_mha m))
                 (LayerNorm_read (rd EncLn1) (enc_ln1 m))
                 (LayerNorm_read (rd EncLn2) (enc_ln2 m))
                 (enc_dropout1 m) (enc_dropout2 m) (enc_post_ln m).
Definition DecoderLayer_read (rd : dec_slot -> wb -> obj) (m : DecoderLayer)
    : DecoderLayer :=
  mkDecoderLayer (FeedForward_read (fun s => rd (DecFF s)) (dec_ff m))
                 (MultiHeadAttention_read (fun s => rd (DecMha s)) (dec_mha m))
                 (MultiHeadAttention_read (fun s => rd (DecMmha s))
                                          (dec_mmha m))
                 (LayerNorm_read (rd DecLn1) (dec_ln1 m))
                 (LayerNorm_read (rd DecLn2) (dec_ln2 m))
                 (LayerNorm_read (rd DecLn3) (dec_ln3 m))
                 (dec_dropout1 m) (dec_dropout2 m) (dec_dropout3 m)
                 (dec_post_ln m).

Fixpoint read_layers {L K : Type} (read1 : (K -> wb -> obj) -> L -> L)
    (rd : nat -> K -> wb -> obj) (i : nat) (layers : list L) : list L :=
  match layers with
  | [] => []
  | l :: rest => read1 (rd i) l :: read_layers read1 rd (S i) rest
  end.

Definition Modules_read (rd : pname -> obj) (m : Modules) : Modules :=
  mkModules
    (mkEncoder
       (read_layers EncoderLayer_read (fun i s p => rd (PEncoderLayer i s p))
                    0 (encoder_layers (encoder m)))
       (option_map (LayerNorm_read (fun p => rd (PEncoderFinalLn p)))
                   (enc_final_ln (encoder m))))
    (mkDecoder
       (read_layers DecoderLayer_read (fun i s p => rd (PDecoderLayer i s p))
                    0 (decoder_layers (decoder m)))
       (option_map (LayerNorm_read (fun p => rd (PDecoderFinalLn p)))
                   (dec_final_ln (decoder m))))
    (mkEmbedding (as2 (rd PEmbeddingsWeight)))
    (Linear_read (fun p => rd (fc_name p)) (fc m)).

(** ** [Transformer] *)

(** The model object.  [modules] is the tree the constructors built (its
    tensors are the initial values; the live ones are in the heap), [slots]
    says which tensor object each parameter name is bound to. *)
Record Transformer : Type :=
  mkTransformer { config : TransformerConfig;
                  pos_enc : Tensor2 R;
                  modules : Modules;
                  sqrt_dmodel : R;
                  dropout : Dropout;
                  slots : pname -> loc;
                  training : bool }.

Definition current_modules (self : Transformer) (h : Heap) : Modules :=
  Modules_read (fun n => cell h (slots self n)) (modules self).

(** Every parameter of a freshly built tree becomes a new object. *)
Definition register (h : Heap) (f : pname -> obj) : Heap :=
  mkHeap (fun l => match l with
                   | LParam m n => if m =? next_model h then f n else cell h l
                   | LTmp _ => cell h l
                   end)
         (S (next_model h)) (next_tmp h).

(** [named_parameters()]: a tensor object bound to two names is listed
    once, under the first. *)
Fixpoint dedup_by_loc (slots : pname -> loc) (ns : list pname)
    (seen : list loc) : list pname :=
  match ns with
  | [] => []
  | n :: rest =>
      if in_dec loc_eq_dec (slots n) seen then dedup_by_loc slots rest seen
      else n :: dedup_by_loc slots rest (slots n :: seen)
  end.

Definition named_parameters (self : Transformer) : list pname :=
  dedup_by_loc (slots self) (names (config self)) [].

Definition _init_params (rng : Rng) (self : Transformer) (h : Heap) : Heap :=
  fold_left
    (fun h n =>
       match cell h (slots self n) with
       | O2 t => write h (slots self n)
                       (O2 (T2 (rows t) (cols t) (xavier_uniform rng n)))
       | _ => h
       end)
    (named_parameters self) h.

Definition Transformer_init (config : TransformerConfig) (rng : Rng)
    : M Transformer :=
  fun h =>
    pos_enc <- positional_encoding (uninit rng) (max_len config)
                 (cfg_embed_size config) ;;
    encoder <- Encoder_init rng (n_encoder_layers config)
                 (n_encoder_heads config) (cfg_embed_size config)
                 (d_ff config) (post_ln config)
                 (use_additional_dropout config) ;;
    decoder <- Decoder_init rng (n_decoder_layers config)
                 (n_decoder_heads config) (cfg_embed_size config)
                 (d_ff config) (post_ln config)
                 (use_additional_dropout config) ;;
    let sqrt_dmodel := sqrt (INR (cfg_embed_size config)) in
    let embeddings :=
      Embedding_init rng (vocab_size config) (cfg_embed_size config) in
    let fc :=
      Linear_init rng fc_name (cfg_embed_size config) (vocab_size config) in
    let mods := mkModules encoder decoder embeddings fc in
    let slots := LParam (next_model h) in
    let h := register h (parameters mods) in
    let slots :=
      if tie_embeddings config
      then fun n => if pname_eq_dec n PEmbeddingsWeight then slots PFcWeight
                    else slots n
      else slots in
    let self := mkTransformer config pos_enc mods sqrt_dmodel
                              (mkDropout (1 # 10)) slots true in
    let h := if xavier_initialization config then _init_params rng self h
             else h in
    Ok (self, h).

Definition eval (self : Transformer) : Transformer :=
  mkTransformer (config self) (pos_enc self) (modules self)
                (sqrt_dmodel self) (dropout self) (slots self) false.

Definition mode_of (self : Transformer) (noise : Noise) : Mode :=
  if training self then Some noise else None.

(** [nn.Embedding]: a lookup of rows; a token id outside the table raises.
    The result is a new tensor. *)
Definition ids_in_range (num_embeddings : nat) (ids : Tensor2 Z) : bool :=
  forallb (fun b =>
             forallb (fun l => (0 <=? at2 ids b l)%Z
                               && (at2 ids b l <? Z.of_nat num_embeddings)%Z)
                     (seq 0 (cols ids)))
          (seq 0 (rows ids)).

Definition embedding (w : Tensor2 R) (ids : Tensor2 Z) : result (Tensor3 R) :=
  if ids_in_range (rows w) ids
  then Ok (T3 (rows ids) (cols ids) (cols w)
              (fun b l e => at2 w (Z.to_nat (at2 ids b l)) e))
  else Raise IndexError.

Definition Embedding_forward (w : loc) (ids : Tensor2 Z) : M loc :=
  fun h => t <- embedding (as2 (cell h w)) ids ;; Ok (alloc_tmp h (O3 t)).

(** [x *= c] and [x += y] on the tensor object [x]. *)
Definition imul (x : loc) (c : R) : M unit :=
  fun h => Ok (tt, write h x (O3 (imul3 (as3 (cell h x)) c))).
Definition iadd (x : loc) (y : Tensor2 R) : M unit :=
  fun h => t <- iadd3_2 (as3 (cell h x)) y ;; Ok (tt, write h x (O3 t)).
Definition deref (x : loc) : M (Tensor3 R) :=
  fun h => Ok (as3 (cell h x), h).
Definition get_modules (self : Transformer) : M Modules :=
  fun h => Ok (current_modules self h, h).

(** The first two statements of [encode] and of [decode]: the lookup and
    the scaling by [sqrt_dmodel]. *)
Definition scaled_embedding (self : Transformer) (ids : Tensor2 Z) : M loc :=
  embed <-- Embedding_forward (slots self PEmbeddingsWeight) ids ;;
  imul embed (sqrt_dmodel self) ;;;
  ret embed.

Definition encode (self : Transformer) (noise : Noise)
    (src : Tensor2 Z) (src_mask : option (Tensor2 Z))
    : M (Tensor3 R * option (Tensor3 Z)) :=
  let md := mode_of self noise in
  let src_mask := option_map newaxis_1 src_mask in
  src_embed <-- scaled_embedding self src ;;
  iadd src_embed (slice_rows (pos_enc self) (cols src)) ;;;
  x <-- deref src_embed ;;
  let src_embed := Dropout_forward3 (dropout self) (sub 0 md) x in
  mods <-- get_modules self ;;
  memory <-- lift (Encoder_forward (encoder mods) (sub 1 md) src_embed
                                   src_mask) ;;
  ret (memory, src_mask).

Definition decode (self : Transformer) (noise : Noise)
    (memory : Tensor3 R) (tgt : Tensor2 Z) (src_mask : option (Tensor3 Z))
    : M (Tensor3 R) :=
  let md := mode_of self noise in
  tgt_embed <-- scaled_embedding self tgt ;;
  iadd tgt_embed (slice_rows (pos_enc self) (cols tgt)) ;;;
  x <-- deref tgt_embed ;;
  let tgt_embed := Dropout_forward3 (dropout self) (sub 2 md) x in
  mods <-- get_modules self ;;
  attention <-- lift (Decoder_forward (decoder mods) (sub 3 md) tgt_embed
                                      memory src_mask) ;;
  lift (Linear_forward (fc mods) attention).

Definition forward (self : Transformer) (noise : Noise)
    (src tgt : Tensor2 Z) (src_mask : option (Tensor2 Z)) : M (Tensor3 R) :=
  r <-- encode self noise src src_mask ;;
  let '(memory, src_mask) := r in
  decode self noise memory tgt src_mask.

(** ** Specification vocabulary *)

(** The call returns a value, and the value satisfies [P]. *)
Definition returns {A} (r : result A) (P : A -> Prop) : Prop :=
  exists a, r = Ok a /\ P a.

(** The same for a computation started in heap [h]. *)
Definition runs {A} (m : M A) (h : Heap) (P : A -> Heap -> Prop) : Prop :=
  exists a h', m h = Ok (a, h') /\ P a h'.

(** Modules whose parameter tensors have the shapes the constructors give
    them. *)
Definition wf_Linear (m : Linear) (in_features out_features : nat) : Prop :=
  rows (weight m) = out_features /\ cols (weight m) = in_features
  /\ len1 (bias m) = out_features.

Definition wf_LayerNorm (m : LayerNorm) (E : nat) : Prop :=
  normalized_shape m = E /\ len1 (ln_weight m) = E /\ len1 (ln_bias m) = E.

Definition wf_MultiHeadAttention (m : MultiHeadAttention) (E : nat) : Prop :=
  embed_size m = E /\ n_heads m * head_dim m = E
  /\ wf_Linear (q_weights m) E E /\ wf_Linear (k_weights m) E E
  /\ wf_Linear (v_weights m) E E /\ wf_Linear (proj m) E E.

Definition wf_FeedForward (m : FeedForward) (E F : nat) : Prop :=
  wf_Linear (ff_0 m) E F /\ wf_Linear (ff_3 m) F E.

Definition wf_EncoderLayer (E F : nat) (m : EncoderLayer) : Prop :=
  wf_FeedForward (enc_ff m) E F /\ wf_MultiHeadAttention (enc_mha m) E
  /\ wf_LayerNorm (enc_ln1 m) E /\ wf_LayerNorm (enc_ln2 m) E.

Definition wf_final_ln (E : nat) (m : option LayerNorm) : Prop :=
  match m with Some l => wf_LayerNorm l E | None => True end.

Definition wf_Encoder (E F : nat) (m : Encoder) : Prop :=
  Forall (wf_EncoderLayer E F) (encoder_layers m)
  /\ wf_final_ln E (enc_final_ln m).

Definition wf_DecoderLayer (E F : nat) (m : DecoderLayer) : Prop :=
  wf_FeedForward (dec_ff m) E F /\ wf_MultiHeadAttention (dec_mha m) E
  /\ wf_MultiHeadAttention (dec_mmha m) E
  /\ wf_LayerNorm (dec_ln1 m) E /\ wf_LayerNorm (dec_ln2 m) E
  /\ wf_LayerNorm (dec_ln3 m) E.

Definition wf_Decoder (E F : nat) (m : Decoder) : Prop :=
  Forall (wf_DecoderLayer E F) (decoder_layers m)
  /\ wf_final_ln E (dec_final_ln m).

Definition wf_Modules (V E F : nat) (m : Modules) : Prop :=
  wf_Encoder E F (encoder m) /\ wf_Decoder E F (decoder m)
  /\ rows (emb_weight (embeddings m)) = V
  /\ cols (emb_weight (embeddings m)) = E
  /\ wf_Linear (fc m) E V.

(** A model as [Transformer_init] leaves it, up to the values of its
    parameters and its training flag. *)
Definition wf_Transformer (self : Transformer) (h : Heap) : Prop :=
  wf_Modules (vocab_size (config self)) (cfg_embed_size (config self))
             (d_ff (config self)) (current_modules self h)
  /\ rows (pos_enc self) = max_len (config self)
  /\ cols (pos_enc self) = cfg_embed_size (config self)
  /\ (forall n k, slots self n <> LTmp k)
  /\ sqrt_dmodel self = sqrt (INR (cfg_embed_size (config self))).

(** What [encode], [decode] and [forward] compute from the current
    parameter values; the heap versions above are compared with these. *)
Definition embed_value (self : Transformer) (mods : Modules)
    (ids : Tensor2 Z) : result (Tensor3 R) :=
  t <- embedding (emb_weight (embeddings mods)) ids ;;
  iadd3_2 (imul3 t (sqrt_dmodel self)) (slice_rows (pos_enc self) (cols ids)).

Definition encode_value (self : Transformer) (mods : Modules) (md : Mode)
    (src : Tensor2 Z) (src_mask : option (Tensor2 Z))
    : result (Tensor3 R * option (Tensor3 Z)) :=
  x <- embed_value self mods src ;;
  memory <- Encoder_forward (encoder mods) (sub 1 md)
              (Dropout_forward3 (dropout self) (sub 0 md) x)
              (option_map newaxis_1 src_mask) ;;
  Ok (memory, option_map newaxis_1 src_mask).

Definition decode_value (self : Transformer) (mods : Modules) (md : Mode)
    (memory : Tensor3 R) (tgt : Tensor2 Z) (src_mask : option (Tensor3 Z))
    : result (Tensor3 R) :=
  x <- embed_value self mods tgt ;;
  attention <- Decoder_forward (decoder mods) (sub 3 md)
                 (Dropout_forward3 (dropout self) (sub 2 md) x)
                 memory src_mask ;;
  Linear_forward (fc mods) attention.

Definition forward_value (self : Transformer) (mods : Modules) (md : Mode)
    (src tgt : Tensor2 Z) (src_mask : option (Tensor2 Z))
    : result (Tensor3 R) :=
  r <- encode_value self mods md src src_mask ;;
  decode_value self mods md (fst r) tgt (snd r).

(** [h'] differs from [h] in temporaries only. *)
Definition same_parameters (h h' : Heap) : Prop :=
  next_model h' = next_model h
  /\ forall m n, cell h' (LParam m n) = cell h (LParam m n).

(** The heap computation [m] returns what [r] returns and raises what [r]
    raises, and touches temporaries only. *)
Definition computes {A} (m : M A) (h : Heap) (r : result A) : Prop :=
  match r with
  | Ok a => exists h', m h = Ok (a, h') /\ same_parameters h h'
  | Raise e => m h = Raise e
  end.

(** The head count of a stack is checked once per layer, so a stack
    without layers accepts any head count. *)
Definition heads_ok (n_layers n_heads embed_size : nat) : bool :=
  (n_layers =? 0) || (negb (n_heads =? 0) && (embed_size mod n_heads =? 0)).

Definition pos_enc_ok (embed_size : nat) : bool :=
  Nat.even embed_size || (embed_size =? 1).

Definition config_ok (c : TransformerConfig) : bool :=
  pos_enc_ok (cfg_embed_size c)
  && heads_ok (n_encoder_layers c) (n_encoder_heads c) (cfg_embed_size c)
  && heads_ok (n_decoder_layers c) (n_decoder_heads c) (cfg_embed_size c).

(** The bindings of the parameter names after construction number [id]. *)
Definition init_slots_spec (c : TransformerConfig) (id : nat)
    (self : Transformer) : Prop :=
  forall n, slots self n
            = if tie_embeddings c
              then if pname_eq_dec n PEmbeddingsWeight
                   then LParam id PFcWeight else LParam id n
              else LParam id n.


(** Concrete inputs for the examples: an empty heap, constant random
    choices, and two small configurations. *)
Definition empty_heap : Heap := mkHeap (fun _ => no_param) 0 0.

Definition zero_rng : Rng :=
  mkRng (fun _ _ _ => 0%R) (fun _ _ _ => 0%R) (fun _ _ => 0%R).

Definition keep_all : Noise := fun _ => true.

(** vocabulary 4, one layer and one head on each side, embedding size 2,
    feed-forward width 2, [max_len] 3 *)
Definition small_config : TransformerConfig :=
  mkConfig 4 1 1 1 1 2 2 3 true true false false.

(** the same with [max_len] 1 *)
Definition one_position_config : TransformerConfig :=
  mkConfig 4 1 1 1 1 2 2 1 true true false false.



(** a batch of one sequence of [L] tokens, all of id 0 *)
Definition zeros_ids (L : nat) : Tensor2 Z := T2 1 L (fun _ _ => 0%Z).

(** Two [(B, L, E)] tensors have the same shape and the same elements at
    the positions [(b, l)] selected by [P]. *)
Definition agree3 (P : nat -> nat -> Prop) (x x' : Tensor3 R) : Prop :=
  shape3 x = shape3 x'
  /\ forall b l e, b < dim0 x -> l < dim1 x -> e < dim2 x -> P b l ->
       at3 x b l e = at3 x' b l e.

(** The same for [(B, H, L, d)] tensors. *)
Definition agree4 (P : nat -> nat -> Prop) (x x' : Tensor4 R) : Prop :=
  shape4 x = shape4 x'
  /\ forall b h l c, b < s0 x -> h < s1 x -> l < s2 x -> c < s3 x -> P b l ->
       at4 x b h l c = at4 x' b h l c.

(** Two matrices have the same shape and the same elements. *)
Definition agree2 (x x' : Tensor2 R) : Prop :=
  shape2 x = shape2 x'
  /\ forall i j, i < rows x -> j < cols x -> at2 x i j = at2 x' i j.

(** Two [(B, L)] tensors of token ids have the same shape and the same ids
    at the positions selected by [P]. *)
Definition agree_ids (P : nat -> nat -> Prop) (ids ids' : Tensor2 Z) : Prop :=
  shape2 ids = shape2 ids'
  /\ forall b l, b < rows ids -> l < cols ids -> P b l ->
       at2 ids b l = at2 ids' b l.

(** Positions [0 .. i] of every sequence. *)
Definition up_to (i : nat) : nat -> nat -> Prop := fun _ l => l <= i.

(** All positions. *)
Definition everywhere : nat -> nat -> Prop := fun _ _ => True.

(** The positions a [(B, L)] padding mask does not mask. *)
Definition unmasked (mask : Tensor2 Z) : nat -> nat -> Prop :=
  fun b l => at2 mask b l <> 0%Z.

(** Query [i] of batch [b] may attend to key [j]: the mask, expanded to
    the scores, is not 0 there. *)
Definition visible (mask : option (Tensor3 Z)) (b i j : nat) : bool :=
  match mask with
  | Some m => negb (at3 m (bidx (dim0 m) b) (bidx (dim1 m) i)
                          (bidx (dim2 m) j) =? 0)%Z
  | None => true
  end.

(** The attention weight of key [j] for query [i], in closed form: the
    exponential of the scaled dot product, 0 for a masked key, normalised
    over the keys. *)
Definition score (q k : Tensor4 R) (b h i j : nat) : R :=
  (Rsum (s3 q) (fun c => at4 q b h i c * at4 k b h j c)%R
   / sqrt (INR (s3 k)))%R.

Definition unnormalised (q k : Tensor4 R) (mask : option (Tensor3 Z))
    (b h i j : nat) : R :=
  if visible mask b i j then exp (score q k b h i j) else 0%R.

Definition attention_weight (q k : Tensor4 R) (mask : option (Tensor3 Z))
    (b h i j : nat) : R :=
  (unnormalised q k mask b h i j
   / Rsum (s2 k) (fun t => unnormalised q k mask b h i t))%R.

(** The queries selected by [Pq] see keys selected by [Pk] only. *)
Definition attends_within (mask : option (Tensor3 Z))
    (Pq Pk : nat -> nat -> Prop) (B Lq Lk : nat) : Prop :=
  forall b i j, b < B -> i < Lq -> j < Lk ->
    Pq b i -> visible mask b i j = true -> Pk b j.

(** a batch of one sequence of [L] tokens of id 0, with id 1 at position
    [k] *)
Definition one_at (k L : nat) : Tensor2 Z :=
  T2 1 L (fun _ l => if l =? k then 1%Z else 0%Z).

(** a [(1, L)] padding mask that masks position [k] only *)
Definition mask_at (k L : nat) : Tensor2 Z :=
  T2 1 L (fun _ l => if l =? k then 0%Z else 1%Z).

(** The rank and the sizes of a tensor object. *)
Definition obj_shape (o : obj) : list nat :=
  match o with
  | O1 t => [len1 t]
  | O2 t => [rows t; cols t]
  | O3 t => [dim0 t; dim1 t; dim2 t]
  end.

(** A mask can be expanded to the attention scores of [B] batches, [Lq]
    queries and [Lk] keys. *)
Definition mask_fits (mask : option (Tensor3 Z)) (B Lq Lk : nat) : Prop :=
  match mask with
  | Some m => expandable (dim0 m) B = true /\ expandable (dim1 m) Lq = true
              /\ expandable (dim2 m) Lk = true
  | None => True
  end.

(** Token ids [0 <= id < V] at every position of a [(B, L)] tensor. *)
Definition valid_ids (V : nat) (ids : Tensor2 Z) : Prop :=
  forall b l, b < rows ids -> l < cols ids ->
    (0 <= at2 ids b l < Z.of_nat V)%Z.

(** ** Persistence *)

(** A JSON document as [json.load] returns it: a dict from keys to
    values.  The documents written from a config hold numbers and
    booleans. *)
Inductive jvalue : Type := JNum (n : nat) | JBool (b : bool).

Definition json : Type := list (string * jvalue).

(** A state dict: parameter names and tensors, in registration order. *)
Definition StateDict : Type := list (pname * obj).

(** The file system: the directories that exist and, for a directory and a
    file name, what was written there. *)
Inductive artifact : Type :=
| Pickle (sd : StateDict)
| Text (doc : json).

Record FileSystem : Type :=
  mkFS { isdir : string -> bool;
         file : string -> string -> option artifact }.

Definition fs_write (fs : FileSystem) (dir name : string) (a : artifact)
    : FileSystem :=
  mkFS (isdir fs)
       (fun d n => if String.eqb d dir && String.eqb n name then Some a
                   else file fs d n).

(** [torch.save(sd, os.path.join(dir, name))] *)
Definition torch_save (sd : StateDict) (dir name : string) (fs : FileSystem)
    : result FileSystem :=
  if isdir fs dir then Ok (fs_write fs dir name (Pickle sd))
  else Raise RuntimeError.

(** [torch.load(os.path.join(dir, name))] *)
Definition torch_load (dir name : string) (fs : FileSystem)
    : result StateDict :=
  match file fs dir name with
  | Some (Pickle sd) => Ok sd
  | Some (Text _) => Raise RuntimeError
  | None => Raise FileNotFoundError
  end.

(** [with open(os.path.join(dir, name), "w") as f: json.dump(doc, f)] *)
Definition json_dump (doc : json) (dir name : string) (fs : FileSystem)
    : result FileSystem :=
  if isdir fs dir then Ok (fs_write fs dir name (Text doc))
  else Raise FileNotFoundError.

(** [with open(os.path.join(dir, name)) as f: json.load(f)] *)
Definition json_load (dir name : string) (fs : FileSystem) : result json :=
  match file fs dir name with
  | Some (Text doc) => Ok doc
  | Some (Pickle _) => Raise ValueError
  | None => Raise FileNotFoundError
  end.

(** [dataclasses.asdict] *)
Definition asdict (c : TransformerConfig) : json :=
  [("vocab_size", JNum (vocab_size c));
   ("n_encoder_layers", JNum (n_encoder_layers c));
   ("n_decoder_layers", JNum (n_decoder_layers c));
   ("n_encoder_heads", JNum (n_encoder_heads c));
   ("n_decoder_heads", JNum (n_decoder_heads c));
   ("embed_size", JNum (cfg_embed_size c));
   ("d_ff", JNum (d_ff c));
   ("max_len", JNum (max_len c));
   ("tie_embeddings", JBool (tie_embeddings c));
   ("post_ln", JBool (post_ln c));
   ("use_additional_dropout", JBool (use_additional_dropout c));
   ("xavier_initialization", JBool (xavier_initialization c))]%string.

Definition fields : list string :=
  ["vocab_size"; "n_encoder_layers"; "n_decoder_layers"; "n_encoder_heads";
   "n_decoder_heads"; "embed_size"; "d_ff"; "max_len"; "tie_embeddings";
   "post_ln"; "use_additional_dropout"; "xavier_initialization"]%string.

Fixpoint get (kwargs : json) (key : string) : option jvalue :=
  match kwargs with
  | [] => None
  | (k, v) :: rest => if String.eqb k key then Some v else get rest key
  end.

(** A field that the model uses as a number, or as a condition.  The
    dataclass stores the value it is given; [True] counts as 1 and a
    number other than 0 as true. *)
Definition int_field (kwargs : json) (key : string) (default : nat) : nat :=
  match get kwargs key with
  | Some (JNum n) => n
  | Some (JBool b) => if b then 1 else 0
  | None => default
  end.

Definition bool_field (kwargs : json) (key : string) (default : bool)
    : bool :=
  match get kwargs key with
  | Some (JNum n) => negb (n =? 0)
  | Some (JBool b) => b
  | None => default
  end.

(** [TransformerConfig] called with the keyword arguments [kwargs]: a key
    that is no field raises, a field without key takes its default. *)
Definition TransformerConfig_kwargs (kwargs : json)
    : result TransformerConfig :=
  if forallb (fun kv => existsb (String.eqb (fst kv)) fields) kwargs
  then Ok (mkConfig
             (int_field kwargs "vocab_size" (vocab_size default_config))
             (int_field kwargs "n_encoder_layers"
                        (n_encoder_layers default_config))
             (int_field kwargs "n_decoder_layers"
                        (n_decoder_layers default_config))
             (int_field kwargs "n_encoder_heads"
                        (n_encoder_heads default_config))
             (int_field kwargs "n_decoder_heads"
                        (n_decoder_heads default_config))
             (int_field kwargs "embed_size" (cfg_embed_size default_config))
             (int_field kwargs "d_ff" (d_ff default_config))
             (int_field kwargs "max_len" (max_len default_config))
             (bool_field kwargs "tie_embeddings"
                         (tie_embeddings default_config))
             (bool_field kwargs "post_ln" (post_ln default_config))
             (bool_field kwargs "use_additional_dropout"
                         (use_additional_dropout default_config))
             (bool_field kwargs "xavier_initialization"
                         (xavier_initialization default_config)))
  else Raise TypeError.

(** [state_dict()]: the current tensor of every registered name. *)
Definition state_dict (self : Transformer) (h : Heap) : StateDict :=
  map (fun n => (n, cell h (slots self n))) (names (config self)).

Fixpoint sd_get (sd : StateDict) (key : pname) : option obj :=
  match sd with
  | [] => None
  | (k, v) :: rest => if pname_eq_dec k key then Some v else sd_get rest key
  end.

(** [dst.copy_(src)] for tensors of one shape: the object keeps its shape
    and takes the elements of [src]. *)
Definition copy_ (dst src : obj) : obj :=
  match dst, src with
  | O1 d, O1 s => O1 (T1 (len1 d) (at1 s))
  | O2 d, O2 s => O2 (T2 (rows d) (cols d) (at2 s))
  | O3 d, O3 s => O3 (T3 (dim0 d) (dim1 d) (dim2 d) (at3 s))
  | _, _ => dst
  end.

(** One parameter of [load_state_dict]: copied in place when the state
    dict has a tensor of its shape under its name; a tensor of another
    shape is recorded as an error. *)
Definition load_param (self : Transformer) (sd : StateDict)
    (acc : Heap * bool) (n : pname) : Heap * bool :=
  let h := fst acc in
  match sd_get sd n with
  | Some input_param =>
      let param := cell h (slots self n) in
      if list_eq_dec Nat.eq_dec (obj_shape input_param) (obj_shape param)
      then (write h (slots self n) (copy_ param input_param), snd acc)
      else (h, true)
  | None => acc
  end.

(** [load_state_dict(state_dict)], strict: missing keys, unexpected keys
    and shape mismatches raise once every parameter has been visited. *)
Definition load_state_dict (self : Transformer) (sd : StateDict) : M unit :=
  fun h =>
    let own := names (config self) in
    let missing_keys :=
      filter (fun n => match sd_get sd n with None => true | _ => false end)
             own in
    let unexpected_keys :=
      filter (fun k => if in_dec pname_eq_dec k own then false else true)
             (map fst sd) in
    let loaded := fold_left (load_param self sd) own (h, false) in
    match missing_keys, unexpected_keys, snd loaded with
    | [], [], false => Ok (tt, fst loaded)
    | _, _, _ => Raise RuntimeError
    end.

Definition save_pretrained (self : Transformer) (save_path : string)
    (h : Heap) (fs : FileSystem) : result FileSystem :=
  fs <- torch_save (state_dict self h) save_path "model.pt" fs ;;
  json_dump (asdict (config self)) save_path "config.json" fs.

Definition from_pretrained (rng : Rng) (pretrained_path : string)
    (fs : FileSystem) : M Transformer :=
  config <-- lift (json_load pretrained_path "config.json" fs) ;;
  config <-- lift (TransformerConfig_kwargs config) ;;
  model <-- Transformer_init config rng ;;
  state_dict <-- lift (torch_load pretrained_path "model.pt" fs) ;;
  load_state_dict model state_dict ;;;
  ret model.

(** Since the heap [h1], the tensor objects bound to the names of [self]
    were updated in place only: they kept their shapes, and no model
    object was freed. *)
Definition updated_in_place (self : Transformer) (h1 h : Heap) : Prop :=
  next_model h1 <= next_model h
  /\ forall n, obj_shape (cell h (slots self n))
               = obj_shape (cell h1 (slots self n)).

(** a file system with the one directory [ckpt], empty *)
Definition ckpt_fs : FileSystem :=
  mkFS (String.eqb "ckpt") (fun _ _ => None).

(** a [(B, H, L, d)] tensor of ones, and a [(B, Lq, Lk)] mask filled with
    [z] *)
Definition ones4 (B H L d : nat) : Tensor4 R :=
  T4 B H L d (fun _ _ _ _ => 1%R).

Definition const_mask (z : Z) (B Lq Lk : nat) : Tensor3 Z :=
  T3 B Lq Lk (fun _ _ _ => z).

(** the small model with Xavier initialisation, and with untied weights *)
Definition xavier_config : TransformerConfig :=
  mkConfig 4 1 1 1 1 2 2 3 true true false true.

Definition untied_config : TransformerConfig :=
  mkConfig 4 1 1 1 1 2 2 3 false true false false.

(** one encoder layer and no head *)
Definition headless_config : TransformerConfig :=
  mkConfig 4 1 1 0 1 2 2 3 true true false false.

(** The positions of sequence [b0] of a batch. *)
Definition in_batch (b0 : nat) : nat -> nat -> Prop := fun b _ => b = b0.

(** two sequences of [L] tokens: the second one all of id [z], the first
    one all of id 0 *)
Definition two_rows (z : Z) (L : nat) : Tensor2 Z :=
  T2 2 L (fun b _ => if b =? 0 then 0%Z else z).

(** a directory [ckpt] with the config of the small model and a weights
    file that holds no tensor *)
Definition broken_fs : FileSystem :=
  mkFS (String.eqb "ckpt")
       (fun _ n => if String.eqb n "config.json"
                   then Some (Text (asdict small_config))
                   else if String.eqb n "model.pt" then Some (Pickle [])
                        else None).

(** * Properties *)

Lemma Int_part_IZR (z : Z) : Int_part (IZR z) = z.
Proof.
  unfold Int_part.
  assert (H : (z + 1)%Z = up (IZR z)).
  { apply tech_up; rewrite plus_IZR; simpl; lra. }
  rewrite <- H. lia.
Qed.

Lemma to_uint8_0 : to_uint8 0 = 0%Z.
Proof.
  unfold to_uint8, trunc. destruct (Rle_dec 0 0) as [_ | n]; [| lra].
  rewrite Int_part_IZR. reflexivity.
Qed.

Lemma to_uint8_1 : to_uint8 1 = 1%Z.
Proof.
  unfold to_uint8, trunc. destruct (Rle_dec 0 1) as [_ | n]; [| lra].
  rewrite Int_part_IZR. reflexivity.
Qed.

Lemma causal_mask_entry (n i j : nat) :
  at2 (create_causal_mask n) i j = if j <=? i then 1%Z else 0%Z.
Proof.
  unfold create_causal_mask, type_uint8, tril, ones, map2; simpl.
  destruct (Nat.leb_spec j i) as [Hle | Hgt].
  - replace (Z.of_nat j - Z.of_nat i <=? 0)%Z with true
      by (symmetry; apply Z.leb_le; lia).
    apply to_uint8_1.
  - replace (Z.of_nat j - Z.of_nat i <=? 0)%Z with false
      by (symmetry; apply Z.leb_gt; lia).
    apply to_uint8_0.
Qed.

Lemma causal_mask_shape (n : nat) :
  rows (create_causal_mask n) = n /\ cols (create_causal_mask n) = n.
Proof. split; reflexivity. Qed.

Lemma causal_mask_4 :
  to_list2 (create_causal_mask 4)
  = [[1; 0; 0; 0]; [1; 1; 0; 0]; [1; 1; 1; 0]; [1; 1; 1; 1]]%Z.
Proof.
  unfold to_list2.
  destruct (causal_mask_shape 4) as [-> ->].
  cbn [map seq].
  rewrite !causal_mask_entry.
  reflexivity.
Qed.

(** C3.  For every [seq_len >= 1], [create_causal_mask seq_len] has shape
    [(seq_len, seq_len)], every entry is 0 or 1, and the entry at [(i, j)]
    is 1 exactly when [j <= i].  For [seq_len = 4] the mask is
    [[1,0,0,0],[1,1,0,0],[1,1,1,0],[1,1,1,1]]: row [i] has [i+1] ones and
    [3-i] zeros. *)
Theorem create_causal_mask_lower_triangular (seq_len : nat)
    (Hpos : 1 <= seq_len) :
  shape2 (create_causal_mask seq_len) = (seq_len, seq_len)
  /\ (forall i j, i < seq_len -> j < seq_len ->
        (at2 (create_causal_mask seq_len) i j = 1%Z
         \/ at2 (create_causal_mask seq_len) i j = 0%Z)
        /\ (at2 (create_causal_mask seq_len) i j = 1%Z <-> j <= i))
  /\ to_list2 (create_causal_mask 4)
     = [[1; 0; 0; 0]; [1; 1; 0; 0]; [1; 1; 1; 0]; [1; 1; 1; 1]]%Z
  /\ (forall i, i < 4 ->
        let row := nth i (to_list2 (create_causal_mask 4)) [] in
        count_occ Z.eq_dec row 1%Z = i + 1
        /\ count_occ Z.eq_dec row 0%Z = 3 - i).
Proof.
  split; [reflexivity |].
  split.
  - intros i j _ _. rewrite causal_mask_entry.
    destruct (Nat.leb_spec j i) as [Hle | Hgt].
    + split; [left; reflexivity | tauto].
    + split; [right; reflexivity |].
      split; [discriminate | lia].
  - split; [apply causal_mask_4 |].
    intros i Hi. rewrite causal_mask_4.
    destruct i as [| [| [| [| i]]]]; [| | | | lia];
      cbv zeta; split; reflexivity.
Qed.

Lemma create_causal_mask_lower_triangular_witness :
  1 <= 4
  /\ shape2 (create_causal_mask 4) = (4, 4)
  /\ at2 (create_causal_mask 4) 2 1 = 1%Z.
Proof.
  assert (H : 1 <= 4) by lia.
  split; [exact H |].
  destruct (create_causal_mask_lower_triangular H) as (Hs & He & _).
  split; [exact Hs |].
  apply (He 2 1); lia.
Defined.

(** ** Broadcasting indices *)

Lemma bidx_lt (dim i : nat) : i < dim -> bidx dim i = i.
Proof.
  intros H. unfold bidx. destruct (Nat.eqb_spec dim 1); [lia | reflexivity].
Qed.

Lemma bdim_same (a : nat) : bdim a a = Ok a.
Proof. unfold bdim. rewrite Nat.eqb_refl. reflexivity. Qed.

Lemma bdim_1_r (a : nat) : bdim a 1 = Ok a.
Proof.
  unfold bdim. destruct (Nat.eqb_spec a 1) as [-> | H]; [reflexivity |].
  reflexivity.
Qed.

Lemma bdim_1_l (a : nat) : bdim 1 a = Ok a.
Proof.
  unfold bdim. destruct (Nat.eqb_spec 1 a) as [<- | H]; reflexivity.
Qed.

Lemma expandable_refl (a : nat) : expandable a a = true.
Proof. unfold expandable. rewrite Nat.eqb_refl. reflexivity. Qed.

Lemma expandable_spec (a b : nat) :
  expandable a b = true <-> a = b \/ a = 1.
Proof.
  unfold expandable. rewrite orb_true_iff, !Nat.eqb_eq. tauto.
Qed.

(** ** [positional_encoding] *)

Lemma slice_len_0_2 (n : nat) : slice_len 0 n 2 = (n + 1) / 2.
Proof. unfold slice_len. rewrite Nat.sub_0_r. reflexivity. Qed.

Lemma slice_len_1_2 (n : nat) : slice_len 1 n 2 = n / 2.
Proof.
  unfold slice_len. destruct n as [| n]; [reflexivity |].
  simpl Nat.sub. rewrite Nat.sub_0_r. f_equal. lia.
Qed.

Lemma half_succ_even (n : nat) : Nat.even n = true -> (n + 1) / 2 = n / 2.
Proof.
  intros H. apply Nat.even_spec in H. destruct H as [k ->].
  rewrite <- (Nat.div_unique (2 * k + 1) 2 k 1) by lia.
  rewrite <- (Nat.div_unique (2 * k) 2 k 0) by lia.
  reflexivity.
Qed.

Lemma half_succ_odd (n : nat) : Nat.even n = false -> (n + 1) / 2 = S (n / 2).
Proof.
  intros H. assert (Ho : Nat.odd n = true).
  { unfold Nat.odd. rewrite H. reflexivity. }
  apply Nat.odd_spec in Ho. destruct Ho as [k ->].
  rewrite <- (Nat.div_unique (2 * k + 1 + 1) 2 (S k) 0) by lia.
  rewrite <- (Nat.div_unique (2 * k + 1) 2 k 1) by lia.
  reflexivity.
Qed.

(** The call succeeds exactly for an even embedding size and for size 1,
    where the cosine block, one column wide, is expanded onto the empty
    slice. *)
Lemma positional_encoding_ok (u : nat -> nat -> R) (L E : nat) :
  is_ok (positional_encoding u L E) = Nat.even E || (E =? 1).
Proof.
  unfold positional_encoding, mul2.
  cbn -[slice_len Nat.div Nat.modulo bdim].
  rewrite bdim_1_r, bdim_1_l.
  unfold setitem_cols.
  cbn -[slice_len Nat.div Nat.modulo expandable].
  rewrite !expandable_refl.
  cbn -[slice_len Nat.div Nat.modulo expandable].
  rewrite slice_len_0_2, slice_len_1_2.
  destruct (Nat.even E) eqn:He.
  - rewrite (half_succ_even _ He), !expandable_refl. reflexivity.
  - rewrite (half_succ_odd _ He), expandable_refl. cbn [orb andb].
    unfold expandable.
    destruct (Nat.eqb_spec (S (E / 2)) (E / 2)) as [Hx | _]; [lia |].
    cbn [orb].
    destruct (Nat.eqb_spec E 1) as [-> | Hne].
    + reflexivity.
    + destruct (Nat.eqb_spec (S (E / 2)) 1) as [Hx | Hx]; [| reflexivity].
      exfalso. assert (E / 2 = 0) by lia.
      apply Nat.div_small_iff in H; [| lia].
      destruct E as [| [| E]]; [discriminate He | lia | lia].
Qed.

Lemma positional_encoding_raises (u : nat -> nat -> R) (L E : nat) :
  Nat.even E = false -> E <> 1 ->
  positional_encoding u L E = Raise RuntimeError.
Proof.
  intros He H1.
  pose proof (positional_encoding_ok u L E) as Hok.
  rewrite He in Hok. destruct (Nat.eqb_spec E 1) as [| _]; [contradiction |].
  revert Hok.
  unfold positional_encoding, mul2.
  cbn -[slice_len Nat.div Nat.modulo bdim].
  rewrite bdim_1_r, bdim_1_l.
  unfold setitem_cols.
  cbn -[slice_len Nat.div Nat.modulo expandable].
  rewrite !expandable_refl.
  cbn -[slice_len Nat.div Nat.modulo expandable].
  rewrite expandable_refl. cbn [andb].
  destruct (expandable _ _); [discriminate | reflexivity].
Qed.

Lemma positional_encoding_even (u : nat -> nat -> R) (L E : nat) :
  Nat.even E = true ->
  exists t,
    positional_encoding u L E = Ok t
    /\ rows t = L /\ cols t = E
    /\ forall pos i, pos < L -> 2 * i < E ->
         let angle :=
           (INR pos * exp (- ln 10000 * INR (2 * i) / INR E))%R in
         at2 t pos (2 * i) = sin angle /\ at2 t pos (2 * i + 1) = cos angle.
Proof.
  intros He.
  unfold positional_encoding, mul2.
  cbn -[slice_len Nat.div Nat.modulo bdim].
  rewrite bdim_1_r, bdim_1_l.
  unfold setitem_cols.
  cbn -[slice_len Nat.div Nat.modulo expandable Nat.leb Nat.sub bidx Nat.mul].
  rewrite !expandable_refl.
  cbn -[slice_len Nat.div Nat.modulo expandable Nat.leb Nat.sub bidx Nat.mul].
  rewrite slice_len_0_2, slice_len_1_2, (half_succ_even _ He),
    !expandable_refl.
  cbn -[slice_len Nat.div Nat.modulo expandable Nat.leb Nat.sub bidx Nat.mul].
  eexists. split; [reflexivity |].
  cbn -[slice_len Nat.div Nat.modulo expandable Nat.leb Nat.sub bidx Nat.mul].
  split; [reflexivity |]. split; [reflexivity |].
  intros pos i Hpos Hi.
  change (i + (i + 0)) with (2 * i) in *.
  assert (Hhalf : i < E / 2).
  { apply Nat.even_spec in He. destruct He as [k ->].
    rewrite (Nat.mul_comm 2 k), Nat.div_mul by lia. lia. }
  rewrite !(bidx_lt Hpos).
  split.
  - replace ((1 <=? 2 * i) && ((2 * i - 1) mod 2 =? 0)) with false.
    2:{ symmetry. apply andb_false_iff.
        destruct i as [| i]; [left; reflexivity | right].
        apply Nat.eqb_neq.
        replace (2 * S i - 1) with (1 + i * 2) by lia.
        rewrite Nat.Div0.mod_add. discriminate. }
    rewrite Nat.sub_0_r, (Nat.mul_comm 2 i), Nat.Div0.mod_mul, Nat.div_mul
      by lia.
    cbn [Nat.eqb]. rewrite !(bidx_lt Hhalf).
    rewrite <- !INR_IZR_INZ. reflexivity.
  - replace (2 * i + 1 - 1) with (i * 2) by lia.
    replace (1 <=? 2 * i + 1) with true by (symmetry; apply Nat.leb_le; lia).
    rewrite Nat.Div0.mod_mul, Nat.div_mul by lia.
    cbn [Nat.eqb andb]. rewrite !(bidx_lt Hhalf).
    rewrite <- !INR_IZR_INZ, (Nat.mul_comm i 2). reflexivity.
Qed.

(** ** Calls that return *)

Lemma returns_Ok {A} (a : A) (P : A -> Prop) : P a -> returns (Ok a) P.
Proof. intros H. exists a. split; [reflexivity | exact H]. Qed.

Lemma returns_bind {A B} (r : result A) (k : A -> result B)
    (P : A -> Prop) (Q : B -> Prop) :
  returns r P -> (forall a, P a -> returns (k a) Q) -> returns (bind r k) Q.
Proof.
  intros (a & -> & Ha) Hk. cbn [bind]. apply Hk, Ha.
Qed.

Lemma returns_weaken {A} (r : result A) (P Q : A -> Prop) :
  returns r P -> (forall a, P a -> Q a) -> returns r Q.
Proof.
  intros (a & -> & Ha) H. exists a. split; [reflexivity | apply H, Ha].
Qed.

Lemma bind_Ok_inv {A B} (r : result A) (k : A -> result B) (b : B) :
  bind r k = Ok b -> exists a, r = Ok a /\ k a = Ok b.
Proof.
  destruct r as [a | e]; cbn [bind]; [| discriminate].
  intros H. exists a. split; [reflexivity | exact H].
Qed.

(** Splits the shape equations among the hypotheses into equations on the
    dimensions. *)
Ltac shapes :=
  repeat match goal with
         | H : shape3 _ = (_, _, _) |- _ =>
             unfold shape3 in H; injection H as ? ? ?
         | H : shape4 _ = (_, _, _, _) |- _ =>
             unfold shape4 in H; injection H as ? ? ? ?
         | H : shape2 _ = (_, _) |- _ =>
             unfold shape2 in H; injection H as ? ?
         end.

(** ** Shapes of the layers *)

Lemma Dropout_forward3_shape (d : Dropout) (md : Mode) (x : Tensor3 R) :
  shape3 (Dropout_forward3 d md x) = shape3 x.
Proof.
  unfold Dropout_forward3. destruct md as [nz |]; [| reflexivity].
  destruct (Qeq_bool (p d) 0); reflexivity.
Qed.

Lemma Dropout_forward4_shape (d : Dropout) (md : Mode) (x : Tensor4 R) :
  shape4 (Dropout_forward4 d md x) = shape4 x.
Proof.
  unfold Dropout_forward4. destruct md as [nz |]; [| reflexivity].
  destruct (Qeq_bool (p d) 0); reflexivity.
Qed.

Lemma Linear_forward_returns (m : Linear) (x : Tensor3 R) (i o : nat) :
  wf_Linear m i o -> dim2 x = i ->
  returns (Linear_forward m x) (fun y => shape3 y = (dim0 x, dim1 x, o)).
Proof.
  intros (Hr & Hc & Hb) Hx. unfold Linear_forward.
  replace (dim2 x =? cols (weight m)) with true
    by (symmetry; apply Nat.eqb_eq; congruence).
  replace (expandable (len1 (bias m)) (rows (weight m))) with true
    by (symmetry; apply expandable_spec; left; congruence).
  apply returns_Ok. unfold shape3; cbn [dim0 dim1 dim2]. congruence.
Qed.

Lemma LayerNorm_forward_returns (m : LayerNorm) (x : Tensor3 R) (E : nat) :
  wf_LayerNorm m E -> dim2 x = E ->
  returns (LayerNorm_forward m x) (fun y => shape3 y = shape3 x).
Proof.
  intros (Hn & Hw & Hb) Hx. unfold LayerNorm_forward.
  rewrite Hx, Hn, Hw, Hb, Nat.eqb_refl. cbn [andb].
  apply returns_Ok. unfold shape3; cbn [dim0 dim1 dim2]. congruence.
Qed.

Lemma add3_returns (x y : Tensor3 R) :
  shape3 y = shape3 x ->
  returns (add3 x y) (fun z => shape3 z = shape3 x).
Proof.
  intros H. unfold shape3 in H. injection H as H0 H1 H2.
  unfold add3. rewrite H0, H1, H2, !bdim_same. cbn [bind].
  apply returns_Ok. reflexivity.
Qed.

Lemma view_3_4_returns {A} (x : Tensor3 A) (a b c d : nat) :
  dim0 x * dim1 x * dim2 x = a * b * c * d ->
  returns (view_3_4 x a b c d) (fun y => shape4 y = (a, b, c, d)).
Proof.
  intros H. unfold view_3_4. rewrite H, Nat.eqb_refl.
  apply returns_Ok. reflexivity.
Qed.

Lemma view_4_3_returns {A} (x : Tensor4 A) (a b c : nat) :
  s0 x * s1 x * s2 x * s3 x = a * b * c ->
  returns (view_4_3 x a b c) (fun y => shape3 y = (a, b, c)).
Proof.
  intros H. unfold view_4_3. rewrite H, Nat.eqb_refl.
  apply returns_Ok. reflexivity.
Qed.

Lemma matmul4_returns (x y : Tensor4 R) :
  s3 x = s2 y -> s0 y = s0 x -> s1 y = s1 x ->
  returns (matmul4 x y) (fun z => shape4 z = (s0 x, s1 x, s2 x, s3 y)).
Proof.
  intros H3 H0 H1. unfold matmul4.
  rewrite H3, Nat.eqb_refl, H0, H1, !bdim_same. cbn [bind].
  apply returns_Ok. reflexivity.
Qed.

Lemma masked_fill_returns (x : Tensor4 R) (mask : Tensor4 Z) :
  expandable (s0 mask) (s0 x) = true -> expandable (s1 mask) (s1 x) = true ->
  expandable (s2 mask) (s2 x) = true -> expandable (s3 mask) (s3 x) = true ->
  returns (masked_fill_neg_inf x mask) (fun y => shape4 y = shape4 x).
Proof.
  intros H0 H1 H2 H3. unfold masked_fill_neg_inf.
  rewrite H0, H1, H2, H3. cbn [andb].
  apply returns_Ok. reflexivity.
Qed.

Lemma ScaledDotProductAttention_forward_returns
    (self : ScaledDotProductAttention) (md : Mode) (q k v : Tensor4 R)
    (mask : option (Tensor3 Z)) (B H Lq Lk d : nat) :
  shape4 q = (B, H, Lq, d) -> shape4 k = (B, H, Lk, d) ->
  shape4 v = (B, H, Lk, d) -> mask_fits mask B Lq Lk ->
  returns (ScaledDotProductAttention_forward self md q k v mask)
          (fun y => shape4 y = (B, H, Lq, d)).
Proof.
  intros Hq Hk Hv Hm. shapes.
  unfold ScaledDotProductAttention_forward.
  eapply returns_bind.
  { apply matmul4_returns; cbn [transpose_last s0 s1 s2 s3]; congruence. }
  cbn [transpose_last s0 s1 s2 s3]. intros qk Hqk. shapes.
  eapply returns_bind with (P := fun y => shape4 y = (B, H, Lq, Lk)).
  { destruct mask as [m |].
    - destruct Hm as (M0 & M1 & M2).
      eapply returns_weaken.
      + apply masked_fill_returns;
          cbn [map4 unsqueeze4_1 s0 s1 s2 s3]; try congruence.
        apply expandable_spec. right. reflexivity.
      + cbn beta. intros a ->. unfold shape4; cbn [map4 s0 s1 s2 s3].
        congruence.
    - apply returns_Ok. unfold shape4; cbn [map4 s0 s1 s2 s3]. congruence. }
  cbn beta. intros w Hw. shapes.
  pose proof (Dropout_forward4_shape (sdpa_dropout self) md (softmax w)) as Hd.
  unfold shape4 in Hd; cbn [softmax s0 s1 s2 s3] in Hd.
  injection Hd as D0 D1 D2 D3.
  eapply returns_weaken.
  - apply matmul4_returns; congruence.
  - cbn beta. intros a ->. congruence.
Qed.

Lemma MultiHeadAttention_forward_returns (self : MultiHeadAttention)
    (md : Mode) (q k v : Tensor3 R) (mask : option (Tensor3 Z))
    (B Lq Lk E : nat) :
  wf_MultiHeadAttention self E ->
  shape3 q = (B, Lq, E) -> shape3 k = (B, Lk, E) -> shape3 v = (B, Lk, E) ->
  mask_fits mask B Lq Lk ->
  returns (MultiHeadAttention_forward self md q k v mask)
          (fun y => shape3 y = (B, Lq, E)).
Proof.
  intros (HE & HH & Wq & Wk & Wv & Wp) Hq Hk Hv Hm. shapes.
  unfold MultiHeadAttention_forward.
  eapply returns_bind; [apply (Linear_forward_returns q Wq); congruence |].
  cbn beta. intros q1 Hq1.
  eapply returns_bind; [apply (Linear_forward_returns k Wk); congruence |].
  cbn beta. intros k1 Hk1.
  eapply returns_bind; [apply (Linear_forward_returns v Wv); congruence |].
  cbn beta. intros v1 Hv1. shapes.
  eapply returns_bind.
  { apply view_3_4_returns. rewrite <- HH in *. nia. }
  cbn beta. intros q2 Hq2.
  eapply returns_bind.
  { apply view_3_4_returns. rewrite <- HH in *. nia. }
  cbn beta. intros k2 Hk2.
  eapply returns_bind.
  { apply view_3_4_returns. rewrite <- HH in *. nia. }
  cbn beta. intros v2 Hv2. shapes.
  eapply returns_bind.
  { apply (@ScaledDotProductAttention_forward_returns (sdpa self) md
             (transpose_1_2 q2) (transpose_1_2 k2) (transpose_1_2 v2) mask
             B (n_heads self) Lq Lk (head_dim self));
      unfold shape4; cbn [transpose_1_2 s0 s1 s2 s3]; congruence. }
  cbn beta. intros a Ha. shapes.
  eapply returns_bind.
  { apply view_4_3_returns.
    cbn [contiguous transpose_1_2 s0 s1 s2 s3]. rewrite <- HH in *. nia. }
  cbn beta. intros a2 Ha2. shapes.
  eapply returns_weaken;
    [apply (Linear_forward_returns a2 Wp); congruence |].
  cbn beta. intros y ->. cbn [transpose_1_2 s2] in *. congruence.
Qed.

Lemma FeedForward_forward_returns (self : FeedForward) (md : Mode)
    (x : Tensor3 R) (E F : nat) :
  wf_FeedForward self E F -> dim2 x = E ->
  returns (FeedForward_forward self md x) (fun y => shape3 y = shape3 x).
Proof.
  intros (W0 & W3) Hx. unfold FeedForward_forward.
  eapply returns_bind; [apply (Linear_forward_returns x W0 Hx) |].
  cbn beta. intros x1 H1.
  pose proof (Dropout_forward3_shape (ff_2 self) md (ReLU_forward x1)) as Hd.
  unfold shape3 in Hd, H1; cbn [ReLU_forward map3 dim0 dim1 dim2] in Hd.
  injection Hd as D0 D1 D2. injection H1 as ? ? ?.
  eapply returns_weaken; [apply (Linear_forward_returns _ W3); congruence |].
  cbn beta. intros y ->. unfold shape3. congruence.
Qed.

(** A residual connection: the sub-layer output, after dropout, is added
    to the sub-layer input. *)
Lemma residual_returns (d : Dropout) (md : Mode) (x a : Tensor3 R) :
  shape3 a = shape3 x ->
  returns (add3 x (Dropout_forward3 d md a)) (fun z => shape3 z = shape3 x).
Proof.
  intros H. apply add3_returns. rewrite Dropout_forward3_shape. exact H.
Qed.

Lemma EncoderLayer_forward_returns (self : EncoderLayer) (md : Mode)
    (x : Tensor3 R) (mask : option (Tensor3 Z)) (B L E F : nat) :
  wf_EncoderLayer E F self -> shape3 x = (B, L, E) -> mask_fits mask B L L ->
  returns (EncoderLayer_forward self md x mask)
          (fun y => shape3 y = (B, L, E)).
Proof.
  intros (Wff & Wmha & W1 & W2) Hx Hm.
  assert (Hd : dim2 x = E) by (shapes; assumption).
  unfold EncoderLayer_forward. destruct (enc_post_ln self).
  - eapply returns_bind.
    { eapply MultiHeadAttention_forward_returns; eassumption. }
    cbn beta. intros a Ha.
    eapply returns_bind; [apply residual_returns; congruence |].
    cbn beta. intros s Hs. rewrite Hx in Hs.
    eapply returns_bind.
    { eapply LayerNorm_forward_returns; [eassumption |]. shapes. assumption. }
    cbn beta. intros att Hatt. rewrite Hs in Hatt.
    eapply returns_bind.
    { eapply FeedForward_forward_returns; [eassumption |]. shapes.
      assumption. }
    cbn beta. intros f Hf.
    eapply returns_bind; [apply residual_returns; congruence |].
    cbn beta. intros s2 Hs2. rewrite Hatt in Hs2.
    eapply returns_weaken.
    { eapply LayerNorm_forward_returns; [eassumption |]. shapes. assumption. }
    cbn beta. intros y ->. exact Hs2.
  - eapply returns_bind.
    { eapply LayerNorm_forward_returns; eassumption. }
    cbn beta. intros x_ln Hln. rewrite Hx in Hln.
    eapply returns_bind.
    { eapply MultiHeadAttention_forward_returns; eassumption. }
    cbn beta. intros a Ha.
    eapply returns_bind; [apply residual_returns; congruence |].
    cbn beta. intros att Hatt. rewrite Hx in Hatt.
    eapply returns_bind.
    { eapply LayerNorm_forward_returns; [eassumption |]. shapes. assumption. }
    cbn beta. intros att_ln Hatt_ln. rewrite Hatt in Hatt_ln.
    eapply returns_bind.
    { eapply FeedForward_forward_returns; [eassumption |]. shapes.
      assumption. }
    cbn beta. intros f Hf.
    eapply returns_weaken; [apply residual_returns; congruence |].
    cbn beta. intros y ->. exact Hatt.
Qed.

Lemma encoder_loop_returns (layers : list EncoderLayer) (i : nat) (md : Mode)
    (x : Tensor3 R) (mask : option (Tensor3 Z)) (B L E F : nat) :
  Forall (wf_EncoderLayer E F) layers ->
  shape3 x = (B, L, E) -> mask_fits mask B L L ->
  returns (encoder_loop layers i md x mask) (fun y => shape3 y = (B, L, E)).
Proof.
  intros Hwf. revert i x.
  induction Hwf as [| l rest Hl _ IH]; intros i x Hx Hm; cbn [encoder_loop].
  - apply returns_Ok. exact Hx.
  - eapply returns_bind.
    + eapply EncoderLayer_forward_returns; eassumption.
    + cbn beta. intros y Hy. apply IH; assumption.
Qed.

Lemma final_ln_returns (m : option LayerNorm) (x : Tensor3 R) (E : nat) :
  wf_final_ln E m -> dim2 x = E ->
  returns match m with
          | Some final_ln => LayerNorm_forward final_ln x
          | None => Ok x
          end
          (fun y => shape3 y = shape3 x).
Proof.
  intros Hw Hx. destruct m as [l |].
  - eapply LayerNorm_forward_returns; eassumption.
  - apply returns_Ok. reflexivity.
Qed.

Lemma Encoder_forward_returns (self : Encoder) (md : Mode) (x : Tensor3 R)
    (mask : option (Tensor3 Z)) (B L E F : nat) :
  wf_Encoder E F self -> shape3 x = (B, L, E) -> mask_fits mask B L L ->
  returns (Encoder_forward self md x mask) (fun y => shape3 y = (B, L, E)).
Proof.
  intros (Hl & Hf) Hx Hm. unfold Encoder_forward.
  eapply returns_bind; [eapply encoder_loop_returns; eassumption |].
  cbn beta. intros y Hy.
  eapply returns_weaken.
  - eapply final_ln_returns; [eassumption |]. shapes. assumption.
  - cbn beta. intros z ->. exact Hy.
Qed.

Lemma causal_mask_fits (B Lt : nat) :
  mask_fits (Some (unsqueeze3_0 (create_causal_mask Lt))) B Lt Lt.
Proof.
  cbn [mask_fits unsqueeze3_0 dim0 dim1 dim2].
  destruct (causal_mask_shape Lt) as [-> ->].
  rewrite expandable_refl. repeat split.
  apply expandable_spec. right. reflexivity.
Qed.

Lemma DecoderLayer_forward_returns (self : DecoderLayer) (md : Mode)
    (x memory : Tensor3 R) (causal_mask : Tensor3 Z)
    (encoder_mask : option (Tensor3 Z)) (B Lt Ls E F : nat) :
  wf_DecoderLayer E F self ->
  shape3 x = (B, Lt, E) -> shape3 memory = (B, Ls, E) ->
  mask_fits (Some causal_mask) B Lt Lt -> mask_fits encoder_mask B Lt Ls ->
  returns (DecoderLayer_forward self md x memory causal_mask encoder_mask)
          (fun y => shape3 y = (B, Lt, E)).
Proof.
  intros (Wff & Wmha & Wmmha & W1 & W2 & W3) Hx Hmem Hc Hm.
  assert (Hd : dim2 x = E) by (shapes; assumption).
  unfold DecoderLayer_forward. destruct (dec_post_ln self).
  - eapply returns_bind.
    { eapply MultiHeadAttention_forward_returns; eassumption. }
    cbn beta. intros a Ha.
    eapply returns_bind; [apply residual_returns; congruence |].
    cbn beta. intros s Hs. rewrite Hx in Hs.
    eapply returns_bind.
    { eapply LayerNorm_forward_returns; [eassumption |]. shapes. assumption. }
    cbn beta. intros att Hatt. rewrite Hs in Hatt.
    eapply returns_bind.
    { eapply MultiHeadAttention_forward_returns; eassumption. }
    cbn beta. intros a2 Ha2.
    eapply returns_bind; [apply residual_returns; congruence |].
    cbn beta. intros s2 Hs2. rewrite Hatt in Hs2.
    eapply returns_bind.
    { eapply LayerNorm_forward_returns; [eassumption |]. shapes. assumption. }
    cbn beta. intros att2 Hatt2. rewrite Hs2 in Hatt2.
    eapply returns_bind.
    { eapply FeedForward_forward_returns; [eassumption |]. shapes.
      assumption. }
    cbn beta. intros f Hf.
    eapply returns_bind; [apply residual_returns; congruence |].
    cbn beta. intros s3 Hs3. rewrite Hatt2 in Hs3.
    eapply returns_weaken.
    { eapply LayerNorm_forward_returns; [eassumption |]. shapes. assumption. }
    cbn beta. intros y ->. exact Hs3.
  - eapply returns_bind.
    { eapply LayerNorm_forward_returns; eassumption. }
    cbn beta. intros x_ln Hln. rewrite Hx in Hln.
    eapply returns_bind.
    { eapply MultiHeadAttention_forward_returns; eassumption. }
    cbn beta. intros a Ha.
    eapply returns_bind; [apply residual_returns; congruence |].
    cbn beta. intros att Hatt. rewrite Hx in Hatt.
    eapply returns_bind.
    { eapply LayerNorm_forward_returns; [eassumption |]. shapes. assumption. }
    cbn beta. intros att_ln Hatt_ln. rewrite Hatt in Hatt_ln.
    eapply returns_bind.
    { eapply MultiHeadAttention_forward_returns; eassumption. }
    cbn beta. intros a2 Ha2.
    eapply returns_bind; [apply residual_returns; congruence |].
    cbn beta. intros att2 Hatt2. rewrite Hatt in Hatt2.
    eapply returns_bind.
    { eapply LayerNorm_forward_returns; [eassumption |]. shapes. assumption. }
    cbn beta. intros att2_ln Hatt2_ln. rewrite Hatt2 in Hatt2_ln.
    eapply returns_bind.
    { eapply FeedForward_forward_returns; [eassumption |]. shapes.
      assumption. }
    cbn beta. intros f Hf.
    eapply returns_weaken; [apply residual_returns; congruence |].
    cbn beta. intros y ->. exact Hatt2.
Qed.

Lemma decoder_loop_returns (layers : list DecoderLayer) (i : nat) (md : Mode)
    (x memory : Tensor3 R) (tgt_mask : Tensor3 Z)
    (encoder_mask : option (Tensor3 Z)) (B Lt Ls E F : nat) :
  Forall (wf_DecoderLayer E F) layers ->
  shape3 x = (B, Lt, E) -> shape3 memory = (B, Ls, E) ->
  mask_fits (Some tgt_mask) B Lt Lt -> mask_fits encoder_mask B Lt Ls ->
  returns (decoder_loop layers i md x memory tgt_mask encoder_mask)
          (fun y => shape3 y = (B, Lt, E)).
Proof.
  intros Hwf. revert i x.
  induction Hwf as [| l rest Hl _ IH]; intros i x Hx Hmem Hc Hm;
    cbn [decoder_loop].
  - apply returns_Ok. exact Hx.
  - eapply returns_bind.
    + eapply DecoderLayer_forward_returns; eassumption.
    + cbn beta. intros y Hy. apply IH; assumption.
Qed.

Lemma Decoder_forward_returns (self : Decoder) (md : Mode)
    (x memory : Tensor3 R) (encoder_mask : option (Tensor3 Z))
    (B Lt Ls E F : nat) :
  wf_Decoder E F self ->
  shape3 x = (B, Lt, E) -> shape3 memory = (B, Ls, E) ->
  mask_fits encoder_mask B Lt Ls ->
  returns (Decoder_forward self md x memory encoder_mask)
          (fun y => shape3 y = (B, Lt, E)).
Proof.
  intros (Hl & Hf) Hx Hmem Hm. unfold Decoder_forward.
  assert (HLt : dim1 x = Lt) by (shapes; assumption).
  eapply returns_bind.
  { eapply decoder_loop_returns; try eassumption.
    rewrite HLt. apply causal_mask_fits. }
  cbn beta. intros y Hy.
  eapply returns_weaken.
  - eapply final_ln_returns; [eassumption |]. shapes. assumption.
  - cbn beta. intros z ->. exact Hy.
Qed.

(** ** Reading the modules back from the heap *)

Lemma Linear_read_ext (rd rd' : wb -> obj) (m : Linear) :
  (forall p, rd p = rd' p) -> Linear_read rd m = Linear_read rd' m.
Proof. intros H. unfold Linear_read. rewrite !H. reflexivity. Qed.

Lemma LayerNorm_read_ext (rd rd' : wb -> obj) (m : LayerNorm) :
  (forall p, rd p = rd' p) -> LayerNorm_read rd m = LayerNorm_read rd' m.
Proof. intros H. unfold LayerNorm_read. rewrite !H. reflexivity. Qed.

Lemma MultiHeadAttention_read_ext (rd rd' : mha_slot -> wb -> obj)
    (m : MultiHeadAttention) :
  (forall s p, rd s p = rd' s p) ->
  MultiHeadAttention_read rd m = MultiHeadAttention_read rd' m.
Proof.
  intros H. unfold MultiHeadAttention_read.
  rewrite (Linear_read_ext _ _ (q_weights m) (H SQ)),
    (Linear_read_ext _ _ (k_weights m) (H SK)),
    (Linear_read_ext _ _ (v_weights m) (H SV)),
    (Linear_read_ext _ _ (proj m) (H SProj)).
  reflexivity.
Qed.

Lemma FeedForward_read_ext (rd rd' : ff_slot -> wb -> obj) (m : FeedForward) :
  (forall s p, rd s p = rd' s p) ->
  FeedForward_read rd m = FeedForward_read rd' m.
Proof.
  intros H. unfold FeedForward_read.
  rewrite (Linear_read_ext _ _ (ff_0 m) (H FF0)),
    (Linear_read_ext _ _ (ff_3 m) (H FF3)).
  reflexivity.
Qed.

Lemma EncoderLayer_read_ext (rd rd' : enc_slot -> wb -> obj)
    (m : EncoderLayer) :
  (forall s p, rd s p = rd' s p) ->
  EncoderLayer_read rd m = EncoderLayer_read rd' m.
Proof.
  intros H. unfold EncoderLayer_read.
  rewrite (@FeedForward_read_ext (fun s => rd (EncFF s))
             (fun s => rd' (EncFF s)) (enc_ff m) (fun s p => H (EncFF s) p)),
    (@MultiHeadAttention_read_ext (fun s => rd (EncMha s))
       (fun s => rd' (EncMha s)) (enc_mha m) (fun s p => H (EncMha s) p)),
    (LayerNorm_read_ext _ _ (enc_ln1 m) (H EncLn1)),
    (LayerNorm_read_ext _ _ (enc_ln2 m) (H EncLn2)).
  reflexivity.
Qed.

Lemma DecoderLayer_read_ext (rd rd' : dec_slot -> wb -> obj)
    (m : DecoderLayer) :
  (forall s p, rd s p = rd' s p) ->
  DecoderLayer_read rd m = DecoderLayer_read rd' m.
Proof.
  intros H. unfold DecoderLayer_read.
  rewrite (@FeedForward_read_ext (fun s => rd (DecFF s))
             (fun s => rd' (DecFF s)) (dec_ff m) (fun s p => H (DecFF s) p)),
    (@MultiHeadAttention_read_ext (fun s => rd (DecMha s))
       (fun s => rd' (DecMha s)) (dec_mha m) (fun s p => H (DecMha s) p)),
    (@MultiHeadAttention_read_ext (fun s => rd (DecMmha s))
       (fun s => rd' (DecMmha s)) (dec_mmha m) (fun s p => H (DecMmha s) p)),
    (LayerNorm_read_ext _ _ (dec_ln1 m) (H DecLn1)),
    (LayerNorm_read_ext _ _ (dec_ln2 m) (H DecLn2)),
    (LayerNorm_read_ext _ _ (dec_ln3 m) (H DecLn3)).
  reflexivity.
Qed.

Lemma read_layers_ext {L K : Type} (read1 : (K -> wb -> obj) -> L -> L)
    (rd rd' : nat -> K -> wb -> obj) (layers : list L) :
  (forall r r' l, (forall s p, r s p = r' s p) -> read1 r l = read1 r' l) ->
  forall i,
    (forall j s p, i <= j < i + length layers -> rd j s p = rd' j s p) ->
    read_layers read1 rd i layers = read_layers read1 rd' i layers.
Proof.
  intros Hext. induction layers as [| l rest IH]; intros i H;
    cbn [read_layers]; [reflexivity |].
  cbn [length] in H. f_equal.
  - apply Hext. intros s p. apply H. lia.
  - apply IH. intros j s p Hj. apply H. lia.
Qed.

Lemma Modules_read_ext (rd rd' : pname -> obj) (m : Modules) :
  (forall n, rd n = rd' n) -> Modules_read rd m = Modules_read rd' m.
Proof.
  intros H. unfold Modules_read.
  rewrite (@read_layers_ext _ _ EncoderLayer_read
             (fun i s p => rd (PEncoderLayer i s p))
             (fun i s p => rd' (PEncoderLayer i s p))
             (encoder_layers (encoder m)) EncoderLayer_read_ext 0)
    by (intros; apply H).
  rewrite (@read_layers_ext _ _ DecoderLayer_read
             (fun i s p => rd (PDecoderLayer i s p))
             (fun i s p => rd' (PDecoderLayer i s p))
             (decoder_layers (decoder m)) DecoderLayer_read_ext 0)
    by (intros; apply H).
  rewrite (Linear_read_ext (fun p => rd (fc_name p)) (fun p => rd' (fc_name p))
             (fc m)) by (intros; apply H).
  rewrite (H PEmbeddingsWeight).
  f_equal; f_equal.
  - destruct (enc_final_ln (encoder m)); [| reflexivity]. cbn [option_map].
    f_equal. apply LayerNorm_read_ext. intros; apply H.
  - destruct (dec_final_ln (decoder m)); [| reflexivity]. cbn [option_map].
    f_equal. apply LayerNorm_read_ext. intros; apply H.
Qed.

Lemma same_parameters_refl (h : Heap) : same_parameters h h.
Proof. split; reflexivity. Qed.

Lemma same_parameters_trans (h1 h2 h3 : Heap) :
  same_parameters h1 h2 -> same_parameters h2 h3 -> same_parameters h1 h3.
Proof.
  intros (N1 & C1) (N2 & C2). split; [congruence |].
  intros m n. rewrite C2. apply C1.
Qed.

Lemma current_modules_same (self : Transformer) (h h' : Heap) :
  (forall n k, slots self n <> LTmp k) -> same_parameters h h' ->
  current_modules self h' = current_modules self h.
Proof.
  intros Hs (_ & Hc). unfold current_modules. apply Modules_read_ext.
  intros n. destruct (slots self n) as [m n' | k] eqn:E.
  - apply Hc.
  - exfalso. exact (Hs n k E).
Qed.

(** ** Heap computations *)

Lemma cell_write_same (h : Heap) (l : loc) (o : obj) :
  cell (write h l o) l = o.
Proof.
  unfold write; cbn [cell]. destruct (loc_eq_dec l l); [reflexivity |].
  contradiction.
Qed.

Lemma cell_write_other (h : Heap) (l l' : loc) (o : obj) :
  l <> l' -> cell (write h l o) l' = cell h l'.
Proof.
  intros H. unfold write; cbn [cell].
  destruct (loc_eq_dec l l'); [contradiction | reflexivity].
Qed.

Lemma cell_alloc_tmp_same (h : Heap) (o : obj) :
  cell (snd (alloc_tmp h o)) (fst (alloc_tmp h o)) = o.
Proof.
  unfold alloc_tmp; cbn [fst snd cell].
  destruct (loc_eq_dec (LTmp (next_tmp h)) (LTmp (next_tmp h)));
    [reflexivity | contradiction].
Qed.

Lemma same_parameters_alloc_tmp (h : Heap) (o : obj) :
  same_parameters h (snd (alloc_tmp h o)).
Proof.
  split; [reflexivity |]. intros m n. unfold alloc_tmp; cbn [snd cell].
  destruct (loc_eq_dec (LTmp (next_tmp h)) (LParam m n));
    [discriminate | reflexivity].
Qed.

Lemma same_parameters_write_tmp (h : Heap) (k : nat) (o : obj) :
  same_parameters h (write h (LTmp k) o).
Proof.
  split; [reflexivity |]. intros m n.
  apply cell_write_other. discriminate.
Qed.

Lemma computes_bind {A B} (m : M A) (k : A -> M B) (h : Heap)
    (r : result A) (kr : A -> result B) :
  computes m h r ->
  (forall a h', same_parameters h h' -> computes (k a) h' (kr a)) ->
  computes (mbind m k) h (bind r kr).
Proof.
  intros Hm Hk. destruct r as [a | e]; cbn [computes bind] in *.
  - destruct Hm as (h' & Em & Hs). specialize (Hk a h' Hs).
    destruct (kr a) as [b | e]; cbn [computes] in *.
    + destruct Hk as (h'' & Ek & Hs'). exists h''.
      unfold mbind. rewrite Em. split; [exact Ek |].
      eapply same_parameters_trans; eassumption.
    + unfold mbind. rewrite Em. exact Hk.
  - unfold mbind. rewrite Hm. reflexivity.
Qed.

Lemma computes_lift {A} (r : result A) (h : Heap) : computes (lift r) h r.
Proof.
  destruct r as [a | e]; cbn [computes lift]; [| reflexivity].
  exists h. split; [reflexivity | apply same_parameters_refl].
Qed.

Lemma computes_ret {A} (a : A) (h : Heap) : computes (ret a) h (Ok a).
Proof.
  exists h. split; [reflexivity | apply same_parameters_refl].
Qed.

(** The embedding of token ids, scaled, with the positional rows added. *)
Lemma embed_computes (self : Transformer) (ids : Tensor2 Z) (h : Heap) :
  computes
    (embed <-- scaled_embedding self ids ;;
     iadd embed (slice_rows (pos_enc self) (cols ids)) ;;;
     deref embed)
    h (embed_value self (current_modules self h) ids).
Proof.
  unfold computes, embed_value, scaled_embedding, Embedding_forward, mbind.
  cbn [current_modules Modules_read embeddings emb_weight].
  destruct (embedding (as2 (cell h (slots self PEmbeddingsWeight))) ids)
    as [t | e]; cbn [bind]; [| reflexivity].
  unfold imul, ret, iadd, deref. cbn [alloc_tmp].
  rewrite cell_write_same.
  match goal with
  | |- context [as3 (cell ?hh (LTmp ?k))] =>
      replace (cell hh (LTmp k)) with (O3 t)
        by (symmetry; apply (cell_alloc_tmp_same h (O3 t)))
  end.
  cbn [as3].
  destruct (iadd3_2 (imul3 t (sqrt_dmodel self))
              (slice_rows (pos_enc self) (cols ids))) as [x | e];
    cbn [bind]; [| reflexivity].
  eexists. split.
  - rewrite cell_write_same. reflexivity.
  - eapply same_parameters_trans; [| apply same_parameters_write_tmp].
    eapply same_parameters_trans; [| apply same_parameters_write_tmp].
    apply (same_parameters_alloc_tmp h (O3 t)).
Qed.

Lemma encode_computes (self : Transformer) (noise : Noise) (src : Tensor2 Z)
    (src_mask : option (Tensor2 Z)) (h : Heap) :
  (forall n k, slots self n <> LTmp k) ->
  computes (encode self noise src src_mask) h
           (encode_value self (current_modules self h) (mode_of self noise)
                         src src_mask).
Proof.
  intros Hs.
  set (K := fun x : Tensor3 R =>
    mods <-- get_modules self ;;
    memory <-- lift (Encoder_forward (encoder mods)
                       (sub 1 (mode_of self noise))
                       (Dropout_forward3 (dropout self)
                          (sub 0 (mode_of self noise)) x)
                       (option_map newaxis_1 src_mask)) ;;
    ret (memory, option_map newaxis_1 src_mask)).
  assert (E : encode self noise src src_mask h
              = mbind (embed <-- scaled_embedding self src ;;
                       iadd embed (slice_rows (pos_enc self) (cols src)) ;;;
                       deref embed) K h).
  { unfold encode, K, mbind. cbv zeta.
    destruct (scaled_embedding self src h) as [[l h1] | e]; [| reflexivity].
    destruct (iadd l _ h1) as [[u h2] | e]; reflexivity. }
  assert (C : computes (mbind (embed <-- scaled_embedding self src ;;
                       iadd embed (slice_rows (pos_enc self) (cols src)) ;;;
                       deref embed) K) h
                (encode_value self (current_modules self h)
                   (mode_of self noise) src src_mask)).
  { unfold encode_value. apply computes_bind; [apply embed_computes |].
    intros x h' Hh'. unfold computes, K, get_modules, mbind, lift, ret.
    rewrite (current_modules_same self Hs Hh').
    destruct (Encoder_forward _ _ _ _) as [memory | e]; cbn [bind];
      [| reflexivity].
    exists h'. split; [reflexivity | apply same_parameters_refl]. }
  unfold computes in *. rewrite E. exact C.
Qed.

Lemma decode_computes (self : Transformer) (noise : Noise)
    (memory : Tensor3 R) (tgt : Tensor2 Z) (src_mask : option (Tensor3 Z))
    (h : Heap) :
  (forall n k, slots self n <> LTmp k) ->
  computes (decode self noise memory tgt src_mask) h
           (decode_value self (current_modules self h) (mode_of self noise)
                         memory tgt src_mask).
Proof.
  intros Hs.
  set (K := fun x : Tensor3 R =>
    mods <-- get_modules self ;;
    attention <-- lift (Decoder_forward (decoder mods)
                          (sub 3 (mode_of self noise))
                          (Dropout_forward3 (dropout self)
                             (sub 2 (mode_of self noise)) x)
                          memory src_mask) ;;
    lift (Linear_forward (fc mods) attention)).
  assert (E : decode self noise memory tgt src_mask h
              = mbind (embed <-- scaled_embedding self tgt ;;
                       iadd embed (slice_rows (pos_enc self) (cols tgt)) ;;;
                       deref embed) K h).
  { unfold decode, K, mbind. cbv zeta.
    destruct (scaled_embedding self tgt h) as [[l h1] | e]; [| reflexivity].
    destruct (iadd l _ h1) as [[u h2] | e]; reflexivity. }
  assert (C : computes (mbind (embed <-- scaled_embedding self tgt ;;
                       iadd embed (slice_rows (pos_enc self) (cols tgt)) ;;;
                       deref embed) K) h
                (decode_value self (current_modules self h)
                   (mode_of self noise) memory tgt src_mask)).
  { unfold decode_value. apply computes_bind; [apply embed_computes |].
    intros x h' Hh'. unfold computes, K, get_modules, mbind, lift.
    rewrite (current_modules_same self Hs Hh').
    destruct (Decoder_forward _ _ _ _ _) as [attention | e]; cbn [bind];
      [| reflexivity].
    destruct (Linear_forward _ _) as [y | e]; [| reflexivity].
    exists h'. split; [reflexivity | apply same_parameters_refl]. }
  unfold computes in *. rewrite E. exact C.
Qed.

Lemma forward_computes (self : Transformer) (noise : Noise)
    (src tgt : Tensor2 Z) (src_mask : option (Tensor2 Z)) (h : Heap) :
  (forall n k, slots self n <> LTmp k) ->
  computes (forward self noise src tgt src_mask) h
           (forward_value self (current_modules self h) (mode_of self noise)
                          src tgt src_mask).
Proof.
  intros Hs. unfold forward, forward_value.
  apply computes_bind; [apply encode_computes, Hs |].
  intros [memory mask] h' Hh'. cbn [fst snd].
  rewrite <- (current_modules_same self Hs Hh').
  apply decode_computes, Hs.
Qed.

(** ** Shapes of [encode], [decode] and [forward] *)

Lemma ids_in_range_valid (V : nat) (ids : Tensor2 Z) :
  ids_in_range V ids = true <-> valid_ids V ids.
Proof.
  unfold ids_in_range, valid_ids. rewrite forallb_forall. split.
  - intros H b l Hb Hl.
    assert (Hb' : In b (seq 0 (rows ids))) by (apply in_seq; lia).
    specialize (H b Hb'). rewrite forallb_forall in H.
    assert (Hl' : In l (seq 0 (cols ids))) by (apply in_seq; lia).
    specialize (H l Hl'). apply andb_true_iff in H. destruct H as [H1 H2].
    apply Z.leb_le in H1. apply Z.ltb_lt in H2. lia.
  - intros H b Hb. apply in_seq in Hb. rewrite forallb_forall.
    intros l Hl. apply in_seq in Hl.
    destruct (H b l) as [H1 H2]; [lia | lia |].
    apply andb_true_iff. split; [apply Z.leb_le | apply Z.ltb_lt]; lia.
Qed.

Lemma embedding_returns (w : Tensor2 R) (ids : Tensor2 Z) :
  valid_ids (rows w) ids ->
  returns (embedding w ids)
          (fun t => shape3 t = (rows ids, cols ids, cols w)).
Proof.
  intros H. apply ids_in_range_valid in H. unfold embedding. rewrite H.
  apply returns_Ok. reflexivity.
Qed.

Lemma iadd3_2_returns (x : Tensor3 R) (y : Tensor2 R) :
  expandable (rows y) (dim1 x) = true -> expandable (cols y) (dim2 x) = true ->
  returns (iadd3_2 x y) (fun z => shape3 z = shape3 x).
Proof.
  intros H1 H2. unfold iadd3_2. rewrite H1, H2. cbn [andb].
  apply returns_Ok. reflexivity.
Qed.

(** The positional rows fit a sequence of length [L]: the slice has [L]
    rows, or the table has a single row, which is expanded. *)
Lemma slice_rows_expandable (pe : Tensor2 R) (L : nat) :
  expandable (rows (slice_rows pe L)) L = true
  <-> L <= rows pe \/ rows pe = 1.
Proof.
  cbn [slice_rows rows]. rewrite expandable_spec. lia.
Qed.

Lemma embed_value_returns (self : Transformer) (mods : Modules)
    (ids : Tensor2 Z) (V E : nat) :
  rows (emb_weight (embeddings mods)) = V ->
  cols (emb_weight (embeddings mods)) = E ->
  cols (pos_enc self) = E ->
  cols ids <= rows (pos_enc self) \/ rows (pos_enc self) = 1 ->
  valid_ids V ids ->
  returns (embed_value self mods ids)
          (fun x => shape3 x = (rows ids, cols ids, E)).
Proof.
  intros HV HE Hc Hlen Hids. unfold embed_value.
  eapply returns_bind.
  { apply embedding_returns. rewrite HV. exact Hids. }
  cbn beta. intros t Ht. rewrite HE in Ht.
  eapply returns_weaken.
  - unfold shape3 in Ht. injection Ht as T0 T1 T2.
    apply iadd3_2_returns; cbn [imul3 map3 dim0 dim1 dim2].
    + rewrite T1. apply slice_rows_expandable, Hlen.
    + apply expandable_spec. left. cbn [slice_rows cols]. congruence.
  - cbn beta. intros x ->. exact Ht.
Qed.

Lemma src_mask_fits (src_mask : option (Tensor2 Z)) (B Lq Ls : nat) :
  (forall m, src_mask = Some m -> shape2 m = (B, Ls)) ->
  mask_fits (option_map newaxis_1 src_mask) B Lq Ls.
Proof.
  intros H. destruct src_mask as [m |]; [| exact I].
  specialize (H m eq_refl). shapes.
  cbn [option_map mask_fits newaxis_1 dim0 dim1 dim2].
  repeat split; apply expandable_spec; [left | right | left]; congruence.
Qed.

Lemma encode_value_returns (self : Transformer) (mods : Modules) (md : Mode)
    (src : Tensor2 Z) (src_mask : option (Tensor2 Z)) (V E F B Ls : nat) :
  wf_Modules V E F mods ->
  cols (pos_enc self) = E ->
  shape2 src = (B, Ls) ->
  Ls <= rows (pos_enc self) \/ rows (pos_enc self) = 1 ->
  valid_ids V src ->
  (forall m, src_mask = Some m -> shape2 m = (B, Ls)) ->
  returns (encode_value self mods md src src_mask)
          (fun r => shape3 (fst r) = (B, Ls, E)
                    /\ snd r = option_map newaxis_1 src_mask).
Proof.
  intros (Wenc & Wdec & HV & HE & Wfc) Hc Hsrc HLs Vsrc Hmask.
  shapes. unfold encode_value.
  eapply returns_bind.
  { eapply embed_value_returns; try eassumption. congruence. }
  cbn beta. intros x Hx.
  eapply returns_bind.
  { eapply Encoder_forward_returns; [eassumption | |].
    - rewrite Dropout_forward3_shape. exact Hx.
    - apply src_mask_fits.
      intros m Hm. rewrite (Hmask m Hm). congruence. }
  cbn beta. intros memory Hmem. apply returns_Ok. cbn [fst snd].
  split; [| reflexivity]. rewrite Hmem. congruence.
Qed.

Lemma decode_value_returns (self : Transformer) (mods : Modules) (md : Mode)
    (memory : Tensor3 R) (tgt : Tensor2 Z) (src_mask : option (Tensor3 Z))
    (V E F B Ls Lt : nat) :
  wf_Modules V E F mods ->
  cols (pos_enc self) = E ->
  shape3 memory = (B, Ls, E) -> shape2 tgt = (B, Lt) ->
  Lt <= rows (pos_enc self) \/ rows (pos_enc self) = 1 ->
  valid_ids V tgt ->
  mask_fits src_mask B Lt Ls ->
  returns (decode_value self mods md memory tgt src_mask)
          (fun y => shape3 y = (B, Lt, V)).
Proof.
  intros (Wenc & Wdec & HV & HE & Wfc) Hc Hmem Htgt HLt Vtgt Hmask.
  unfold shape2 in Htgt. injection Htgt as T0 T1.
  unfold decode_value.
  eapply returns_bind.
  { eapply embed_value_returns; try eassumption. congruence. }
  cbn beta. intros x Hx. rewrite T0, T1 in Hx.
  eapply returns_bind.
  { eapply Decoder_forward_returns; [eassumption | | eassumption |].
    - rewrite Dropout_forward3_shape. exact Hx.
    - exact Hmask. }
  cbn beta. intros att Hatt.
  eapply returns_weaken.
  - eapply Linear_forward_returns; [eassumption |]. shapes. congruence.
  - cbn beta. intros y ->. shapes. congruence.
Qed.

Lemma forward_value_returns (self : Transformer) (mods : Modules) (md : Mode)
    (src tgt : Tensor2 Z) (src_mask : option (Tensor2 Z))
    (V E F B Ls Lt : nat) :
  wf_Modules V E F mods ->
  cols (pos_enc self) = E ->
  shape2 src = (B, Ls) -> shape2 tgt = (B, Lt) ->
  Ls <= rows (pos_enc self) \/ rows (pos_enc self) = 1 ->
  Lt <= rows (pos_enc self) \/ rows (pos_enc self) = 1 ->
  valid_ids V src -> valid_ids V tgt ->
  (forall m, src_mask = Some m -> shape2 m = (B, Ls)) ->
  returns (forward_value self mods md src tgt src_mask)
          (fun y => shape3 y = (B, Lt, V)).
Proof.
  intros Wf Hc Hsrc Htgt HLs HLt Vsrc Vtgt Hmask.
  unfold forward_value.
  eapply returns_bind.
  { eapply encode_value_returns; eassumption. }
  cbn beta. intros [memory mask'] [Hmem Hm]. cbn [fst snd] in *. subst mask'.
  eapply decode_value_returns; try eassumption.
  apply src_mask_fits. exact Hmask.
Qed.

Lemma computes_returns {A} (m : M A) (h : Heap) (r : result A)
    (P : A -> Prop) :
  computes m h r -> returns r P ->
  runs m h (fun a h' => P a /\ same_parameters h h').
Proof.
  intros Hc (a & -> & Ha). cbn [computes] in Hc.
  destruct Hc as (h' & E & Hs). exists a, h'.
  split; [exact E | split; [exact Ha | exact Hs]].
Qed.

(** ** Constructors *)

Lemma wf_Linear_init (rng : Rng) (name : wb -> pname) (i o : nat) :
  wf_Linear (Linear_init rng name i o) i o.
Proof. repeat split. Qed.

Lemma wf_LayerNorm_init (E : nat) : wf_LayerNorm (LayerNorm_init E) E.
Proof. repeat split. Qed.

Lemma MultiHeadAttention_init_returns (rng : Rng)
    (name : mha_slot -> wb -> pname) (H E : nat) (u : bool) :
  H <> 0 -> E mod H = 0 ->
  returns (MultiHeadAttention_init rng name H E u)
          (fun m => wf_MultiHeadAttention m E).
Proof.
  intros H0 Hm. unfold MultiHeadAttention_init, py_mod, py_assert.
  destruct (Nat.eqb_spec H 0) as [| _]; [contradiction |].
  cbn [bind]. rewrite Hm. cbn [Nat.eqb bind].
  apply returns_Ok. unfold wf_MultiHeadAttention.
  cbn [embed_size n_heads head_dim q_weights k_weights v_weights proj].
  split; [reflexivity |]. split.
  - symmetry. apply Nat.Div0.div_exact. exact Hm.
  - repeat split.
Qed.

Lemma MultiHeadAttention_init_raises (rng : Rng)
    (name : mha_slot -> wb -> pname) (H E : nat) (u : bool) :
  H = 0 \/ E mod H <> 0 ->
  exists e, MultiHeadAttention_init rng name H E u = Raise e
            /\ (e = ZeroDivisionError \/ e = AssertionError).
Proof.
  intros Hbad. unfold MultiHeadAttention_init, py_mod, py_assert.
  destruct (Nat.eqb_spec H 0) as [-> | Hne].
  - exists ZeroDivisionError. split; [reflexivity | left; reflexivity].
  - destruct Hbad as [| Hm]; [contradiction |].
    cbn [bind]. destruct (Nat.eqb_spec (E mod H) 0); [contradiction |].
    exists AssertionError. split; [reflexivity | right; reflexivity].
Qed.

Lemma heads_ok_spec (n H E : nat) :
  heads_ok n H E = true <-> n = 0 \/ (H <> 0 /\ E mod H = 0).
Proof.
  unfold heads_ok.
  rewrite orb_true_iff, andb_true_iff, negb_true_iff, !Nat.eqb_eq,
    Nat.eqb_neq.
  tauto.
Qed.

Lemma list_comprehension_returns {A} (f : nat -> result A) (P : A -> Prop)
    (n start : nat) :
  (forall i, start <= i < start + n -> returns (f i) P) ->
  returns (list_comprehension f start n)
          (fun l => length l = n /\ Forall P l).
Proof.
  revert start. induction n as [| n IH]; intros start H;
    cbn [list_comprehension].
  - apply returns_Ok. split; [reflexivity | constructor].
  - eapply returns_bind; [apply H; lia |]. cbn beta. intros a Ha.
    eapply returns_bind; [apply IH; intros i Hi; apply H; lia |].
    cbn beta. intros rest [Hlen Hrest]. apply returns_Ok.
    split; [cbn [length]; congruence | constructor; assumption].
Qed.

Lemma list_comprehension_raises {A} (f : nat -> result A) (n start : nat)
    (e : PyError) :
  n <> 0 -> f start = Raise e -> list_comprehension f start n = Raise e.
Proof.
  intros Hn Hf. destruct n as [| n]; [contradiction |].
  cbn [list_comprehension]. rewrite Hf. reflexivity.
Qed.

Lemma EncoderLayer_init_returns (rng : Rng) (name : enc_slot -> wb -> pname)
    (H E F : nat) (post_ln u : bool) :
  H <> 0 -> E mod H = 0 ->
  returns (EncoderLayer_init rng name H E F post_ln u)
          (wf_EncoderLayer E F).
Proof.
  intros H0 Hm. unfold EncoderLayer_init. cbv zeta.
  eapply returns_bind; [apply MultiHeadAttention_init_returns; assumption |].
  cbn beta. intros mha Hmha. apply returns_Ok.
  unfold wf_EncoderLayer, wf_FeedForward, FeedForward_init.
  cbn [enc_ff enc_mha enc_ln1 enc_ln2 ff_0 ff_3].
  split; [split; apply wf_Linear_init |].
  split; [exact Hmha | split; apply wf_LayerNorm_init].
Qed.

Lemma DecoderLayer_init_returns (rng : Rng) (name : dec_slot -> wb -> pname)
    (H E F : nat) (post_ln u : bool) :
  H <> 0 -> E mod H = 0 ->
  returns (DecoderLayer_init rng name H E F post_ln u)
          (wf_DecoderLayer E F).
Proof.
  intros H0 Hm. unfold DecoderLayer_init. cbv zeta.
  eapply returns_bind; [apply MultiHeadAttention_init_returns; assumption |].
  cbn beta. intros mha Hmha.
  eapply returns_bind; [apply MultiHeadAttention_init_returns; assumption |].
  cbn beta. intros mmha Hmmha. apply returns_Ok.
  unfold wf_DecoderLayer, wf_FeedForward, FeedForward_init.
  cbn [dec_ff dec_mha dec_mmha dec_ln1 dec_ln2 dec_ln3 ff_0 ff_3].
  split; [split; apply wf_Linear_init |].
  split; [exact Hmha |]. split; [exact Hmmha |].
  split; [| split]; apply wf_LayerNorm_init.
Qed.

Lemma wf_final_ln_init (E : nat) (post_ln : bool) :
  wf_final_ln E (if post_ln then None else Some (LayerNorm_init E)).
Proof. destruct post_ln; [exact I | apply wf_LayerNorm_init]. Qed.

Lemma Encoder_init_returns (rng : Rng) (n H E F : nat) (post_ln u : bool) :
  heads_ok n H E = true ->
  returns (Encoder_init rng n H E F post_ln u)
          (fun m => wf_Encoder E F m /\ length (encoder_layers m) = n
                    /\ enc_final_ln m
                       = if post_ln then None else Some (LayerNorm_init E)).
Proof.
  intros Hok. apply heads_ok_spec in Hok. unfold Encoder_init.
  eapply returns_bind with
    (P := fun l => length l = n /\ Forall (wf_EncoderLayer E F) l).
  - destruct Hok as [-> | [H0 Hm]].
    + apply returns_Ok. split; [reflexivity | constructor].
    + apply list_comprehension_returns. intros i _.
      apply EncoderLayer_init_returns; assumption.
  - cbn beta. intros layers [Hlen Hwf]. apply returns_Ok.
    unfold wf_Encoder. cbn [encoder_layers enc_final_ln].
    split; [split; [exact Hwf | apply wf_final_ln_init] |].
    split; [exact Hlen | reflexivity].
Qed.

Lemma Decoder_init_returns (rng : Rng) (n H E F : nat) (post_ln u : bool) :
  heads_ok n H E = true ->
  returns (Decoder_init rng n H E F post_ln u)
          (fun m => wf_Decoder E F m /\ length (decoder_layers m) = n
                    /\ dec_final_ln m
                       = if post_ln then None else Some (LayerNorm_init E)).
Proof.
  intros Hok. apply heads_ok_spec in Hok. unfold Decoder_init.
  eapply returns_bind with
    (P := fun l => length l = n /\ Forall (wf_DecoderLayer E F) l).
  - destruct Hok as [-> | [H0 Hm]].
    + apply returns_Ok. split; [reflexivity | constructor].
    + apply list_comprehension_returns. intros i _.
      apply DecoderLayer_init_returns; assumption.
  - cbn beta. intros layers [Hlen Hwf]. apply returns_Ok.
    unfold wf_Decoder. cbn [decoder_layers dec_final_ln].
    split; [split; [exact Hwf | apply wf_final_ln_init] |].
    split; [exact Hlen | reflexivity].
Qed.

Lemma Encoder_init_raises (rng : Rng) (n H E F : nat) (post_ln u : bool) :
  heads_ok n H E = false ->
  exists e, Encoder_init rng n H E F post_ln u = Raise e.
Proof.
  intros Hok. unfold heads_ok in Hok.
  apply orb_false_iff in Hok. destruct Hok as [Hn Hh].
  apply Nat.eqb_neq in Hn.
  assert (Hbad : H = 0 \/ E mod H <> 0).
  { apply andb_false_iff in Hh. destruct Hh as [Hh | Hh].
    - left. apply negb_false_iff, Nat.eqb_eq in Hh. exact Hh.
    - right. apply Nat.eqb_neq. exact Hh. }
  destruct (MultiHeadAttention_init_raises rng
              (fun s => PEncoderLayer 0 (EncMha s)) E u Hbad) as (e & He & _).
  exists e. unfold Encoder_init.
  rewrite (@list_comprehension_raises _ _ n 0 e Hn); [reflexivity |].
  unfold EncoderLayer_init. cbv zeta. rewrite He. reflexivity.
Qed.

Lemma Decoder_init_raises (rng : Rng) (n H E F : nat) (post_ln u : bool) :
  heads_ok n H E = false ->
  exists e, Decoder_init rng n H E F post_ln u = Raise e.
Proof.
  intros Hok. unfold heads_ok in Hok.
  apply orb_false_iff in Hok. destruct Hok as [Hn Hh].
  apply Nat.eqb_neq in Hn.
  assert (Hbad : H = 0 \/ E mod H <> 0).
  { apply andb_false_iff in Hh. destruct Hh as [Hh | Hh].
    - left. apply negb_false_iff, Nat.eqb_eq in Hh. exact Hh.
    - right. apply Nat.eqb_neq. exact Hh. }
  destruct (MultiHeadAttention_init_raises rng
              (fun s => PDecoderLayer 0 (DecMha s)) E u Hbad) as (e & He & _).
  exists e. unfold Decoder_init.
  rewrite (@list_comprehension_raises _ _ n 0 e Hn); [reflexivity |].
  unfold DecoderLayer_init. cbv zeta. rewrite He. reflexivity.
Qed.

Lemma positional_encoding_shape (u : nat -> nat -> R) (L E : nat)
    (t : Tensor2 R) :
  positional_encoding u L E = Ok t -> rows t = L /\ cols t = E.
Proof.
  unfold positional_encoding, mul2.
  cbn -[slice_len Nat.div Nat.modulo bdim].
  rewrite bdim_1_r, bdim_1_l.
  unfold setitem_cols.
  cbn -[slice_len Nat.div Nat.modulo expandable].
  rewrite !expandable_refl.
  cbn -[slice_len Nat.div Nat.modulo expandable].
  rewrite expandable_refl. cbn [andb].
  destruct (expandable _ _); cbn [bind]; [| discriminate].
  intros H. injection H as <-. split; reflexivity.
Qed.

(** ** Modules read back from the heap keep their shapes *)

Lemma obj_shape_as2 (o : obj) (t : Tensor2 R) :
  obj_shape o = obj_shape (O2 t) ->
  rows (as2 o) = rows t /\ cols (as2 o) = cols t.
Proof.
  destruct o as [a | a | a]; cbn [obj_shape as2]; intros H;
    [discriminate | | discriminate].
  injection H as H1 H2. split; assumption.
Qed.

Lemma obj_shape_as1 (o : obj) (t : Tensor1 R) :
  obj_shape o = obj_shape (O1 t) -> len1 (as1 o) = len1 t.
Proof.
  destruct o as [a | a | a]; cbn [obj_shape as1]; intros H;
    [| discriminate | discriminate].
  injection H as H1. assumption.
Qed.

Lemma wf_Linear_read (rd : wb -> obj) (m : Linear) (i o : nat) :
  wf_Linear m i o ->
  (forall p, obj_shape (rd p) = obj_shape (Linear_param m p)) ->
  wf_Linear (Linear_read rd m) i o.
Proof.
  intros (Hr & Hc & Hb) H. unfold wf_Linear, Linear_read; cbn [weight bias].
  destruct (obj_shape_as2 _ (H Weight_)) as [R1 C1].
  pose proof (obj_shape_as1 _ (H Bias_)) as B1.
  repeat split; congruence.
Qed.

Lemma wf_LayerNorm_read (rd : wb -> obj) (m : LayerNorm) (E : nat) :
  wf_LayerNorm m E ->
  (forall p, obj_shape (rd p) = obj_shape (LayerNorm_param m p)) ->
  wf_LayerNorm (LayerNorm_read rd m) E.
Proof.
  intros (Hn & Hw & Hb) H. unfold wf_LayerNorm, LayerNorm_read;
    cbn [normalized_shape ln_weight ln_bias].
  pose proof (obj_shape_as1 _ (H Weight_)) as W1.
  pose proof (obj_shape_as1 _ (H Bias_)) as B1.
  repeat split; congruence.
Qed.

Lemma wf_MultiHeadAttention_read (rd : mha_slot -> wb -> obj)
    (m : MultiHeadAttention) (E : nat) :
  wf_MultiHeadAttention m E ->
  (forall s p, obj_shape (rd s p)
               = obj_shape (MultiHeadAttention_param m s p)) ->
  wf_MultiHeadAttention (MultiHeadAttention_read rd m) E.
Proof.
  intros (HE & HH & Wq & Wk & Wv & Wp) H.
  unfold wf_MultiHeadAttention, MultiHeadAttention_read;
    cbn [embed_size n_heads head_dim q_weights k_weights v_weights proj].
  split; [exact HE |]. split; [exact HH |].
  split; [apply wf_Linear_read; [exact Wq | apply (H SQ)] |].
  split; [apply wf_Linear_read; [exact Wk | apply (H SK)] |].
  split; [apply wf_Linear_read; [exact Wv | apply (H SV)] |].
  apply wf_Linear_read; [exact Wp | apply (H SProj)].
Qed.

Lemma wf_FeedForward_read (rd : ff_slot -> wb -> obj) (m : FeedForward)
    (E F : nat) :
  wf_FeedForward m E F ->
  (forall s p, obj_shape (rd s p) = obj_shape (FeedForward_param m s p)) ->
  wf_FeedForward (FeedForward_read rd m) E F.
Proof.
  intros (W0 & W3) H. unfold wf_FeedForward, FeedForward_read;
    cbn [ff_0 ff_3].
  split; apply wf_Linear_read; [exact W0 | apply (H FF0)
                               | exact W3 | apply (H FF3)].
Qed.

Lemma wf_EncoderLayer_read (E F : nat) (rd : enc_slot -> wb -> obj)
    (m : EncoderLayer) :
  wf_EncoderLayer E F m ->
  (forall s p, obj_shape (rd s p) = obj_shape (EncoderLayer_param m s p)) ->
  wf_EncoderLayer E F (EncoderLayer_read rd m).
Proof.
  intros (Wff & Wmha & W1 & W2) H.
  unfold wf_EncoderLayer, EncoderLayer_read;
    cbn [enc_ff enc_mha enc_ln1 enc_ln2].
  split; [apply wf_FeedForward_read;
          [exact Wff | intros s p; apply (H (EncFF s) p)] |].
  split; [apply wf_MultiHeadAttention_read;
          [exact Wmha | intros s p; apply (H (EncMha s) p)] |].
  split; apply wf_LayerNorm_read;
    [exact W1 | apply (H EncLn1) | exact W2 | apply (H EncLn2)].
Qed.

Lemma wf_DecoderLayer_read (E F : nat) (rd : dec_slot -> wb -> obj)
    (m : DecoderLayer) :
  wf_DecoderLayer E F m ->
  (forall s p, obj_shape (rd s p) = obj_shape (DecoderLayer_param m s p)) ->
  wf_DecoderLayer E F (DecoderLayer_read rd m).
Proof.
  intros (Wff & Wmha & Wmmha & W1 & W2 & W3) H.
  unfold wf_DecoderLayer, DecoderLayer_read;
    cbn [dec_ff dec_mha dec_mmha dec_ln1 dec_ln2 dec_ln3].
  split; [apply wf_FeedForward_read;
          [exact Wff | intros s p; apply (H (DecFF s) p)] |].
  split; [apply wf_MultiHeadAttention_read;
          [exact Wmha | intros s p; apply (H (DecMha s) p)] |].
  split; [apply wf_MultiHeadAttention_read;
          [exact Wmmha | intros s p; apply (H (DecMmha s) p)] |].
  split; [apply wf_LayerNorm_read; [exact W1 | apply (H DecLn1)] |].
  split; apply wf_LayerNorm_read;
    [exact W2 | apply (H DecLn2) | exact W3 | apply (H DecLn3)].
Qed.

Lemma read_layers_Forall {L K : Type} (read1 : (K -> wb -> obj) -> L -> L)
    (param1 : L -> K -> wb -> obj) (P : L -> Prop)
    (rd : nat -> K -> wb -> obj) :
  (forall r l, P l ->
     (forall s p, obj_shape (r s p) = obj_shape (param1 l s p)) ->
     P (read1 r l)) ->
  forall layers i,
    Forall P layers ->
    (forall j l, nth_error layers j = Some l ->
       forall s p, obj_shape (rd (i + j) s p) = obj_shape (param1 l s p)) ->
    Forall P (read_layers read1 rd i layers).
Proof.
  intros Hread layers. induction layers as [| l rest IH]; intros i Hwf H;
    cbn [read_layers]; [constructor |].
  inversion Hwf as [| ? ? Hl Hrest]; subst. constructor.
  - apply Hread; [exact Hl |]. intros s p.
    specialize (H 0 l eq_refl s p). rewrite Nat.add_0_r in H. exact H.
  - apply IH; [exact Hrest |]. intros j l' Hj s p.
    specialize (H (S j) l' Hj s p).
    replace (S i + j) with (i + S j) by lia. exact H.
Qed.

Lemma wf_Modules_read (rd : pname -> obj) (m : Modules) (V E F : nat) :
  wf_Modules V E F m ->
  (forall n, obj_shape (rd n) = obj_shape (parameters m n)) ->
  wf_Modules V E F (Modules_read rd m).
Proof.
  intros ((Wel & Wef) & (Wdl & Wdf) & HV & HE & Wfc) H.
  unfold wf_Modules, Modules_read;
    cbn [encoder decoder embeddings fc emb_weight].
  split; [| split; [| split; [| split]]].
  - unfold wf_Encoder; cbn [encoder_layers enc_final_ln]. split.
    + apply (@read_layers_Forall _ _ EncoderLayer_read EncoderLayer_param);
        [intros r l; apply wf_EncoderLayer_read | exact Wel |].
      intros j l Hj s p. specialize (H (PEncoderLayer j s p)).
      cbn [parameters] in H. rewrite Hj in H. exact H.
    + destruct (enc_final_ln (encoder m)) as [l |] eqn:El; [| exact I].
      cbn [option_map wf_final_ln] in *. apply wf_LayerNorm_read;
        [exact Wef |].
      intros p. specialize (H (PEncoderFinalLn p)).
      cbn [parameters] in H. rewrite El in H. exact H.
  - unfold wf_Decoder; cbn [decoder_layers dec_final_ln]. split.
    + apply (@read_layers_Forall _ _ DecoderLayer_read DecoderLayer_param);
        [intros r l; apply wf_DecoderLayer_read | exact Wdl |].
      intros j l Hj s p. specialize (H (PDecoderLayer j s p)).
      cbn [parameters] in H. rewrite Hj in H. exact H.
    + destruct (dec_final_ln (decoder m)) as [l |] eqn:El; [| exact I].
      cbn [option_map wf_final_ln] in *. apply wf_LayerNorm_read;
        [exact Wdf |].
      intros p. specialize (H (PDecoderFinalLn p)).
      cbn [parameters] in H. rewrite El in H. exact H.
  - destruct (obj_shape_as2 _ (H PEmbeddingsWeight)) as [R1 C1]. congruence.
  - destruct (obj_shape_as2 _ (H PEmbeddingsWeight)) as [R1 C1]. congruence.
  - apply wf_Linear_read; [exact Wfc |].
    intros [|]; [apply (H PFcWeight) | apply (H PFcBias)].
Qed.

(** ** [_init_params] *)

Lemma init_params_step_shape (rng : Rng) (self : Transformer) (h : Heap)
    (n : pname) (l : loc) :
  let h' := match cell h (slots self n) with
            | O2 t => write h (slots self n)
                            (O2 (T2 (rows t) (cols t) (xavier_uniform rng n)))
            | _ => h
            end in
  obj_shape (cell h' l) = obj_shape (cell h l)
  /\ next_model h' = next_model h /\ next_tmp h' = next_tmp h
  /\ ((forall n', slots self n' <> l) -> cell h' l = cell h l).
Proof.
  cbv zeta. destruct (cell h (slots self n)) as [t | t | t] eqn:Ec;
    try (repeat split; reflexivity).
  destruct (loc_eq_dec (slots self n) l) as [<- | Hne].
  - rewrite cell_write_same, Ec. repeat split.
    intros H. exfalso. exact (H n eq_refl).
  - rewrite (cell_write_other _ _ Hne). repeat split.
Qed.

Lemma init_params_fold (rng : Rng) (self : Transformer) (ns : list pname)
    (h : Heap) (l : loc) :
  let h' := fold_left
              (fun h n =>
                 match cell h (slots self n) with
                 | O2 t => write h (slots self n)
                             (O2 (T2 (rows t) (cols t) (xavier_uniform rng n)))
                 | _ => h
                 end) ns h in
  obj_shape (cell h' l) = obj_shape (cell h l)
  /\ next_model h' = next_model h /\ next_tmp h' = next_tmp h
  /\ ((forall n', slots self n' <> l) -> cell h' l = cell h l).
Proof.
  cbv zeta. revert h. induction ns as [| n ns IH]; intros h; cbn [fold_left].
  - repeat split.
  - destruct (init_params_step_shape rng self h n l) as (S1 & M1 & T1 & C1).
    cbv zeta in S1, M1, T1, C1.
    match goal with
    | |- context [fold_left _ ns ?hh] =>
        destruct (IH hh) as (S2 & M2 & T2 & C2)
    end.
    split; [congruence |]. split; [congruence |]. split; [congruence |].
    intros H. rewrite (C2 H). apply C1, H.
Qed.

Lemma init_params_spec (rng : Rng) (self : Transformer) (h : Heap) (l : loc) :
  obj_shape (cell (_init_params rng self h) l) = obj_shape (cell h l)
  /\ next_model (_init_params rng self h) = next_model h
  /\ next_tmp (_init_params rng self h) = next_tmp h
  /\ ((forall n', slots self n' <> l) ->
      cell (_init_params rng self h) l = cell h l).
Proof. apply init_params_fold. Qed.

(** ** [Transformer.__init__] *)

Lemma cell_register (h : Heap) (f : pname -> obj) (n : pname) :
  cell (register h f) (LParam (next_model h) n) = f n.
Proof. unfold register; cbn [cell]. rewrite Nat.eqb_refl. reflexivity. Qed.

Lemma cell_register_other (h : Heap) (f : pname -> obj) (l : loc) :
  (forall n, l <> LParam (next_model h) n) ->
  cell (register h f) l = cell h l.
Proof.
  intros H. unfold register; cbn [cell]. destruct l as [m n | k];
    [| reflexivity].
  destruct (Nat.eqb_spec m (next_model h)) as [-> | _]; [| reflexivity].
  exfalso. exact (H n eq_refl).
Qed.

Lemma Transformer_init_runs (c : TransformerConfig) (rng : Rng) (h0 : Heap) :
  config_ok c = true ->
  runs (Transformer_init c rng) h0
       (fun self h =>
          config self = c /\ training self = true
          /\ wf_Transformer self h
          /\ init_slots_spec c (next_model h0) self
          /\ next_model h = S (next_model h0)
          /\ next_tmp h = next_tmp h0
          /\ (forall l, (forall n, l <> LParam (next_model h0) n) ->
                        cell h l = cell h0 l)).
Proof.
  intros Hok. unfold config_ok in Hok.
  apply andb_true_iff in Hok. destruct Hok as [Hok Hdec].
  apply andb_true_iff in Hok. destruct Hok as [Hpe Henc].
  unfold runs, Transformer_init.
  pose proof (positional_encoding_ok (uninit rng) (max_len c)
                (cfg_embed_size c)) as Hp.
  fold (pos_enc_ok (cfg_embed_size c)) in Hp. rewrite Hpe in Hp.
  destruct (positional_encoding (uninit rng) (max_len c) (cfg_embed_size c))
    as [pe | e] eqn:Epe; [| discriminate]. clear Hp.
  destruct (positional_encoding_shape _ _ _ Epe) as [Hrows Hcols].
  destruct (@Encoder_init_returns rng (n_encoder_layers c)
              (n_encoder_heads c) (cfg_embed_size c) (d_ff c) (post_ln c)
              (use_additional_dropout c) Henc) as (enc & -> & Wenc & _).
  destruct (@Decoder_init_returns rng (n_decoder_layers c)
              (n_decoder_heads c) (cfg_embed_size c) (d_ff c) (post_ln c)
              (use_additional_dropout c) Hdec) as (dec & -> & Wdec & _).
  cbn [bind]. cbv zeta.
  eexists. eexists. split; [reflexivity |].
  set (mods := mkModules enc dec
                 (Embedding_init rng (vocab_size c) (cfg_embed_size c))
                 (Linear_init rng fc_name (cfg_embed_size c) (vocab_size c))).
  set (sl := if tie_embeddings c
             then fun n => if pname_eq_dec n PEmbeddingsWeight
                           then LParam (next_model h0) PFcWeight
                           else LParam (next_model h0) n
             else LParam (next_model h0)).
  set (self := mkTransformer c pe mods (sqrt (INR (cfg_embed_size c)))
                             (mkDropout (1 # 10)) sl true).
  set (h := if xavier_initialization c
            then _init_params rng self (register h0 (parameters mods))
            else register h0 (parameters mods)).
  assert (Hsl : init_slots_spec c (next_model h0) self).
  { intros n. cbn [self slots]. unfold sl.
    destruct (tie_embeddings c); reflexivity. }
  assert (Hshape : forall l, obj_shape (cell h l)
                             = obj_shape (cell (register h0 (parameters mods))
                                               l)).
  { intros l. unfold h. destruct (xavier_initialization c); [| reflexivity].
    apply init_params_spec. }
  assert (Hwf : wf_Modules (vocab_size c) (cfg_embed_size c) (d_ff c) mods).
  { unfold wf_Modules; cbn [mods encoder decoder embeddings fc emb_weight
      Embedding_init rows cols].
    repeat split; try assumption; try apply Wenc; try apply Wdec. }
  split; [reflexivity |]. split; [reflexivity |].
  split; [| split; [exact Hsl | split; [| split]]].
  - unfold wf_Transformer.
    split; [| split; [exact Hrows | split; [exact Hcols | split;
                                                         [| reflexivity]]]].
    + unfold current_modules.
      change (modules self) with mods. change (config self) with c.
      apply wf_Modules_read; [exact Hwf |].
      intros n. rewrite Hshape, (Hsl n).
      destruct (tie_embeddings c); [| rewrite cell_register; reflexivity].
      destruct (pname_eq_dec n PEmbeddingsWeight) as [-> | _];
        rewrite cell_register; reflexivity.
    + intros n k. rewrite (Hsl n).
      destruct (tie_embeddings c);
        [destruct (pname_eq_dec n PEmbeddingsWeight) |]; discriminate.
  - unfold h. destruct (xavier_initialization c); [| reflexivity].
    destruct (init_params_spec rng self (register h0 (parameters mods))
                (LTmp 0)) as (_ & -> & _). reflexivity.
  - unfold h. destruct (xavier_initialization c); [| reflexivity].
    destruct (init_params_spec rng self (register h0 (parameters mods))
                (LTmp 0)) as (_ & _ & -> & _). reflexivity.
  - intros l Hl. unfold h. destruct (xavier_initialization c).
    + destruct (init_params_spec rng self (register h0 (parameters mods)) l)
        as (_ & _ & _ & Hc).
      rewrite Hc; [apply cell_register_other, Hl |].
      intros n'. rewrite (Hsl n').
      destruct (tie_embeddings c);
        [destruct (pname_eq_dec n' PEmbeddingsWeight) |];
        intros <-; eapply Hl; reflexivity.
    + apply cell_register_other, Hl.
Qed.

Lemma Transformer_init_pos_enc_raises (c : TransformerConfig) (rng : Rng)
    (h0 : Heap) :
  pos_enc_ok (cfg_embed_size c) = false ->
  Transformer_init c rng h0 = Raise RuntimeError.
Proof.
  intros H. unfold pos_enc_ok in H. apply orb_false_iff in H.
  destruct H as [He H1]. apply Nat.eqb_neq in H1.
  unfold Transformer_init.
  rewrite (positional_encoding_raises (uninit rng) (max_len c) He H1).
  reflexivity.
Qed.

Lemma Transformer_init_raises (c : TransformerConfig) (rng : Rng) (h0 : Heap) :
  config_ok c = false -> exists e, Transformer_init c rng h0 = Raise e.
Proof.
  intros Hok. unfold config_ok in Hok.
  destruct (pos_enc_ok (cfg_embed_size c)) eqn:Hpe.
  2:{ exists RuntimeError. apply Transformer_init_pos_enc_raises, Hpe. }
  pose proof (positional_encoding_ok (uninit rng) (max_len c)
                (cfg_embed_size c)) as Hp.
  fold (pos_enc_ok (cfg_embed_size c)) in Hp. rewrite Hpe in Hp.
  unfold Transformer_init.
  destruct (positional_encoding (uninit rng) (max_len c) (cfg_embed_size c))
    as [pe | e]; [| discriminate]. cbn [bind].
  destruct (heads_ok (n_encoder_layers c) (n_encoder_heads c)
              (cfg_embed_size c)) eqn:Henc.
  - destruct (@Encoder_init_returns rng (n_encoder_layers c)
                (n_encoder_heads c) (cfg_embed_size c) (d_ff c) (post_ln c)
                (use_additional_dropout c) Henc) as (enc & -> & _).
    cbn [bind andb] in *.
    destruct (@Decoder_init_raises rng (n_decoder_layers c)
                (n_decoder_heads c) (cfg_embed_size c) (d_ff c) (post_ln c)
                (use_additional_dropout c) Hok) as (e & ->).
    exists e. reflexivity.
  - destruct (@Encoder_init_raises rng (n_encoder_layers c)
                (n_encoder_heads c) (cfg_embed_size c) (d_ff c) (post_ln c)
                (use_additional_dropout c) Henc) as (e & ->).
    exists e. reflexivity.
Qed.

Lemma Transformer_init_ok (c : TransformerConfig) (rng : Rng) (h0 : Heap) :
  is_ok (Transformer_init c rng h0) = config_ok c.
Proof.
  destruct (config_ok c) eqn:Hok.
  - destruct (Transformer_init_runs c rng h0 Hok) as (self & h & -> & _).
    reflexivity.
  - destruct (Transformer_init_raises c rng h0 Hok) as (e & ->).
    reflexivity.
Qed.

(** ** The shape law *)

(** C1.  For a model as the constructor leaves it (whatever the values of
    its parameters and its mode), every batch size [B], source length [Ls]
    and target length [Lt] with [Ls, Lt <= max_len], token ids in
    [[0, vocab_size)] and an optional [(B, Ls)] padding mask, [forward]
    returns a tensor of shape [(B, Lt, vocab_size)]. *)
Theorem forward_shape (self : Transformer) (h : Heap) (noise : Noise)
    (src tgt : Tensor2 Z) (src_mask : option (Tensor2 Z)) (B Ls Lt : nat) :
  wf_Transformer self h ->
  shape2 src = (B, Ls) -> shape2 tgt = (B, Lt) ->
  Ls <= max_len (config self) -> Lt <= max_len (config self) ->
  valid_ids (vocab_size (config self)) src ->
  valid_ids (vocab_size (config self)) tgt ->
  (forall m, src_mask = Some m -> shape2 m = (B, Ls)) ->
  runs (forward self noise src tgt src_mask) h
       (fun y _ => shape3 y = (B, Lt, vocab_size (config self))).
Proof.
  intros (Wf & Hrows & Hcols & Hslots & Hsqrt) Hsrc Htgt HLs HLt Vsrc Vtgt Hmask.
  pose proof (forward_computes self noise src tgt src_mask h Hslots) as Hc.
  assert (Hr : returns (forward_value self (current_modules self h)
                          (mode_of self noise) src tgt src_mask)
                       (fun y => shape3 y = (B, Lt, vocab_size (config self)))).
  { eapply forward_value_returns; try eassumption; left; congruence. }
  destruct (@computes_returns _ _ _ _ _ Hc Hr) as (y & h' & E & Hy & _).
  exists y, h'. split; assumption.
Qed.

Lemma forward_shape_witness :
  exists self h,
    wf_Transformer self h
    /\ runs (forward self keep_all (zeros_ids 2) (zeros_ids 3) None) h
            (fun y _ => shape3 y = (1, 3, 4)).
Proof.
  destruct (Transformer_init_runs small_config zero_rng empty_heap eq_refl)
    as (self & h & _ & Hc & _ & Hwf & _).
  exists self, h. split; [exact Hwf |].
  replace 4 with (vocab_size (config self)) by (rewrite Hc; reflexivity).
  apply (@forward_shape self h keep_all (zeros_ids 2) (zeros_ids 3) None
           1 2 3 Hwf eq_refl eq_refl).
  - rewrite Hc. cbn. lia.
  - rewrite Hc. cbn. lia.
  - rewrite Hc. intros b l _ _. cbn. lia.
  - rewrite Hc. intros b l _ _. cbn. lia.
  - intros m Hm. discriminate Hm.
Defined.

(** ** Head counts that do not divide the embedding size *)






(** ** The embedding size and the positional table *)

(** C10, as stated, fails at [embed_size = 1]: the cosine block is one
    column wide and is expanded onto the empty slice of odd columns. *)
Lemma positional_encoding_size_one_succeeds :
  ~ (forall u L E,
       is_ok (positional_encoding u L E) = true -> Nat.even E = true).
Proof.
  intros H. specialize (H (fun _ _ => 0%R) 3 1).
  rewrite positional_encoding_ok in H. discriminate (H eq_refl).
Qed.

(** C10, amended.  [positional_encoding seq_len embed_size] returns exactly
    when [embed_size] is even or equal to 1.  For every odd
    [embed_size >= 3] the assignment of the cosine columns raises, and so
    does the construction of a [Transformer] with that [embed_size].  For
    an even [embed_size] the table has shape [(seq_len, embed_size)], with
    [sin (pos * exp (- ln 10000 * 2i / embed_size))] in column [2i] and the
    cosine of the same angle in column [2i+1]. *)
Theorem positional_encoding_embed_size (u : nat -> nat -> R)
    (seq_len E : nat) :
  (is_ok (positional_encoding u seq_len E) = true
   <-> Nat.even E = true \/ E = 1)
  /\ (Nat.odd E = true -> 3 <= E ->
      positional_encoding u seq_len E = Raise RuntimeError
      /\ forall c rng h, cfg_embed_size c = E ->
           Transformer_init c rng h = Raise RuntimeError)
  /\ (Nat.even E = true ->
      exists t,
        positional_encoding u seq_len E = Ok t
        /\ shape2 t = (seq_len, E)
        /\ forall pos i, pos < seq_len -> 2 * i < E ->
             let angle :=
               (INR pos * exp (- ln 10000 * INR (2 * i) / INR E))%R in
             at2 t pos (2 * i) = sin angle
             /\ at2 t pos (2 * i + 1) = cos angle).
Proof.
  split; [| split].
  - rewrite positional_encoding_ok, orb_true_iff, Nat.eqb_eq. tauto.
  - intros Ho H3.
    assert (He : Nat.even E = false).
    { unfold Nat.odd in Ho. apply negb_true_iff in Ho. exact Ho. }
    split.
    + apply positional_encoding_raises; [exact He | lia].
    + intros c rng h Hc. apply Transformer_init_pos_enc_raises.
      unfold pos_enc_ok. rewrite Hc, He.
      destruct (Nat.eqb_spec E 1); [lia | reflexivity].
  - intros He.
    destruct (@positional_encoding_even u seq_len E He)
      as (t & Et & Hr & Hc & Hf).
    exists t. split; [exact Et |]. split; [| exact Hf].
    unfold shape2. congruence.
Qed.

Lemma positional_encoding_embed_size_witness :
  positional_encoding (fun _ _ => 0%R) 2 3 = Raise RuntimeError
  /\ exists t, positional_encoding (fun _ _ => 0%R) 2 4 = Ok t
               /\ shape2 t = (2, 4).
Proof.
  split.
  - apply (proj1 (proj2 (positional_encoding_embed_size (fun _ _ => 0%R) 2 3)));
      [reflexivity | lia].
  - destruct (proj2 (proj2 (positional_encoding_embed_size
                              (fun _ _ => 0%R) 2 4)) eq_refl)
      as (t & Et & Hs & _).
    exists t. split; assumption.
Defined.

(** ** Sequences longer than [max_len] *)

Lemma embed_value_raises (self : Transformer) (mods : Modules)
    (ids : Tensor2 Z) :
  rows (pos_enc self) < cols ids -> rows (pos_enc self) <> 1 ->
  exists e, embed_value self mods ids = Raise e
            /\ (e = IndexError \/ e = RuntimeError).
Proof.
  intros Hlong H1. unfold embed_value, embedding.
  destruct (ids_in_range (rows (emb_weight (embeddings mods))) ids).
  - cbn [bind]. unfold iadd3_2. cbn [imul3 map3 dim0 dim1 dim2].
    destruct (expandable (rows (slice_rows (pos_enc self) (cols ids)))
                (cols ids)) eqn:Hx.
    + apply slice_rows_expandable in Hx. lia.
    + cbn [andb]. exists RuntimeError. split; [reflexivity | right; reflexivity].
  - exists IndexError. split; [reflexivity | left; reflexivity].
Qed.

(** C9, as stated, fails: a positional table of a single row
    ([max_len = 1]) is expanded over a source of any length. *)
Lemma single_row_table_is_broadcast :
  ~ (forall self h noise src src_mask,
       wf_Transformer self h -> max_len (config self) < cols src ->
       exists e, encode self noise src src_mask h = Raise e).
Proof.
  intros H.
  destruct (Transformer_init_runs one_position_config zero_rng empty_heap
              eq_refl) as (self & h & _ & Hc & _ & Hwf & _).
  destruct (H self h keep_all (zeros_ids 2) None Hwf) as (e & He).
  { rewrite Hc. cbn. lia. }
  destruct Hwf as (Wf & Hrows & Hcols & Hslots & Hsqrt).
  pose proof (encode_computes self keep_all (zeros_ids 2) None h Hslots)
    as Hcomp.
  assert (Hr : returns (encode_value self (current_modules self h)
                          (mode_of self keep_all) (zeros_ids 2) None)
                       (fun r => shape3 (fst r)
                                 = (1, 2, cfg_embed_size (config self))
                                 /\ snd r = option_map newaxis_1 None)).
  { eapply encode_value_returns; try eassumption.
    - reflexivity.
    - right. rewrite Hrows, Hc. reflexivity.
    - rewrite Hc. intros b l _ _. cbn. lia.
    - intros m Hm. discriminate Hm. }
  destruct Hr as (r & Er & _). rewrite Er in Hcomp.
  destruct Hcomp as (h' & Eh & _). rewrite Eh in He. discriminate He.
Qed.

(** C9, amended.  For a model whose [max_len] is not 1, every call of
    [encode] with a source longer than [max_len] and every call of
    [decode] with a target longer than [max_len] raises, and no tensor is
    returned.  (With [max_len = 1] the single positional row is expanded
    and the call returns.) *)
Theorem over_long_sequence_raises (self : Transformer) (h : Heap)
    (noise : Noise) (ids : Tensor2 Z) :
  wf_Transformer self h ->
  max_len (config self) < cols ids -> max_len (config self) <> 1 ->
  (forall src_mask, exists e, encode self noise ids src_mask h = Raise e)
  /\ (forall memory src_mask,
        exists e, decode self noise memory ids src_mask h = Raise e).
Proof.
  intros (Wf & Hrows & Hcols & Hslots & Hsqrt) Hlong H1.
  rewrite <- Hrows in Hlong, H1.
  destruct (embed_value_raises self (current_modules self h) ids Hlong H1)
    as (e & He & _).
  split.
  - intros src_mask. exists e.
    pose proof (encode_computes self noise ids src_mask h Hslots) as Hc.
    unfold encode_value in Hc. rewrite He in Hc. exact Hc.
  - intros memory src_mask. exists e.
    pose proof (decode_computes self noise memory ids src_mask h Hslots)
      as Hc.
    unfold decode_value in Hc. rewrite He in Hc. exact Hc.
Qed.

Lemma over_long_sequence_raises_witness :
  exists self h,
    wf_Transformer self h
    /\ exists e, encode self keep_all (zeros_ids 5) None h = Raise e.
Proof.
  destruct (Transformer_init_runs small_config zero_rng empty_heap eq_refl)
    as (self & h & _ & Hc & _ & Hwf & _).
  exists self, h. split; [exact Hwf |].
  apply (proj1 (@over_long_sequence_raises self h keep_all (zeros_ids 5) Hwf
                  ltac:(rewrite Hc; cbn; lia)
                  ltac:(rewrite Hc; cbn; lia))).
Defined.

(** ** Scaling of the embeddings *)




(** ** Weight tying *)

Lemma computes_Ok_inv {A} (m : M A) (h h' : Heap) (r : result A) (a : A) :
  computes m h r -> m h = Ok (a, h') -> r = Ok a /\ same_parameters h h'.
Proof.
  intros Hc E. destruct r as [a' | e]; cbn [computes] in Hc.
  - destruct Hc as (h'' & E' & Hs). rewrite E in E'. injection E' as -> ->.
    split; [reflexivity | exact Hs].
  - rewrite E in Hc. discriminate Hc.
Qed.

Lemma Transformer_init_Ok_inv (c : TransformerConfig) (rng : Rng)
    (h0 h : Heap) (self : Transformer) :
  Transformer_init c rng h0 = Ok (self, h) ->
  config self = c /\ training self = true /\ wf_Transformer self h
  /\ init_slots_spec c (next_model h0) self
  /\ next_model h = S (next_model h0)
  /\ next_tmp h = next_tmp h0
  /\ (forall l, (forall n, l <> LParam (next_model h0) n) ->
                cell h l = cell h0 l).
Proof.
  intros E.
  assert (Hok : config_ok c = true).
  { rewrite <- (Transformer_init_ok c rng h0), E. reflexivity. }
  destruct (Transformer_init_runs c rng h0 Hok) as (self' & h' & E' & H).
  rewrite E in E'. injection E' as <- <-. exact H.
Qed.

(** C5.  After construction with [tie_embeddings] the embedding matrix and
    the weight of the output projection are bound to one tensor object:
    in every later heap they read the same tensor, a write through either
    name is read through the other, and [encode], [decode] and [forward]
    neither rebind a name nor write a parameter. *)
Theorem tied_weights_shared (c : TransformerConfig) (rng : Rng)
    (h0 h : Heap) (self : Transformer) :
  tie_embeddings c = true ->
  Transformer_init c rng h0 = Ok (self, h) ->
  slots self PEmbeddingsWeight = slots self PFcWeight
  /\ (forall h1, emb_weight (embeddings (current_modules self h1))
                 = weight (fc (current_modules self h1)))
  /\ (forall h1 t,
        emb_weight (embeddings
          (current_modules self (write h1 (slots self PFcWeight) (O2 t)))) = t
        /\ weight (fc
             (current_modules self
                (write h1 (slots self PEmbeddingsWeight) (O2 t)))) = t)
  /\ (forall h1 h2 noise src tgt src_mask y,
        forward self noise src tgt src_mask h1 = Ok (y, h2) ->
        same_parameters h1 h2)
  /\ (forall h1 h2 noise src src_mask r,
        encode self noise src src_mask h1 = Ok (r, h2) ->
        same_parameters h1 h2)
  /\ (forall h1 h2 noise memory tgt src_mask y,
        decode self noise memory tgt src_mask h1 = Ok (y, h2) ->
        same_parameters h1 h2).
Proof.
  intros Htie E.
  destruct (Transformer_init_Ok_inv _ _ _ E)
    as (_ & _ & (_ & _ & _ & Hslots & _) & Hsl & _).
  assert (Hsame : slots self PEmbeddingsWeight = slots self PFcWeight).
  { rewrite (Hsl PEmbeddingsWeight), (Hsl PFcWeight), Htie.
    destruct (pname_eq_dec PEmbeddingsWeight PEmbeddingsWeight);
      [| contradiction].
    destruct (pname_eq_dec PFcWeight PEmbeddingsWeight); [discriminate |].
    reflexivity. }
  split; [exact Hsame |].
  split; [| split; [| split; [| split]]].
  - intros h1. unfold current_modules.
    cbn [Modules_read embeddings emb_weight fc Linear_read weight fc_name].
    rewrite Hsame. reflexivity.
  - intros h1 t. unfold current_modules.
    cbn [Modules_read embeddings emb_weight fc Linear_read weight fc_name].
    rewrite Hsame, !cell_write_same. split; reflexivity.
  - intros h1 h2 noise src tgt src_mask y Er.
    pose proof (forward_computes self noise src tgt src_mask h1 Hslots) as Hc.
    exact (proj2 (@computes_Ok_inv _ _ _ _ _ _ Hc Er)).
  - intros h1 h2 noise src src_mask r Er.
    pose proof (encode_computes self noise src src_mask h1 Hslots) as Hc.
    exact (proj2 (@computes_Ok_inv _ _ _ _ _ _ Hc Er)).
  - intros h1 h2 noise memory tgt src_mask y Er.
    pose proof (decode_computes self noise memory tgt src_mask h1 Hslots)
      as Hc.
    exact (proj2 (@computes_Ok_inv _ _ _ _ _ _ Hc Er)).
Qed.

Lemma tied_weights_shared_witness :
  exists self h,
    Transformer_init small_config zero_rng empty_heap = Ok (self, h)
    /\ slots self PEmbeddingsWeight = slots self PFcWeight.
Proof.
  destruct (Transformer_init_runs small_config zero_rng empty_heap eq_refl)
    as (self & h & E & _).
  exists self, h. split; [exact E |].
  exact (proj1 (@tied_weights_shared small_config zero_rng empty_heap h self
                  eq_refl E)).
Defined.

(** ** Index arithmetic of [view] *)

Lemma div_mod_affine (q n r : nat) :
  r < n -> (q * n + r) / n = q /\ (q * n + r) mod n = r.
Proof.
  intros Hr. split.
  - symmetry. apply (Nat.div_unique (q * n + r) n q r); lia.
  - symmetry. apply (Nat.mod_unique (q * n + r) n q r); lia.
Qed.

Lemma view_3_4_at {A} (x : Tensor3 A) (a b c d : nat) (y : Tensor4 A)
    (i j k l : nat) :
  view_3_4 x a b c d = Ok y ->
  dim1 x = b -> dim2 x = c * d ->
  j < b -> k < c -> l < d ->
  shape4 y = (a, b, c, d) /\ at4 y i j k l = at3 x i j (k * d + l).
Proof.
  intros Hv H1 H2 Hj Hk Hl. unfold view_3_4 in Hv.
  destruct (_ =? _); [| discriminate]. injection Hv as <-.
  split; [reflexivity |]. cbn [at4]. rewrite H1, H2.
  assert (Hr : k * d + l < c * d) by nia.
  replace (((i * b + j) * c + k) * d + l)
    with ((i * b + j) * (c * d) + (k * d + l)) by nia.
  destruct (div_mod_affine (i * b + j) Hr) as [Hq Hm].
  rewrite Hm, Hq.
  rewrite (Nat.mul_comm b (c * d)), <- Nat.Div0.div_div, Hq.
  destruct (div_mod_affine i Hj) as [Hq' Hm'].
  rewrite Hq', Hm'. reflexivity.
Qed.

Lemma view_4_3_at {A} (x : Tensor4 A) (a b c d : nat) (y : Tensor3 A)
    (i j k : nat) :
  view_4_3 x a b (c * d) = Ok y ->
  s1 x = b -> s2 x = c -> s3 x = d ->
  j < b -> k < c * d ->
  shape3 y = (a, b, c * d) /\ at3 y i j k = at4 x i j (k / d) (k mod d).
Proof.
  intros Hv H1 H2 H3 Hj Hk. unfold view_4_3 in Hv.
  destruct (_ =? _); [| discriminate]. injection Hv as <-.
  split; [reflexivity |]. cbn [at3]. rewrite H1, H2, H3.
  assert (Hd : 0 < d) by nia.
  assert (Hkd : k / d < c).
  { apply Nat.Div0.div_lt_upper_bound. lia. }
  assert (Hmd : k mod d < d) by (apply Nat.mod_upper_bound; lia).
  pose proof (Nat.div_mod_eq k d) as Hdm.
  (* the flat index, split at the three strides *)
  destruct (div_mod_affine (i * b + j) Hk) as [Q1 M1].
  replace ((i * b + j) * (c * d) + k)
    with (((i * b + j) * c + k / d) * d + k mod d) in * by nia.
  destruct (div_mod_affine ((i * b + j) * c + k / d) Hmd) as [Q2 M2].
  destruct (div_mod_affine (i * b + j) Hkd) as [Q3 M3].
  destruct (div_mod_affine i Hj) as [Q4 M4].
  rewrite M2, Q2, M3.
  replace (b * c * d) with (c * d * b) by lia.
  rewrite <- Nat.Div0.div_div, Q1, Q4, M4. reflexivity.
Qed.

(** ** Layers on inputs that agree at selected positions *)

Lemma Rsum_ext (n : nat) (f g : nat -> R) :
  (forall i, i < n -> f i = g i) -> Rsum n f = Rsum n g.
Proof.
  intros H. unfold Rsum. f_equal. apply map_ext_in.
  intros i Hi. apply in_seq in Hi. apply H. lia.
Qed.

Lemma agree3_refl (P : nat -> nat -> Prop) (x : Tensor3 R) : agree3 P x x.
Proof. split; [reflexivity | intros; reflexivity]. Qed.

Lemma agree3_weaken (P Q : nat -> nat -> Prop) (x x' : Tensor3 R) :
  (forall b l, Q b l -> P b l) -> agree3 P x x' -> agree3 Q x x'.
Proof.
  intros H [Hs Ha]. split; [exact Hs |].
  intros b l e Hb Hl He HQ. apply Ha; auto.
Qed.

(** The dimensions of two tensors of the same shape. *)
Ltac same_shape H :=
  let H0 := fresh "D0" in
  let H1 := fresh "D1" in
  let H2 := fresh "D2" in
  unfold shape3 in H; injection H as H0 H1 H2.

Lemma Linear_forward_agree (m : Linear) (P : nat -> nat -> Prop)
    (x x' y y' : Tensor3 R) :
  agree3 P x x' ->
  Linear_forward m x = Ok y -> Linear_forward m x' = Ok y' ->
  agree3 P y y'.
Proof.
  intros [Hs Ha] Ey Ey'. same_shape Hs. unfold Linear_forward in *.
  destruct (_ && _); [| discriminate].
  destruct (_ && _); [| discriminate].
  injection Ey as <-. injection Ey' as <-.
  split.
  - unfold shape3; cbn [dim0 dim1 dim2]. congruence.
  - cbn [dim0 dim1 dim2 at3]. intros b l o Hb Hl Ho HP.
    rewrite <- D2. f_equal. apply Rsum_ext. intros e He.
    rewrite (Ha b l e Hb Hl He HP). reflexivity.
Qed.

Lemma LayerNorm_forward_agree (m : LayerNorm) (P : nat -> nat -> Prop)
    (x x' y y' : Tensor3 R) :
  agree3 P x x' ->
  LayerNorm_forward m x = Ok y -> LayerNorm_forward m x' = Ok y' ->
  agree3 P y y'.
Proof.
  intros [Hs Ha] Ey Ey'. same_shape Hs. unfold LayerNorm_forward in *.
  destruct (_ && _); [| discriminate].
  destruct (_ && _); [| discriminate].
  injection Ey as <-. injection Ey' as <-.
  split.
  - unfold shape3; cbn [dim0 dim1 dim2]. congruence.
  - cbn [dim0 dim1 dim2 at3]. intros b l e Hb Hl He HP.
    rewrite <- D2.
    assert (Hmu : mean (dim2 x) (at3 x b l) = mean (dim2 x) (at3 x' b l)).
    { unfold mean. f_equal. apply Rsum_ext. intros t Ht. apply Ha; assumption. }
    rewrite <- Hmu.
    assert (Hvar : mean (dim2 x)
                     (fun t => ((at3 x b l t - mean (dim2 x) (at3 x b l))
                                * (at3 x b l t - mean (dim2 x) (at3 x b l)))%R)
                   = mean (dim2 x)
                       (fun t => ((at3 x' b l t - mean (dim2 x) (at3 x b l))
                                  * (at3 x' b l t
                                     - mean (dim2 x) (at3 x b l)))%R)).
    { unfold mean at 1 4. f_equal. apply Rsum_ext. intros t Ht.
      rewrite (Ha b l t Hb Hl Ht HP). reflexivity. }
    rewrite <- Hvar, (Ha b l e Hb Hl He HP). reflexivity.
Qed.

Lemma add3_agree (P : nat -> nat -> Prop) (x x' a a' z z' : Tensor3 R) :
  shape3 a = shape3 x ->
  agree3 P x x' -> agree3 P a a' ->
  add3 x a = Ok z -> add3 x' a' = Ok z' ->
  agree3 P z z'.
Proof.
  intros Hax [Hs Ha] [Hs' Ha'] Ez Ez'.
  assert (Hax' : shape3 a' = shape3 x') by congruence.
  unfold shape3 in Hax, Hax', Hs.
  injection Hax as A0 A1 A2. injection Hax' as A0' A1' A2'.
  injection Hs as D0 D1 D2.
  unfold add3 in *.
  rewrite A0, A1, A2, !bdim_same in Ez. cbn [bind] in Ez.
  rewrite A0', A1', A2', !bdim_same in Ez'. cbn [bind] in Ez'.
  injection Ez as <-. injection Ez' as <-.
  split.
  - unfold shape3; cbn [dim0 dim1 dim2]. congruence.
  - cbn [dim0 dim1 dim2 at3]. intros b l e Hb Hl He HP.
    rewrite <- D0, <- D1, <- D2, !(bidx_lt Hb), !(bidx_lt Hl), !(bidx_lt He).
    rewrite (Ha b l e Hb Hl He HP), (Ha' b l e); congruence.
Qed.

Lemma ReLU_forward_agree (P : nat -> nat -> Prop) (x x' : Tensor3 R) :
  agree3 P x x' -> agree3 P (ReLU_forward x) (ReLU_forward x').
Proof.
  intros [Hs Ha]. split; [exact Hs |].
  cbn [ReLU_forward map3 dim0 dim1 dim2 at3]. intros b l e Hb Hl He HP.
  rewrite (Ha b l e Hb Hl He HP). reflexivity.
Qed.

(** ** Attention in closed form *)

Lemma matmul4_inv (x y z : Tensor4 R) :
  matmul4 x y = Ok z -> s0 y = s0 x -> s1 y = s1 x ->
  s3 x = s2 y
  /\ z = T4 (s0 x) (s1 x) (s2 x) (s3 y) (fun i h r c =>
            Rsum (s3 x) (fun t =>
              (at4 x (bidx (s0 x) i) (bidx (s1 x) h) r t
               * at4 y (bidx (s0 x) i) (bidx (s1 x) h) t c)%R)).
Proof.
  intros E H0 H1. unfold matmul4 in E.
  destruct (Nat.eqb_spec (s3 x) (s2 y)) as [H3 | _]; [| discriminate].
  rewrite H0, H1, !bdim_same in E. cbn [bind] in E.
  injection E as <-. split; [exact H3 | reflexivity].
Qed.

Lemma ScaledDotProductAttention_forward_eval
    (self : ScaledDotProductAttention) (q k v a : Tensor4 R)
    (mask : option (Tensor3 Z)) (B H Lq Lk d : nat) :
  shape4 q = (B, H, Lq, d) -> shape4 k = (B, H, Lk, d) ->
  shape4 v = (B, H, Lk, d) ->
  ScaledDotProductAttention_forward self None q k v mask = Ok a ->
  shape4 a = (B, H, Lq, d)
  /\ forall b h i c, b < B -> h < H -> i < Lq -> c < d ->
       at4 a b h i c
       = Rsum Lk (fun j =>
                    (attention_weight q k mask b h i j * at4 v b h j c)%R).
Proof.
  intros Hq Hk Hv E. shapes.
  unfold ScaledDotProductAttention_forward in E.
  apply bind_Ok_inv in E. destruct E as (qk & Eqk & E).
  apply matmul4_inv in Eqk;
    [| cbn [transpose_last s0 s1 s2 s3]; congruence
     | cbn [transpose_last s0 s1 s2 s3]; congruence].
  destruct Eqk as [_ ->]. cbn [transpose_last s0 s1 s2 s3 at4] in E.
  apply bind_Ok_inv in E. destruct E as (w & Ew & E).
  cbn [Dropout_forward4] in E.
  apply matmul4_inv in E;
    [| cbn [softmax s0 s1 s2 s3] | cbn [softmax s0 s1 s2 s3]].
  2:{ destruct mask as [m |].
      - unfold masked_fill_neg_inf in Ew.
        destruct (_ && _); [| discriminate]. injection Ew as <-.
        cbn [map4 s0]. congruence.
      - injection Ew as <-. cbn [map4 s0]. congruence. }
  2:{ destruct mask as [m |].
      - unfold masked_fill_neg_inf in Ew.
        destruct (_ && _); [| discriminate]. injection Ew as <-.
        cbn [map4 s1]. congruence.
      - injection Ew as <-. cbn [map4 s1]. congruence. }
  destruct E as [_ ->]. cbn [softmax s0 s1 s2 s3 at4].
  assert (Hw : shape4 w = (B, H, Lq, Lk)
               /\ forall b h i j, b < B -> h < H ->
                    eexp (at4 w b h i j) = unnormalised q k mask b h i j).
  { destruct mask as [m |].
    - unfold masked_fill_neg_inf in Ew.
      destruct (_ && _); [| discriminate]. injection Ew as <-.
      split; [unfold shape4; cbn [map4 s0 s1 s2 s3]; congruence |].
      intros b h i j Hb Hh. cbn [map4 at4 unsqueeze4_1 s0 s1 s2 s3].
      unfold unnormalised, visible, score.
      replace (bidx 1 h) with 0 by reflexivity.
      destruct (_ =? _)%Z; cbn [negb eexp]; [reflexivity |].
      replace (s0 q) with B by congruence.
      replace (s1 q) with H by congruence.
      rewrite (bidx_lt Hb), (bidx_lt Hh). reflexivity.
    - injection Ew as <-.
      split; [unfold shape4; cbn [map4 s0 s1 s2 s3]; congruence |].
      intros b h i j Hb Hh. cbn [map4 at4 eexp].
      unfold unnormalised, visible, score.
      replace (s0 q) with B by congruence.
      replace (s1 q) with H by congruence.
      rewrite (bidx_lt Hb), (bidx_lt Hh). reflexivity. }
  destruct Hw as [Hsw Hew]. shapes.
  split; [unfold shape4; cbn [s0 s1 s2 s3]; congruence |].
  intros b h i c Hb Hh Hi Hc. cbn [at4].
  replace (s0 w) with B by congruence. replace (s1 w) with H by congruence.
  replace (s3 w) with Lk by congruence.
  rewrite !(bidx_lt Hb), !(bidx_lt Hh).
  apply Rsum_ext. intros j Hj. unfold attention_weight.
  replace (s2 k) with Lk by congruence.
  rewrite (Hew b h i j Hb Hh). f_equal. f_equal.
  apply Rsum_ext. intros t Ht. apply Hew; assumption.
Qed.

Lemma unnormalised_agree (q q' k k' : Tensor4 R) (mask : option (Tensor3 Z))
    (Pq Pk : nat -> nat -> Prop) (B H Lq Lk d : nat) (b h i j : nat) :
  shape4 q = (B, H, Lq, d) -> shape4 k = (B, H, Lk, d) ->
  agree4 Pq q q' -> agree4 Pk k k' ->
  attends_within mask Pq Pk B Lq Lk ->
  b < B -> h < H -> i < Lq -> j < Lk -> Pq b i ->
  unnormalised q k mask b h i j = unnormalised q' k' mask b h i j.
Proof.
  intros Hq Hk [Sq Aq] [Sk Ak] Hatt Hb Hh Hi Hj HP.
  unfold unnormalised. destruct (visible mask b i j) eqn:Hvis;
    [| reflexivity].
  pose proof (Hatt b i j Hb Hi Hj HP Hvis) as HPk.
  f_equal. unfold score.
  unfold shape4 in Sq, Sk. injection Sq as Q0 Q1 Q2 Q3.
  injection Sk as K0 K1 K2 K3. shapes.
  rewrite <- Q3, <- K3. f_equal. apply Rsum_ext. intros c Hc.
  rewrite (Aq b h i c), (Ak b h j c); try congruence; try lia.
Qed.

Lemma ScaledDotProductAttention_forward_agree
    (self : ScaledDotProductAttention) (q q' k k' v v' a a' : Tensor4 R)
    (mask : option (Tensor3 Z)) (Pq Pk : nat -> nat -> Prop)
    (B H Lq Lk d : nat) :
  shape4 q = (B, H, Lq, d) -> shape4 k = (B, H, Lk, d) ->
  shape4 v = (B, H, Lk, d) ->
  agree4 Pq q q' -> agree4 Pk k k' -> agree4 Pk v v' ->
  attends_within mask Pq Pk B Lq Lk ->
  ScaledDotProductAttention_forward self None q k v mask = Ok a ->
  ScaledDotProductAttention_forward self None q' k' v' mask = Ok a' ->
  agree4 Pq a a'.
Proof.
  intros Hq Hk Hv Aq Ak Av Hatt E E'.
  assert (Hq' : shape4 q' = (B, H, Lq, d)) by (destruct Aq; congruence).
  assert (Hk' : shape4 k' = (B, H, Lk, d)) by (destruct Ak; congruence).
  assert (Hv' : shape4 v' = (B, H, Lk, d)) by (destruct Av; congruence).
  destruct (@ScaledDotProductAttention_forward_eval self q k v a mask
              B H Lq Lk d Hq Hk Hv E) as [Sa Fa].
  destruct (@ScaledDotProductAttention_forward_eval self q' k' v' a' mask
              B H Lq Lk d Hq' Hk' Hv' E') as [Sa' Fa'].
  split; [congruence |].
  unfold shape4 in Sa. injection Sa as A0 A1 A2 A3.
  intros b h i c Hb Hh Hi Hc HP. rewrite A0 in Hb. rewrite A1 in Hh.
  rewrite A2 in Hi. rewrite A3 in Hc.
  rewrite (Fa b h i c Hb Hh Hi Hc), (Fa' b h i c Hb Hh Hi Hc).
  apply Rsum_ext. intros j Hj.
  assert (Hu : forall t, t < Lk ->
                 unnormalised q k mask b h i t
                 = unnormalised q' k' mask b h i t).
  { intros t Ht. eapply unnormalised_agree; eassumption. }
  assert (Hw : attention_weight q k mask b h i j
               = attention_weight q' k' mask b h i j).
  { unfold attention_weight.
    replace (s2 k) with Lk by (shapes; congruence).
    replace (s2 k') with Lk by (shapes; congruence).
    rewrite (Hu j Hj).
    rewrite (@Rsum_ext Lk (fun t => unnormalised q k mask b h i t)
               (fun t => unnormalised q' k' mask b h i t) Hu).
    reflexivity. }
  rewrite <- Hw.
  destruct (visible mask b i j) eqn:Hvis.
  - pose proof (Hatt b i j Hb Hi Hj HP Hvis) as HPk.
    destruct Av as [_ Av].
    assert (Hvv : at4 v b h j c = at4 v' b h j c).
    { apply Av; try exact HPk; shapes; lia. }
    rewrite Hvv. reflexivity.
  - unfold attention_weight, unnormalised at 1 3. rewrite Hvis.
    unfold Rdiv. rewrite !Rmult_0_l. reflexivity.
Qed.

(** ** Splitting into heads and merging them *)

Lemma split_heads_agree (P : nat -> nat -> Prop) (x x' : Tensor3 R)
    (y y' : Tensor4 R) (B L H d : nat) :
  shape3 x = (B, L, H * d) -> agree3 P x x' ->
  view_3_4 x B L H d = Ok y -> view_3_4 x' B L H d = Ok y' ->
  shape4 (transpose_1_2 y) = (B, H, L, d)
  /\ agree4 P (transpose_1_2 y) (transpose_1_2 y').
Proof.
  intros Hx [Hs Ha] Ey Ey'.
  assert (Hx' : shape3 x' = (B, L, H * d)) by congruence.
  unfold shape3 in Hx, Hx'. injection Hx as X0 X1 X2.
  injection Hx' as X0' X1' X2'.
  assert (Sy : shape4 y = (B, L, H, d)).
  { unfold view_3_4 in Ey. destruct (_ =? _); [| discriminate].
    injection Ey as <-. reflexivity. }
  assert (Sy' : shape4 y' = (B, L, H, d)).
  { unfold view_3_4 in Ey'. destruct (_ =? _); [| discriminate].
    injection Ey' as <-. reflexivity. }
  unfold shape4 in Sy, Sy'. injection Sy as Y0 Y1 Y2 Y3.
  injection Sy' as Y0' Y1' Y2' Y3'.
  split; [unfold shape4; cbn [transpose_1_2 s0 s1 s2 s3]; congruence |].
  split; [unfold shape4; cbn [transpose_1_2 s0 s1 s2 s3]; congruence |].
  cbn [transpose_1_2 s0 s1 s2 s3 at4]. intros b h l c Hb Hh Hl Hc HP.
  rewrite Y0 in Hb. rewrite Y2 in Hh. rewrite Y1 in Hl. rewrite Y3 in Hc.
  destruct (@view_3_4_at _ x B L H d y b l h c Ey X1 X2 Hl Hh Hc) as [_ ->].
  destruct (@view_3_4_at _ x' B L H d y' b l h c Ey' X1' X2' Hl Hh Hc)
    as [_ ->].
  apply Ha; try assumption; try lia. nia.
Qed.

Lemma merge_heads_agree (P : nat -> nat -> Prop) (a a' : Tensor4 R)
    (y y' : Tensor3 R) (B L H d : nat) :
  shape4 a = (B, H, L, d) -> agree4 P a a' ->
  view_4_3 (contiguous (transpose_1_2 a)) B L (H * d) = Ok y ->
  view_4_3 (contiguous (transpose_1_2 a')) B L (H * d) = Ok y' ->
  shape3 y = (B, L, H * d) /\ agree3 P y y'.
Proof.
  intros Hsa [Hs Ha] Ey Ey'.
  assert (Hsa' : shape4 a' = (B, H, L, d)) by congruence.
  unfold shape4 in Hsa, Hsa'. injection Hsa as A0 A1 A2 A3.
  injection Hsa' as A0' A1' A2' A3'.
  assert (Sy : shape3 y = (B, L, H * d)).
  { unfold view_4_3 in Ey. destruct (_ =? _); [| discriminate].
    injection Ey as <-. reflexivity. }
  assert (Sy' : shape3 y' = (B, L, H * d)).
  { unfold view_4_3 in Ey'. destruct (_ =? _); [| discriminate].
    injection Ey' as <-. reflexivity. }
  split; [exact Sy |]. split; [congruence |].
  unfold shape3 in Sy. injection Sy as Y0 Y1 Y2.
  intros b l e Hb Hl He HP. rewrite Y0 in Hb. rewrite Y1 in Hl.
  rewrite Y2 in He.
  destruct (@view_4_3_at _ (contiguous (transpose_1_2 a)) B L H d y b l e Ey)
    as [_ ->]; try assumption.
  destruct (@view_4_3_at _ (contiguous (transpose_1_2 a')) B L H d y' b l e
              Ey') as [_ ->]; try assumption.
  cbn [contiguous transpose_1_2 at4].
  assert (Hd : 0 < d) by nia.
  apply Ha; try assumption.
  - lia.
  - rewrite A1. apply Nat.Div0.div_lt_upper_bound. lia.
  - lia.
  - rewrite A3. apply Nat.mod_upper_bound. lia.
Qed.

Lemma returns_inv {A} (r : result A) (P : A -> Prop) (a : A) :
  returns r P -> r = Ok a -> P a.
Proof. intros (a' & E & Ha) E'. rewrite E in E'. injection E' as <-. exact Ha. Qed.

Lemma Linear_forward_shape (m : Linear) (x y : Tensor3 R) (i o : nat) :
  wf_Linear m i o -> Linear_forward m x = Ok y ->
  shape3 y = (dim0 x, dim1 x, o).
Proof.
  intros (Hr & _) E. unfold Linear_forward in E.
  destruct (_ && _); [| discriminate]. injection E as <-.
  unfold shape3; cbn [dim0 dim1 dim2]. congruence.
Qed.

Lemma MultiHeadAttention_forward_agree (self : MultiHeadAttention)
    (Pq Pk : nat -> nat -> Prop) (q q' k k' v v' y y' : Tensor3 R)
    (mask : option (Tensor3 Z)) (B Lq Lk E : nat) :
  wf_MultiHeadAttention self E ->
  shape3 q = (B, Lq, E) -> shape3 k = (B, Lk, E) -> shape3 v = (B, Lk, E) ->
  agree3 Pq q q' -> agree3 Pk k k' -> agree3 Pk v v' ->
  attends_within mask Pq Pk B Lq Lk ->
  MultiHeadAttention_forward self None q k v mask = Ok y ->
  MultiHeadAttention_forward self None q' k' v' mask = Ok y' ->
  shape3 y = (B, Lq, E) /\ agree3 Pq y y'.
Proof.
  intros (HE & HH & Wq & Wk & Wv & Wp) Sq Sk Sv Aq Ak Av Hatt Ey Ey'.
  assert (Sq' : shape3 q' = (B, Lq, E)) by (destruct Aq; congruence).
  assert (Sk' : shape3 k' = (B, Lk, E)) by (destruct Ak; congruence).
  assert (Sv' : shape3 v' = (B, Lk, E)) by (destruct Av; congruence).
  unfold MultiHeadAttention_forward in Ey, Ey'.
  apply bind_Ok_inv in Ey. destruct Ey as (q1 & Eq1 & Ey).
  apply bind_Ok_inv in Ey. destruct Ey as (k1 & Ek1 & Ey).
  apply bind_Ok_inv in Ey. destruct Ey as (v1 & Ev1 & Ey).
  apply bind_Ok_inv in Ey. destruct Ey as (q2 & Eq2 & Ey).
  apply bind_Ok_inv in Ey. destruct Ey as (k2 & Ek2 & Ey).
  apply bind_Ok_inv in Ey. destruct Ey as (v2 & Ev2 & Ey).
  apply bind_Ok_inv in Ey. destruct Ey as (a & Ea & Ey).
  apply bind_Ok_inv in Ey. destruct Ey as (m & Em & Ey).
  apply bind_Ok_inv in Ey'. destruct Ey' as (q1' & Eq1' & Ey').
  apply bind_Ok_inv in Ey'. destruct Ey' as (k1' & Ek1' & Ey').
  apply bind_Ok_inv in Ey'. destruct Ey' as (v1' & Ev1' & Ey').
  apply bind_Ok_inv in Ey'. destruct Ey' as (q2' & Eq2' & Ey').
  apply bind_Ok_inv in Ey'. destruct Ey' as (k2' & Ek2' & Ey').
  apply bind_Ok_inv in Ey'. destruct Ey' as (v2' & Ev2' & Ey').
  apply bind_Ok_inv in Ey'. destruct Ey' as (a' & Ea' & Ey').
  apply bind_Ok_inv in Ey'. destruct Ey' as (m' & Em' & Ey').
  (* the projections *)
  assert (Aq1 : agree3 Pq q1 q1')
    by (eapply Linear_forward_agree; [exact Aq | exact Eq1 | exact Eq1']).
  assert (Ak1 : agree3 Pk k1 k1')
    by (eapply Linear_forward_agree; [exact Ak | exact Ek1 | exact Ek1']).
  assert (Av1 : agree3 Pk v1 v1')
    by (eapply Linear_forward_agree; [exact Av | exact Ev1 | exact Ev1']).
  assert (Sq1 : shape3 q1 = (dim0 q, dim1 q, E))
    by (eapply Linear_forward_shape; [exact Wq | exact Eq1]).
  assert (Sk1 : shape3 k1 = (dim0 k, dim1 k, E))
    by (eapply Linear_forward_shape; [exact Wk | exact Ek1]).
  assert (Sv1 : shape3 v1 = (dim0 v, dim1 v, E))
    by (eapply Linear_forward_shape; [exact Wv | exact Ev1]).
  assert (Sq1' : shape3 q1' = (dim0 q', dim1 q', E))
    by (eapply Linear_forward_shape; [exact Wq | exact Eq1']).
  assert (Sk1' : shape3 k1' = (dim0 k', dim1 k', E))
    by (eapply Linear_forward_shape; [exact Wk | exact Ek1']).
  assert (Sv1' : shape3 v1' = (dim0 v', dim1 v', E))
    by (eapply Linear_forward_shape; [exact Wv | exact Ev1']).
  unfold shape3 in Sq, Sk, Sv, Sq', Sk', Sv'.
  injection Sq as Q0 Q1 Q2. injection Sk as K0 K1 K2.
  injection Sv as V0 V1 V2. injection Sq' as Q0' Q1' Q2'.
  injection Sk' as K0' K1' K2'. injection Sv' as V0' V1' V2'.
  rewrite Q0, Q1 in Sq1. rewrite K0, K1 in Sk1. rewrite V0, V1 in Sv1.
  rewrite Q0', Q1' in Sq1'. rewrite K0', K1' in Sk1'.
  rewrite V0', V1' in Sv1'.
  rewrite <- HH in *. clear HH.
  (* the heads *)
  replace (dim0 q) with B in * by congruence.
  replace (dim0 q') with B in * by congruence.
  replace (dim1 q1) with Lq in * by (unfold shape3 in Sq1; congruence).
  replace (dim1 k1) with Lk in * by (unfold shape3 in Sk1; congruence).
  replace (dim1 v1) with Lk in * by (unfold shape3 in Sv1; congruence).
  replace (dim1 q1') with Lq in * by (unfold shape3 in Sq1'; congruence).
  replace (dim1 k1') with Lk in * by (unfold shape3 in Sk1'; congruence).
  replace (dim1 v1') with Lk in * by (unfold shape3 in Sv1'; congruence).
  destruct (@split_heads_agree Pq q1 q1' q2 q2' B Lq (n_heads self)
              (head_dim self) Sq1 Aq1 Eq2 Eq2') as [Sq3 Aq3].
  destruct (@split_heads_agree Pk k1 k1' k2 k2' B Lk (n_heads self)
              (head_dim self) Sk1 Ak1 Ek2 Ek2') as [Sk3 Ak3].
  destruct (@split_heads_agree Pk v1 v1' v2 v2' B Lk (n_heads self)
              (head_dim self) Sv1 Av1 Ev2 Ev2') as [Sv3 Av3].
  assert (Aa : agree4 Pq a a').
  { eapply ScaledDotProductAttention_forward_agree;
      [exact Sq3 | exact Sk3 | exact Sv3 | exact Aq3 | exact Ak3 | exact Av3
       | exact Hatt | exact Ea | exact Ea']. }
  destruct (@ScaledDotProductAttention_forward_eval (sdpa self) _ _ _ a mask
              B (n_heads self) Lq Lk (head_dim self) Sq3 Sk3 Sv3 Ea)
    as [Sa _].
  (* merging *)
  replace (s2 (transpose_1_2 q2)) with Lq in Em
    by (unfold shape4 in Sq3; congruence).
  assert (Sq3' : shape4 (transpose_1_2 q2')
                 = (B, n_heads self, Lq, head_dim self))
    by (destruct Aq3; congruence).
  replace (s2 (transpose_1_2 q2')) with Lq in Em'
    by (unfold shape4 in Sq3'; congruence).
  rewrite HE in Em, Em'.
  destruct (@merge_heads_agree Pq a a' m m' B Lq (n_heads self)
              (head_dim self) Sa Aa Em Em') as [Sm Am].
  split.
  - rewrite (@Linear_forward_shape (proj self) m y _ _ Wp Ey).
    unfold shape3 in Sm. congruence.
  - eapply Linear_forward_agree; [exact Am | exact Ey | exact Ey'].
Qed.

Lemma LayerNorm_forward_shape (m : LayerNorm) (x y : Tensor3 R) :
  LayerNorm_forward m x = Ok y -> shape3 y = shape3 x.
Proof.
  unfold LayerNorm_forward. destruct (_ && _); [| discriminate].
  intros E. injection E as <-. reflexivity.
Qed.

Lemma add3_shape (x a z : Tensor3 R) :
  shape3 a = shape3 x -> add3 x a = Ok z -> shape3 z = shape3 x.
Proof.
  intros H E. unfold shape3 in H. injection H as H0 H1 H2.
  unfold add3 in E. rewrite H0, H1, H2, !bdim_same in E. cbn [bind] in E.
  injection E as <-. reflexivity.
Qed.

Ltac inv_bind H :=
  let x := fresh "x" in
  let E := fresh "E" in
  apply bind_Ok_inv in H; destruct H as (x & E & H).

Lemma FeedForward_forward_agree (self : FeedForward)
    (P : nat -> nat -> Prop) (x x' y y' : Tensor3 R) (E F : nat) :
  wf_FeedForward self E F -> agree3 P x x' ->
  FeedForward_forward self None x = Ok y ->
  FeedForward_forward self None x' = Ok y' ->
  shape3 y = (dim0 x, dim1 x, E) /\ agree3 P y y'.
Proof.
  intros (W0 & W3) Ax Ey Ey'. unfold FeedForward_forward in Ey, Ey'.
  cbn [Dropout_forward3] in Ey, Ey'.
  apply bind_Ok_inv in Ey. destruct Ey as (u & Eu & Ey).
  apply bind_Ok_inv in Ey'. destruct Ey' as (u' & Eu' & Ey').
  assert (Au : agree3 P u u')
    by (eapply Linear_forward_agree; [exact Ax | exact Eu | exact Eu']).
  split.
  - rewrite (@Linear_forward_shape (ff_3 self) _ y _ _ W3 Ey).
    cbn [ReLU_forward map3 dim0 dim1].
    pose proof (@Linear_forward_shape (ff_0 self) x u _ _ W0 Eu) as Su.
    unfold shape3 in Su. congruence.
  - eapply Linear_forward_agree;
      [apply ReLU_forward_agree; exact Au | exact Ey | exact Ey'].
Qed.


Lemma residual_agree (d : Dropout) (P : nat -> nat -> Prop)
    (x x' a a' z z' : Tensor3 R) :
  shape3 a = shape3 x -> agree3 P x x' -> agree3 P a a' ->
  add3 x (Dropout_forward3 d None a) = Ok z ->
  add3 x' (Dropout_forward3 d None a') = Ok z' ->
  shape3 z = shape3 x /\ agree3 P z z'.
Proof.
  cbn [Dropout_forward3]. intros Sa Ax Aa Ez Ez'. split.
  - eapply add3_shape; [exact Sa | exact Ez].
  - eapply add3_agree; [exact Sa | exact Ax | exact Aa | exact Ez | exact Ez'].
Qed.

Lemma LayerNorm_forward_agree_shape (m : LayerNorm) (P : nat -> nat -> Prop)
    (x x' y y' : Tensor3 R) :
  agree3 P x x' ->
  LayerNorm_forward m x = Ok y -> LayerNorm_forward m x' = Ok y' ->
  shape3 y = shape3 x /\ agree3 P y y'.
Proof.
  intros Ax Ey Ey'. split.
  - eapply LayerNorm_forward_shape. exact Ey.
  - eapply LayerNorm_forward_agree; [exact Ax | exact Ey | exact Ey'].
Qed.

Lemma EncoderLayer_forward_agree (self : EncoderLayer)
    (P : nat -> nat -> Prop) (x x' y y' : Tensor3 R)
    (mask : option (Tensor3 Z)) (B L E F : nat) :
  wf_EncoderLayer E F self -> shape3 x = (B, L, E) -> agree3 P x x' ->
  attends_within mask P P B L L ->
  EncoderLayer_forward self None x mask = Ok y ->
  EncoderLayer_forward self None x' mask = Ok y' ->
  shape3 y = (B, L, E) /\ agree3 P y y'.
Proof.
  intros (Wff & Wmha & W1 & W2) Sx Ax Hatt Ey Ey'.
  unfold EncoderLayer_forward in Ey, Ey'. cbn [sub option_map] in Ey, Ey'.
  destruct (enc_post_ln self).
  - apply bind_Ok_inv in Ey. destruct Ey as (a & Ea & Ey).
    apply bind_Ok_inv in Ey. destruct Ey as (s & Es & Ey).
    apply bind_Ok_inv in Ey. destruct Ey as (att & Eatt & Ey).
    apply bind_Ok_inv in Ey. destruct Ey as (f & Ef & Ey).
    apply bind_Ok_inv in Ey. destruct Ey as (s2 & Es2 & Ey).
    apply bind_Ok_inv in Ey'. destruct Ey' as (a' & Ea' & Ey').
    apply bind_Ok_inv in Ey'. destruct Ey' as (s' & Es' & Ey').
    apply bind_Ok_inv in Ey'. destruct Ey' as (att' & Eatt' & Ey').
    apply bind_Ok_inv in Ey'. destruct Ey' as (f' & Ef' & Ey').
    apply bind_Ok_inv in Ey'. destruct Ey' as (s2' & Es2' & Ey').
    destruct (@MultiHeadAttention_forward_agree (enc_mha self) P P
                x x' x x' x x' a a' mask B L L E Wmha Sx Sx Sx Ax Ax Ax Hatt
                Ea Ea') as [Sa Aa].
    destruct (@residual_agree (enc_dropout1 self) P x x' a a' s s')
      as [Ss As]; try assumption; [congruence |].
    destruct (@LayerNorm_forward_agree_shape (enc_ln1 self) P s s' att att'
                As Eatt Eatt') as [Satt Aatt].
    destruct (@FeedForward_forward_agree (enc_ff self) P att att' f f' E F
                Wff Aatt Ef Ef') as [Sf Af].
    assert (Satt' : shape3 att = (B, L, E)) by congruence.
    destruct (@residual_agree (enc_dropout2 self) P att att' f f' s2 s2')
      as [Ss2 As2]; try assumption.
    { rewrite Sf, Satt'. unfold shape3 in Satt'. congruence. }
    destruct (@LayerNorm_forward_agree_shape (enc_ln2 self) P s2 s2' y y'
                As2 Ey Ey') as [Sy Ay].
    split; [congruence | exact Ay].
  - apply bind_Ok_inv in Ey. destruct Ey as (x_ln & Eln & Ey).
    apply bind_Ok_inv in Ey. destruct Ey as (a & Ea & Ey).
    apply bind_Ok_inv in Ey. destruct Ey as (att & Eatt & Ey).
    apply bind_Ok_inv in Ey. destruct Ey as (att_ln & Eattln & Ey).
    apply bind_Ok_inv in Ey. destruct Ey as (f & Ef & Ey).
    apply bind_Ok_inv in Ey'. destruct Ey' as (x_ln' & Eln' & Ey').
    apply bind_Ok_inv in Ey'. destruct Ey' as (a' & Ea' & Ey').
    apply bind_Ok_inv in Ey'. destruct Ey' as (att' & Eatt' & Ey').
    apply bind_Ok_inv in Ey'. destruct Ey' as (att_ln' & Eattln' & Ey').
    apply bind_Ok_inv in Ey'. destruct Ey' as (f' & Ef' & Ey').
    destruct (@LayerNorm_forward_agree_shape (enc_ln1 self) P x x' x_ln x_ln'
                Ax Eln Eln') as [Sln Aln].
    assert (Sln' : shape3 x_ln = (B, L, E)) by congruence.
    destruct (@MultiHeadAttention_forward_agree (enc_mha self) P P
                x_ln x_ln' x_ln x_ln' x_ln x_ln' a a' mask B L L E Wmha
                Sln' Sln' Sln' Aln Aln Aln Hatt Ea Ea') as [Sa Aa].
    destruct (@residual_agree (enc_dropout1 self) P x x' a a' att att')
      as [Satt Aatt]; try assumption; [congruence |].
    assert (Satt' : shape3 att = (B, L, E)) by congruence.
    destruct (@LayerNorm_forward_agree_shape (enc_ln2 self) P att att'
                att_ln att_ln' Aatt Eattln Eattln') as [Saln Aaln].
    destruct (@FeedForward_forward_agree (enc_ff self) P att_ln att_ln' f f'
                E F Wff Aaln Ef Ef') as [Sf Af].
    destruct (@residual_agree (enc_dropout2 self) P att att' f f' y y')
      as [Sy Ay]; try assumption.
    { rewrite Sf. unfold shape3 in Saln, Satt'. unfold shape3. congruence. }
    split; [congruence | exact Ay].
Qed.

Lemma encoder_loop_agree (layers : list EncoderLayer)
    (P : nat -> nat -> Prop) (mask : option (Tensor3 Z)) (B L E F : nat) :
  Forall (wf_EncoderLayer E F) layers ->
  attends_within mask P P B L L ->
  forall i x x' y y',
    shape3 x = (B, L, E) -> agree3 P x x' ->
    encoder_loop layers i None x mask = Ok y ->
    encoder_loop layers i None x' mask = Ok y' ->
    shape3 y = (B, L, E) /\ agree3 P y y'.
Proof.
  intros Hwf Hatt.
  induction Hwf as [| l rest Hl _ IH]; intros i x x' y y' Sx Ax Ey Ey';
    cbn [encoder_loop] in Ey, Ey'.
  - injection Ey as <-. injection Ey' as <-. split; assumption.
  - cbn [sub option_map] in Ey, Ey'.
    apply bind_Ok_inv in Ey. destruct Ey as (u & Eu & Ey).
    apply bind_Ok_inv in Ey'. destruct Ey' as (u' & Eu' & Ey').
    destruct (@EncoderLayer_forward_agree l P x x' u u' mask B L E F
                Hl Sx Ax Hatt Eu Eu') as [Su Au].
    exact (IH (S i) u u' y y' Su Au Ey Ey').
Qed.

Lemma Encoder_forward_agree (self : Encoder) (P : nat -> nat -> Prop)
    (x x' y y' : Tensor3 R) (mask : option (Tensor3 Z)) (B L E F : nat) :
  wf_Encoder E F self -> shape3 x = (B, L, E) -> agree3 P x x' ->
  attends_within mask P P B L L ->
  Encoder_forward self None x mask = Ok y ->
  Encoder_forward self None x' mask = Ok y' ->
  shape3 y = (B, L, E) /\ agree3 P y y'.
Proof.
  intros (Hl & Hf) Sx Ax Hatt Ey Ey'. unfold Encoder_forward in Ey, Ey'.
  apply bind_Ok_inv in Ey. destruct Ey as (u & Eu & Ey).
  apply bind_Ok_inv in Ey'. destruct Ey' as (u' & Eu' & Ey').
  destruct (@encoder_loop_agree (encoder_layers self) P mask B L E F Hl Hatt
              0 x x' u u' Sx Ax Eu Eu') as [Su Au].
  destruct (enc_final_ln self) as [ln |].
  - destruct (@LayerNorm_forward_agree_shape ln P u u' y y' Au Ey Ey')
      as [Sy Ay].
    split; [congruence | exact Ay].
  - injection Ey as <-. injection Ey' as <-. split; assumption.
Qed.

Lemma causal_visible (Lt b i j : nat) :
  i < Lt -> j < Lt ->
  visible (Some (unsqueeze3_0 (create_causal_mask Lt))) b i j = (j <=? i).
Proof.
  intros Hi Hj. cbn [visible unsqueeze3_0 dim0 dim1 dim2 at3].
  destruct (causal_mask_shape Lt) as [-> ->].
  rewrite (bidx_lt Hi), (bidx_lt Hj), causal_mask_entry.
  destruct (j <=? i); reflexivity.
Qed.

Lemma causal_attends_within (P : nat -> nat -> Prop) (B Lt : nat) :
  (forall b i j, P b i -> j <= i -> P b j) ->
  attends_within (Some (unsqueeze3_0 (create_causal_mask Lt))) P P B Lt Lt.
Proof.
  intros Hdown b i j _ Hi Hj HP Hvis.
  rewrite (causal_visible b Hi Hj) in Hvis. apply Nat.leb_le in Hvis.
  exact (Hdown b i j HP Hvis).
Qed.

Lemma DecoderLayer_forward_agree (self : DecoderLayer)
    (Pq Pk : nat -> nat -> Prop) (x x' memory memory' y y' : Tensor3 R)
    (causal_mask : Tensor3 Z) (encoder_mask : option (Tensor3 Z))
    (B Lt Ls E F : nat) :
  wf_DecoderLayer E F self ->
  shape3 x = (B, Lt, E) -> shape3 memory = (B, Ls, E) ->
  agree3 Pq x x' -> agree3 Pk memory memory' ->
  attends_within (Some causal_mask) Pq Pq B Lt Lt ->
  attends_within encoder_mask Pq Pk B Lt Ls ->
  DecoderLayer_forward self None x memory causal_mask encoder_mask = Ok y ->
  DecoderLayer_forward self None x' memory' causal_mask encoder_mask
  = Ok y' ->
  shape3 y = (B, Lt, E) /\ agree3 Pq y y'.
Proof.
  intros (Wff & Wmha & Wmmha & W1 & W2 & W3) Sx Sm Ax Am Hc He Ey Ey'.
  unfold DecoderLayer_forward in Ey, Ey'. cbn [sub option_map] in Ey, Ey'.
  destruct (dec_post_ln self).
  - apply bind_Ok_inv in Ey. destruct Ey as (a & Ea & Ey).
    apply bind_Ok_inv in Ey. destruct Ey as (s & Es & Ey).
    apply bind_Ok_inv in Ey. destruct Ey as (att & Eatt & Ey).
    apply bind_Ok_inv in Ey. destruct Ey as (c & Ec & Ey).
    apply bind_Ok_inv in Ey. destruct Ey as (s2 & Es2 & Ey).
    apply bind_Ok_inv in Ey. destruct Ey as (att2 & Eatt2 & Ey).
    apply bind_Ok_inv in Ey. destruct Ey as (f & Ef & Ey).
    apply bind_Ok_inv in Ey. destruct Ey as (s3 & Es3 & Ey).
    apply bind_Ok_inv in Ey'. destruct Ey' as (a' & Ea' & Ey').
    apply bind_Ok_inv in Ey'. destruct Ey' as (s' & Es' & Ey').
    apply bind_Ok_inv in Ey'. destruct Ey' as (att' & Eatt' & Ey').
    apply bind_Ok_inv in Ey'. destruct Ey' as (c' & Ec' & Ey').
    apply bind_Ok_inv in Ey'. destruct Ey' as (s2' & Es2' & Ey').
    apply bind_Ok_inv in Ey'. destruct Ey' as (att2' & Eatt2' & Ey').
    apply bind_Ok_inv in Ey'. destruct Ey' as (f' & Ef' & Ey').
    apply bind_Ok_inv in Ey'. destruct Ey' as (s3' & Es3' & Ey').
    destruct (@MultiHeadAttention_forward_agree (dec_mmha self) Pq Pq
                x x' x x' x x' a a' (Some causal_mask) B Lt Lt E Wmmha
                Sx Sx Sx Ax Ax Ax Hc Ea Ea') as [Sa Aa].
    destruct (@residual_agree (dec_dropout1 self) Pq x x' a a' s s')
      as [Ss As]; try assumption; [congruence |].
    destruct (@LayerNorm_forward_agree_shape (dec_ln1 self) Pq s s' att att'
                As Eatt Eatt') as [Satt Aatt].
    assert (Satt' : shape3 att = (B, Lt, E)) by congruence.
    destruct (@MultiHeadAttention_forward_agree (dec_mha self) Pq Pk
                att att' memory memory' memory memory' c c' encoder_mask
                B Lt Ls E Wmha Satt' Sm Sm Aatt Am Am He Ec Ec') as [Sc Ac].
    destruct (@residual_agree (dec_dropout2 self) Pq att att' c c' s2 s2')
      as [Ss2 As2]; try assumption; [congruence |].
    destruct (@LayerNorm_forward_agree_shape (dec_ln2 self) Pq s2 s2'
                att2 att2' As2 Eatt2 Eatt2') as [Satt2 Aatt2].
    assert (Satt2' : shape3 att2 = (B, Lt, E)) by congruence.
    destruct (@FeedForward_forward_agree (dec_ff self) Pq att2 att2' f f' E F
                Wff Aatt2 Ef Ef') as [Sf Af].
    destruct (@residual_agree (dec_dropout3 self) Pq att2 att2' f f' s3 s3')
      as [Ss3 As3]; try assumption.
    { rewrite Sf, Satt2'. unfold shape3 in Satt2'. congruence. }
    destruct (@LayerNorm_forward_agree_shape (dec_ln3 self) Pq s3 s3' y y'
                As3 Ey Ey') as [Sy Ay].
    split; [congruence | exact Ay].
  - apply bind_Ok_inv in Ey. destruct Ey as (x_ln & Eln & Ey).
    apply bind_Ok_inv in Ey. destruct Ey as (a & Ea & Ey).
    apply bind_Ok_inv in Ey. destruct Ey as (att & Eatt & Ey).
    apply bind_Ok_inv in Ey. destruct Ey as (att_ln & Eattln & Ey).
    apply bind_Ok_inv in Ey. destruct Ey as (c & Ec & Ey).
    apply bind_Ok_inv in Ey. destruct Ey as (att2 & Eatt2 & Ey).
    apply bind_Ok_inv in Ey. destruct Ey as (att2_ln & Eatt2ln & Ey).
    apply bind_Ok_inv in Ey. destruct Ey as (f & Ef & Ey).
    apply bind_Ok_inv in Ey'. destruct Ey' as (x_ln' & Eln' & Ey').
    apply bind_Ok_inv in Ey'. destruct Ey' as (a' & Ea' & Ey').
    apply bind_Ok_inv in Ey'. destruct Ey' as (att' & Eatt' & Ey').
    apply bind_Ok_inv in Ey'. destruct Ey' as (att_ln' & Eattln' & Ey').
    apply bind_Ok_inv in Ey'. destruct Ey' as (c' & Ec' & Ey').
    apply bind_Ok_inv in Ey'. destruct Ey' as (att2' & Eatt2' & Ey').
    apply bind_Ok_inv in Ey'. destruct Ey' as (att2_ln' & Eatt2ln' & Ey').
    apply bind_Ok_inv in Ey'. destruct Ey' as (f' & Ef' & Ey').
    destruct (@LayerNorm_forward_agree_shape (dec_ln1 self) Pq x x' x_ln x_ln'
                Ax Eln Eln') as [Sln Aln].
    assert (Sln' : shape3 x_ln = (B, Lt, E)) by congruence.
    destruct (@MultiHeadAttention_forward_agree (dec_mmha self) Pq Pq
                x_ln x_ln' x_ln x_ln' x_ln x_ln' a a' (Some causal_mask)
                B Lt Lt E Wmmha Sln' Sln' Sln' Aln Aln Aln Hc Ea Ea')
      as [Sa Aa].
    destruct (@residual_agree (dec_dropout1 self) Pq x x' a a' att att')
      as [Satt Aatt]; try assumption; [congruence |].
    assert (Satt' : shape3 att = (B, Lt, E)) by congruence.
    destruct (@LayerNorm_forward_agree_shape (dec_ln2 self) Pq att att'
                att_ln att_ln' Aatt Eattln Eattln') as [Saln Aaln].
    assert (Saln' : shape3 att_ln = (B, Lt, E)) by congruence.
    destruct (@MultiHeadAttention_forward_agree (dec_mha self) Pq Pk
                att_ln att_ln' memory memory' memory memory' c c'
                encoder_mask B Lt Ls E Wmha Saln' Sm Sm Aaln Am Am He Ec Ec')
      as [Sc Ac].
    destruct (@residual_agree (dec_dropout2 self) Pq att att' c c' att2 att2')
      as [Satt2 Aatt2]; try assumption; [congruence |].
    assert (Satt2' : shape3 att2 = (B, Lt, E)) by congruence.
    destruct (@LayerNorm_forward_agree_shape (dec_ln3 self) Pq att2 att2'
                att2_ln att2_ln' Aatt2 Eatt2ln Eatt2ln') as [Sa2ln Aa2ln].
    destruct (@FeedForward_forward_agree (dec_ff self) Pq att2_ln att2_ln'
                f f' E F Wff Aa2ln Ef Ef') as [Sf Af].
    destruct (@residual_agree (dec_dropout3 self) Pq att2 att2' f f' y y')
      as [Sy Ay]; try assumption.
    { rewrite Sf. unfold shape3 in Sa2ln, Satt2'. unfold shape3. congruence. }
    split; [congruence | exact Ay].
Qed.

Lemma decoder_loop_agree (layers : list DecoderLayer)
    (Pq Pk : nat -> nat -> Prop) (memory memory' : Tensor3 R)
    (tgt_mask : Tensor3 Z) (encoder_mask : option (Tensor3 Z))
    (B Lt Ls E F : nat) :
  Forall (wf_DecoderLayer E F) layers ->
  shape3 memory = (B, Ls, E) -> agree3 Pk memory memory' ->
  attends_within (Some tgt_mask) Pq Pq B Lt Lt ->
  attends_within encoder_mask Pq Pk B Lt Ls ->
  forall i x x' y y',
    shape3 x = (B, Lt, E) -> agree3 Pq x x' ->
    decoder_loop layers i None x memory tgt_mask encoder_mask = Ok y ->
    decoder_loop layers i None x' memory' tgt_mask encoder_mask = Ok y' ->
    shape3 y = (B, Lt, E) /\ agree3 Pq y y'.
Proof.
  intros Hwf Sm Am Hc He.
  induction Hwf as [| l rest Hl _ IH]; intros i x x' y y' Sx Ax Ey Ey';
    cbn [decoder_loop] in Ey, Ey'.
  - injection Ey as <-. injection Ey' as <-. split; assumption.
  - cbn [sub option_map] in Ey, Ey'.
    apply bind_Ok_inv in Ey. destruct Ey as (u & Eu & Ey).
    apply bind_Ok_inv in Ey'. destruct Ey' as (u' & Eu' & Ey').
    destruct (@DecoderLayer_forward_agree l Pq Pk x x' memory memory' u u'
                tgt_mask encoder_mask B Lt Ls E F Hl Sx Sm Ax Am Hc He
                Eu Eu') as [Su Au].
    exact (IH (S i) u u' y y' Su Au Ey Ey').
Qed.

Lemma Decoder_forward_agree (self : Decoder) (Pq Pk : nat -> nat -> Prop)
    (x x' memory memory' y y' : Tensor3 R)
    (encoder_mask : option (Tensor3 Z)) (B Lt Ls E F : nat) :
  wf_Decoder E F self ->
  shape3 x = (B, Lt, E) -> shape3 memory = (B, Ls, E) ->
  agree3 Pq x x' -> agree3 Pk memory memory' ->
  (forall b i j, Pq b i -> j <= i -> Pq b j) ->
  attends_within encoder_mask Pq Pk B Lt Ls ->
  Decoder_forward self None x memory encoder_mask = Ok y ->
  Decoder_forward self None x' memory' encoder_mask = Ok y' ->
  shape3 y = (B, Lt, E) /\ agree3 Pq y y'.
Proof.
  intros (Hl & Hf) Sx Sm Ax Am Hdown He Ey Ey'.
  unfold Decoder_forward in Ey, Ey'.
  assert (Sx' : shape3 x' = (B, Lt, E)) by (destruct Ax; congruence).
  replace (dim1 x) with Lt in Ey by (unfold shape3 in Sx; congruence).
  replace (dim1 x') with Lt in Ey' by (unfold shape3 in Sx'; congruence).
  apply bind_Ok_inv in Ey. destruct Ey as (u & Eu & Ey).
  apply bind_Ok_inv in Ey'. destruct Ey' as (u' & Eu' & Ey').
  destruct (@decoder_loop_agree (decoder_layers self) Pq Pk memory memory'
              (unsqueeze3_0 (create_causal_mask Lt)) encoder_mask
              B Lt Ls E F Hl Sm Am (@causal_attends_within Pq B Lt Hdown) He
              0 x x' u u' Sx Ax Eu Eu') as [Su Au].
  destruct (dec_final_ln self) as [ln |].
  - destruct (@LayerNorm_forward_agree_shape ln Pq u u' y y' Au Ey Ey')
      as [Sy Ay].
    split; [congruence | exact Ay].
  - injection Ey as <-. injection Ey' as <-. split; assumption.
Qed.

(** ** [encode] and [decode] on inputs that agree at selected positions *)

Lemma embed_value_agree (self self' : Transformer) (mods : Modules)
    (P : nat -> nat -> Prop) (ids ids' : Tensor2 Z) (x x' : Tensor3 R) :
  sqrt_dmodel self' = sqrt_dmodel self ->
  agree2 (pos_enc self) (pos_enc self') ->
  agree_ids P ids ids' ->
  embed_value self mods ids = Ok x -> embed_value self' mods ids' = Ok x' ->
  shape3 x = (rows ids, cols ids, cols (emb_weight (embeddings mods)))
  /\ agree3 P x x'.
Proof.
  intros Hsq [Sp Ap] [Si Ai] Ex Ex'.
  unfold shape2 in Sp, Si. injection Sp as P0 P1. injection Si as I0 I1.
  unfold embed_value, embedding in Ex, Ex'.
  destruct (ids_in_range _ ids); [| discriminate].
  destruct (ids_in_range _ ids'); [| discriminate].
  cbn [bind] in Ex, Ex'. unfold iadd3_2 in Ex, Ex'.
  cbn [imul3 map3 dim0 dim1 dim2 at3 slice_rows rows cols at2] in Ex, Ex'.
  destruct (expandable (Nat.min (cols ids) (rows (pos_enc self))) (cols ids))
    eqn:X1; [| discriminate].
  destruct (expandable (cols (pos_enc self))
              (cols (emb_weight (embeddings mods)))) eqn:X2; [| discriminate].
  cbn [andb] in Ex.
  match type of Ex' with
  | (if ?c then _ else _) = _ => destruct c; [| discriminate]
  end.
  injection Ex as <-. injection Ex' as <-.
  split; [reflexivity |].
  split; [unfold shape3; cbn [dim0 dim1 dim2]; congruence |].
  cbn [dim0 dim1 dim2 at3]. intros b l e Hb Hl He HP.
  rewrite <- P0, <- P1, <- I1, Hsq, (Ai b l Hb Hl HP).
  f_equal. apply Ap.
  - apply expandable_spec in X1. unfold bidx.
    destruct (Nat.eqb_spec (Nat.min (cols ids) (rows (pos_enc self))) 1); lia.
  - apply expandable_spec in X2. unfold bidx.
    destruct (Nat.eqb_spec (cols (pos_enc self)) 1); lia.
Qed.

Lemma agree2_refl (x : Tensor2 R) : agree2 x x.
Proof. split; [reflexivity | intros; reflexivity]. Qed.

Lemma agree_ids_refl (P : nat -> nat -> Prop) (ids : Tensor2 Z) :
  agree_ids P ids ids.
Proof. split; [reflexivity | intros; reflexivity]. Qed.

Lemma encode_value_agree (self self' : Transformer) (mods : Modules)
    (P : nat -> nat -> Prop) (src src' : Tensor2 Z)
    (src_mask : option (Tensor2 Z))
    (r r' : Tensor3 R * option (Tensor3 Z)) (V E F : nat) :
  wf_Modules V E F mods ->
  sqrt_dmodel self' = sqrt_dmodel self -> dropout self' = dropout self ->
  agree2 (pos_enc self) (pos_enc self') ->
  agree_ids P src src' ->
  attends_within (option_map newaxis_1 src_mask) P P (rows src) (cols src)
                 (cols src) ->
  encode_value self mods None src src_mask = Ok r ->
  encode_value self' mods None src' src_mask = Ok r' ->
  shape3 (fst r) = (rows src, cols src, E)
  /\ agree3 P (fst r) (fst r')
  /\ snd r = option_map newaxis_1 src_mask
  /\ snd r' = option_map newaxis_1 src_mask.
Proof.
  intros (Wenc & _ & _ & HE & _) Hsq Hdr Hpe Hids Hatt Er Er'.
  unfold encode_value in Er, Er'. cbn [sub option_map Dropout_forward3] in *.
  apply bind_Ok_inv in Er. destruct Er as (x & Ex & Er).
  apply bind_Ok_inv in Er. destruct Er as (m & Em & Er).
  apply bind_Ok_inv in Er'. destruct Er' as (x' & Ex' & Er').
  apply bind_Ok_inv in Er'. destruct Er' as (m' & Em' & Er').
  injection Er as <-. injection Er' as <-. cbn [fst snd].
  destruct (@embed_value_agree self self' mods P src src' x x' Hsq Hpe Hids
              Ex Ex') as [Sx Ax].
  rewrite HE in Sx.
  destruct (@Encoder_forward_agree (encoder mods) P x x' m m'
              (option_map newaxis_1 src_mask) (rows src) (cols src) E F
              Wenc Sx Ax Hatt Em Em') as [Sm Am].
  split; [exact Sm | split; [exact Am | split; reflexivity]].
Qed.

Lemma decode_value_agree (self self' : Transformer) (mods : Modules)
    (Pq Pk : nat -> nat -> Prop) (memory memory' : Tensor3 R)
    (tgt tgt' : Tensor2 Z) (src_mask : option (Tensor3 Z))
    (y y' : Tensor3 R) (V E F Ls : nat) :
  wf_Modules V E F mods ->
  sqrt_dmodel self' = sqrt_dmodel self -> dropout self' = dropout self ->
  agree2 (pos_enc self) (pos_enc self') ->
  shape3 memory = (rows tgt, Ls, E) -> agree3 Pk memory memory' ->
  agree_ids Pq tgt tgt' ->
  (forall b i j, Pq b i -> j <= i -> Pq b j) ->
  attends_within src_mask Pq Pk (rows tgt) (cols tgt) Ls ->
  decode_value self mods None memory tgt src_mask = Ok y ->
  decode_value self' mods None memory' tgt' src_mask = Ok y' ->
  shape3 y = (rows tgt, cols tgt, V) /\ agree3 Pq y y'.
Proof.
  intros (_ & Wdec & _ & HE & Wfc) Hsq Hdr Hpe Sm Am Hids Hdown Hatt Ey Ey'.
  unfold decode_value in Ey, Ey'. cbn [sub option_map Dropout_forward3] in *.
  apply bind_Ok_inv in Ey. destruct Ey as (x & Ex & Ey).
  apply bind_Ok_inv in Ey. destruct Ey as (a & Ea & Ey).
  apply bind_Ok_inv in Ey'. destruct Ey' as (x' & Ex' & Ey').
  apply bind_Ok_inv in Ey'. destruct Ey' as (a' & Ea' & Ey').
  destruct (@embed_value_agree self self' mods Pq tgt tgt' x x' Hsq Hpe Hids
              Ex Ex') as [Sx Ax].
  rewrite HE in Sx.
  destruct (@Decoder_forward_agree (decoder mods) Pq Pk x x' memory memory'
              a a' src_mask (rows tgt) (cols tgt) Ls E F Wdec Sx Sm Ax Am
              Hdown Hatt Ea Ea') as [Sa Aa].
  split.
  - rewrite (@Linear_forward_shape (fc mods) a y _ _ Wfc Ey).
    unfold shape3 in Sa. congruence.
  - eapply Linear_forward_agree; [exact Aa | exact Ey | exact Ey'].
Qed.

(** ** Evaluation mode *)

Lemma mode_of_eval (self : Transformer) (noise : Noise) :
  training self = false -> mode_of self noise = None.
Proof. intros H. unfold mode_of. rewrite H. reflexivity. Qed.

Lemma wf_Transformer_eval (self : Transformer) (h : Heap) :
  wf_Transformer self h -> wf_Transformer (eval self) h.
Proof. intros H. exact H. Qed.

Lemma computes_Ok {A} (m : M A) (h : Heap) (r : result A) (a : A) :
  computes m h r -> r = Ok a -> exists h', m h = Ok (a, h').
Proof.
  intros Hc ->. destruct Hc as (h' & E & _). exists h'. exact E.
Qed.

Lemma everywhere_attends_within (mask : option (Tensor3 Z))
    (Pq : nat -> nat -> Prop) (B Lq Lk : nat) :
  attends_within mask Pq everywhere B Lq Lk.
Proof. intros b i j _ _ _ _ _. exact I. Qed.

Lemma agree_ids_shape (P : nat -> nat -> Prop) (ids ids' : Tensor2 Z)
    (B L : nat) :
  agree_ids P ids ids' -> shape2 ids = (B, L) -> shape2 ids' = (B, L).
Proof. intros [H _] Hs. congruence. Qed.

(** ** Causal noninterference *)

Lemma decode_value_causal (self : Transformer) (mods : Modules)
    (memory : Tensor3 R) (tgt tgt' : Tensor2 Z)
    (src_mask : option (Tensor3 Z)) (V E F B Ls Lt i : nat) :
  wf_Modules V E F mods ->
  cols (pos_enc self) = E ->
  shape3 memory = (B, Ls, E) -> shape2 tgt = (B, Lt) ->
  Lt <= rows (pos_enc self) ->
  valid_ids V tgt -> valid_ids V tgt' ->
  mask_fits src_mask B Lt Ls ->
  agree_ids (up_to i) tgt tgt' ->
  exists y y',
    decode_value self mods None memory tgt src_mask = Ok y
    /\ decode_value self mods None memory tgt' src_mask = Ok y'
    /\ shape3 y = (B, Lt, V) /\ shape3 y' = (B, Lt, V)
    /\ forall b l v, b < B -> l < Lt -> l <= i -> v < V ->
         at3 y b l v = at3 y' b l v.
Proof.
  intros Wf Hc Sm St HLt Vt Vt' Hfit Hag.
  pose proof (agree_ids_shape Hag St) as St'.
  destruct (@decode_value_returns self mods None memory tgt src_mask
              V E F B Ls Lt Wf Hc Sm St (or_introl HLt) Vt Hfit)
    as (y & Ey & Sy).
  destruct (@decode_value_returns self mods None memory tgt' src_mask
              V E F B Ls Lt Wf Hc Sm St' (or_introl HLt) Vt' Hfit)
    as (y' & Ey' & Sy').
  exists y, y'. split; [exact Ey |]. split; [exact Ey' |].
  split; [exact Sy |]. split; [exact Sy' |].
  assert (Hrows : rows tgt = B) by (unfold shape2 in St; congruence).
  assert (Hcols : cols tgt = Lt) by (unfold shape2 in St; congruence).
  destruct (@decode_value_agree self self mods (up_to i) everywhere
              memory memory tgt tgt' src_mask y y' V E F Ls Wf
              eq_refl eq_refl (agree2_refl _)) as [_ [_ Ay]];
    try assumption.
  - rewrite Hrows. exact Sm.
  - apply agree3_refl.
  - unfold up_to. intros b l j Hl Hj. lia.
  - apply everywhere_attends_within.
  - intros b l v Hb Hl Hi Hv. unfold shape3 in Sy. injection Sy as Y0 Y1 Y2.
    apply Ay; try lia. exact Hi.
Qed.

(** C2.  In evaluation mode, for a fixed source and fixed weights, the
    logits of [forward] and of [decode] at every target position [l <= i]
    are the same for two target sequences that agree at positions
    [0 .. i]. *)
Theorem causal_noninterference (self : Transformer) (h : Heap)
    (noise noise' : Noise) (src tgt tgt' : Tensor2 Z)
    (src_mask : option (Tensor2 Z)) (B Ls Lt i : nat) :
  wf_Transformer self h -> training self = false ->
  shape2 src = (B, Ls) -> shape2 tgt = (B, Lt) ->
  Ls <= max_len (config self) -> Lt <= max_len (config self) ->
  valid_ids (vocab_size (config self)) src ->
  valid_ids (vocab_size (config self)) tgt ->
  valid_ids (vocab_size (config self)) tgt' ->
  (forall m, src_mask = Some m -> shape2 m = (B, Ls)) ->
  agree_ids (up_to i) tgt tgt' ->
  let V := vocab_size (config self) in
  (exists y y' h1 h1',
     forward self noise src tgt src_mask h = Ok (y, h1)
     /\ forward self noise' src tgt' src_mask h = Ok (y', h1')
     /\ shape3 y = (B, Lt, V) /\ shape3 y' = (B, Lt, V)
     /\ forall b l v, b < B -> l < Lt -> l <= i -> v < V ->
          at3 y b l v = at3 y' b l v)
  /\ (forall memory mask3,
        shape3 memory = (B, Ls, cfg_embed_size (config self)) ->
        mask_fits mask3 B Lt Ls ->
        exists y y' h1 h1',
          decode self noise memory tgt mask3 h = Ok (y, h1)
          /\ decode self noise' memory tgt' mask3 h = Ok (y', h1')
          /\ shape3 y = (B, Lt, V) /\ shape3 y' = (B, Lt, V)
          /\ forall b l v, b < B -> l < Lt -> l <= i -> v < V ->
               at3 y b l v = at3 y' b l v).
Proof.
  intros (Wf & Hrows & Hcols & Hslots & Hsqrt) Htr Ss St HLs HLt Vs Vt Vt'
    Hmask Hag. cbv zeta.
  rewrite <- Hrows in HLs, HLt.
  split.
  - pose proof (forward_computes self noise src tgt src_mask h Hslots) as C.
    pose proof (forward_computes self noise' src tgt' src_mask h Hslots) as C'.
    rewrite (mode_of_eval self noise Htr) in C.
    rewrite (mode_of_eval self noise' Htr) in C'.
    unfold forward_value in C, C'.
    destruct (@encode_value_returns self (current_modules self h) None src
                src_mask _ _ _ B Ls Wf Hcols Ss (or_introl HLs) Vs Hmask)
      as ([memory mask3] & Er & Sm & Hm3).
    cbn [fst snd] in Sm, Hm3. rewrite Er in C, C'. cbn [bind fst snd] in C, C'.
    destruct (@decode_value_causal self (current_modules self h) memory
                tgt tgt' mask3 _ _ _ B Ls Lt i Wf Hcols Sm St HLt Vt Vt')
      as (y & y' & Ey & Ey' & Sy & Sy' & Hy).
    { rewrite Hm3. apply src_mask_fits. exact Hmask. }
    { exact Hag. }
    destruct (@computes_Ok _ _ _ _ _ C Ey) as (h1 & E1).
    destruct (@computes_Ok _ _ _ _ _ C' Ey') as (h1' & E1').
    exists y, y', h1, h1'. repeat split; assumption.
  - intros memory mask3 Sm Hfit.
    pose proof (decode_computes self noise memory tgt mask3 h Hslots) as C.
    pose proof (decode_computes self noise' memory tgt' mask3 h Hslots) as C'.
    rewrite (mode_of_eval self noise Htr) in C.
    rewrite (mode_of_eval self noise' Htr) in C'.
    destruct (@decode_value_causal self (current_modules self h) memory
                tgt tgt' mask3 _ _ _ B Ls Lt i Wf Hcols Sm St HLt Vt Vt'
                Hfit Hag)
      as (y & y' & Ey & Ey' & Sy & Sy' & Hy).
    destruct (@computes_Ok _ _ _ _ _ C Ey) as (h1 & E1).
    destruct (@computes_Ok _ _ _ _ _ C' Ey') as (h1' & E1').
    exists y, y', h1, h1'. repeat split; assumption.
Qed.

Lemma causal_noninterference_witness :
  exists self h y y' h1 h1',
    forward self keep_all (zeros_ids 2) (zeros_ids 3) None h = Ok (y, h1)
    /\ forward self keep_all (zeros_ids 2) (one_at 2 3) None h = Ok (y', h1')
    /\ at3 y 0 1 0 = at3 y' 0 1 0.
Proof.
  destruct (Transformer_init_runs small_config zero_rng empty_heap eq_refl)
    as (self & h & _ & Hc & _ & Hwf & _).
  assert (Hc' : config (eval self) = small_config) by exact Hc.
  assert (Hag : agree_ids (up_to 1) (zeros_ids 3) (one_at 2 3)).
  { split; [reflexivity |]. unfold up_to. intros b l _ _ Hl. cbn.
    destruct l as [| [| l]]; [reflexivity | reflexivity | lia]. }
  destruct (proj1 (@causal_noninterference (eval self) h keep_all keep_all
                     (zeros_ids 2) (zeros_ids 3) (one_at 2 3) None 1 2 3 1
                     (wf_Transformer_eval Hwf) eq_refl eq_refl eq_refl
                     ltac:(rewrite Hc'; cbn; lia) ltac:(rewrite Hc'; cbn; lia)
                     ltac:(rewrite Hc'; intros b l _ _; cbn; lia)
                     ltac:(rewrite Hc'; intros b l _ _; cbn; lia)
                     ltac:(rewrite Hc'; intros b l _ _; cbn;
                           destruct (l =? 2); lia)
                     ltac:(intros m Hm; discriminate Hm) Hag))
    as (y & y' & h1 & h1' & E & E' & _ & _ & Hy).
  exists (eval self), h, y, y', h1, h1'.
  split; [exact E |]. split; [exact E' |].
  apply Hy; [lia | lia | lia |]. rewrite Hc'. cbn. lia.
Defined.

(** ** Padding-mask noninterference *)

Lemma padding_attends_within (m : Tensor2 Z) (Pq : nat -> nat -> Prop)
    (B Lq Ls : nat) :
  shape2 m = (B, Ls) ->
  attends_within (Some (newaxis_1 m)) Pq (unmasked m) B Lq Ls.
Proof.
  intros Sm b i j Hb _ Hj _ Hvis. unfold shape2 in Sm. injection Sm as M0 M1.
  cbn [visible newaxis_1 dim0 dim1 dim2 at3] in Hvis.
  rewrite <- M0 in Hb. rewrite <- M1 in Hj.
  rewrite (bidx_lt Hb), (bidx_lt Hj) in Hvis.
  unfold unmasked. intros Hz. rewrite Hz in Hvis. discriminate Hvis.
Qed.

Lemma encode_value_padding (self : Transformer) (mods : Modules)
    (src src' : Tensor2 Z) (m : Tensor2 Z) (V E F B Ls : nat) :
  wf_Modules V E F mods ->
  cols (pos_enc self) = E ->
  shape2 src = (B, Ls) -> shape2 m = (B, Ls) ->
  Ls <= rows (pos_enc self) ->
  valid_ids V src -> valid_ids V src' ->
  agree_ids (unmasked m) src src' ->
  exists memory memory',
    encode_value self mods None src (Some m)
    = Ok (memory, Some (newaxis_1 m))
    /\ encode_value self mods None src' (Some m)
       = Ok (memory', Some (newaxis_1 m))
    /\ shape3 memory = (B, Ls, E)
    /\ agree3 (unmasked m) memory memory'.
Proof.
  intros Wf Hc Ss Sm HLs Vs Vs' Hag.
  pose proof (agree_ids_shape Hag Ss) as Ss'.
  assert (Hmask : forall m0, Some m = Some m0 -> shape2 m0 = (B, Ls)).
  { intros m0 H. injection H as <-. exact Sm. }
  destruct (@encode_value_returns self mods None src (Some m) V E F B Ls
              Wf Hc Ss (or_introl HLs) Vs Hmask)
    as ([memory k] & Er & Smem & Hk).
  destruct (@encode_value_returns self mods None src' (Some m) V E F B Ls
              Wf Hc Ss' (or_introl HLs) Vs' Hmask)
    as ([memory' k'] & Er' & Smem' & Hk').
  cbn [fst snd option_map] in *. subst k k'.
  exists memory, memory'. split; [exact Er |]. split; [exact Er' |].
  split; [exact Smem |].
  assert (Hrows : rows src = B) by (unfold shape2 in Ss; congruence).
  assert (Hcols : cols src = Ls) by (unfold shape2 in Ss; congruence).
  destruct (@encode_value_agree self self mods (unmasked m) src src' (Some m)
              (memory, Some (newaxis_1 m)) (memory', Some (newaxis_1 m))
              V E F Wf eq_refl eq_refl (agree2_refl _) Hag)
    as (_ & Am & _); try assumption.
  rewrite Hrows, Hcols. apply padding_attends_within. exact Sm.
Qed.

Lemma decode_value_padding (self : Transformer) (mods : Modules)
    (memory memory' : Tensor3 R) (tgt : Tensor2 Z) (m : Tensor2 Z)
    (V E F B Ls Lt : nat) :
  wf_Modules V E F mods ->
  cols (pos_enc self) = E ->
  shape3 memory = (B, Ls, E) -> agree3 (unmasked m) memory memory' ->
  shape2 tgt = (B, Lt) -> shape2 m = (B, Ls) ->
  Lt <= rows (pos_enc self) ->
  valid_ids V tgt ->
  exists y y',
    decode_value self mods None memory tgt (Some (newaxis_1 m)) = Ok y
    /\ decode_value self mods None memory' tgt (Some (newaxis_1 m)) = Ok y'
    /\ shape3 y = (B, Lt, V) /\ shape3 y' = (B, Lt, V)
    /\ forall b l v, b < B -> l < Lt -> v < V -> at3 y b l v = at3 y' b l v.
Proof.
  intros Wf Hc Smem Amem St Sm HLt Vt.
  assert (Smem' : shape3 memory' = (B, Ls, E))
    by (destruct Amem; congruence).
  assert (Hfit : mask_fits (Some (newaxis_1 m)) B Lt Ls).
  { apply (@src_mask_fits (Some m) B Lt Ls).
    intros m0 H. injection H as <-. exact Sm. }
  destruct (@decode_value_returns self mods None memory tgt
              (Some (newaxis_1 m)) V E F B Ls Lt Wf Hc Smem St
              (or_introl HLt) Vt Hfit) as (y & Ey & Sy).
  destruct (@decode_value_returns self mods None memory' tgt
              (Some (newaxis_1 m)) V E F B Ls Lt Wf Hc Smem' St
              (or_introl HLt) Vt Hfit) as (y' & Ey' & Sy').
  exists y, y'. split; [exact Ey |]. split; [exact Ey' |].
  split; [exact Sy |]. split; [exact Sy' |].
  assert (Hrows : rows tgt = B) by (unfold shape2 in St; congruence).
  assert (Hcols : cols tgt = Lt) by (unfold shape2 in St; congruence).
  destruct (@decode_value_agree self self mods everywhere (unmasked m)
              memory memory' tgt tgt (Some (newaxis_1 m)) y y' V E F Ls Wf
              eq_refl eq_refl (agree2_refl _)) as [_ [_ Ay]];
    try assumption.
  - rewrite Hrows. exact Smem.
  - apply agree_ids_refl.
  - intros b l j _ _. exact I.
  - rewrite Hrows, Hcols. apply padding_attends_within. exact Sm.
  - intros b l v Hb Hl Hv. unfold shape3 in Sy. injection Sy as Y0 Y1 Y2.
    apply Ay; try lia. exact I.
Qed.

(** C4.  In evaluation mode, for two sources that agree wherever the
    supplied [(B, Ls)] padding mask is not 0: [encode] returns memories
    that are equal at every unmasked source position, [forward] returns
    equal logits at every target position, and so does [decode] on two
    memories that are equal at the unmasked positions. *)
Theorem padding_noninterference (self : Transformer) (h : Heap)
    (noise noise' : Noise) (src src' tgt : Tensor2 Z) (m : Tensor2 Z)
    (B Ls Lt : nat) :
  wf_Transformer self h -> training self = false ->
  shape2 src = (B, Ls) -> shape2 tgt = (B, Lt) -> shape2 m = (B, Ls) ->
  Ls <= max_len (config self) -> Lt <= max_len (config self) ->
  valid_ids (vocab_size (config self)) src ->
  valid_ids (vocab_size (config self)) src' ->
  valid_ids (vocab_size (config self)) tgt ->
  agree_ids (unmasked m) src src' ->
  let V := vocab_size (config self) in
  let E := cfg_embed_size (config self) in
  (exists memory memory' h1 h1',
     encode self noise src (Some m) h
     = Ok ((memory, Some (newaxis_1 m)), h1)
     /\ encode self noise' src' (Some m) h
        = Ok ((memory', Some (newaxis_1 m)), h1')
     /\ shape3 memory = (B, Ls, E) /\ shape3 memory' = (B, Ls, E)
     /\ forall b l e, b < B -> l < Ls -> e < E -> at2 m b l <> 0%Z ->
          at3 memory b l e = at3 memory' b l e)
  /\ (exists y y' h1 h1',
        forward self noise src tgt (Some m) h = Ok (y, h1)
        /\ forward self noise' src' tgt (Some m) h = Ok (y', h1')
        /\ shape3 y = (B, Lt, V) /\ shape3 y' = (B, Lt, V)
        /\ forall b l v, b < B -> l < Lt -> v < V ->
             at3 y b l v = at3 y' b l v)
  /\ (forall memory memory',
        shape3 memory = (B, Ls, E) -> agree3 (unmasked m) memory memory' ->
        exists y y' h1 h1',
          decode self noise memory tgt (Some (newaxis_1 m)) h = Ok (y, h1)
          /\ decode self noise' memory' tgt (Some (newaxis_1 m)) h
             = Ok (y', h1')
          /\ shape3 y = (B, Lt, V) /\ shape3 y' = (B, Lt, V)
          /\ forall b l v, b < B -> l < Lt -> v < V ->
               at3 y b l v = at3 y' b l v).
Proof.
  intros (Wf & Hrows & Hcols & Hslots & Hsqrt) Htr Ss St Sm HLs HLt Vs Vs' Vt
    Hag. cbv zeta.
  rewrite <- Hrows in HLs, HLt.
  destruct (@encode_value_padding self (current_modules self h) src src' m
              _ _ _ B Ls Wf Hcols Ss Sm HLs Vs Vs' Hag)
    as (memory & memory' & Er & Er' & Smem & Amem).
  assert (Smem' : shape3 memory' = (B, Ls, cfg_embed_size (config self)))
    by (destruct Amem; congruence).
  split; [| split].
  - pose proof (encode_computes self noise src (Some m) h Hslots) as C.
    pose proof (encode_computes self noise' src' (Some m) h Hslots) as C'.
    rewrite (mode_of_eval self noise Htr) in C.
    rewrite (mode_of_eval self noise' Htr) in C'.
    destruct (@computes_Ok _ _ _ _ _ C Er) as (h1 & E1).
    destruct (@computes_Ok _ _ _ _ _ C' Er') as (h1' & E1').
    exists memory, memory', h1, h1'.
    split; [exact E1 |]. split; [exact E1' |].
    split; [exact Smem |]. split; [exact Smem' |].
    intros b l e Hb Hl He Hm. destruct Amem as [_ Amem].
    unfold shape3 in Smem. injection Smem as M0 M1 M2.
    apply Amem; try lia. exact Hm.
  - pose proof (forward_computes self noise src tgt (Some m) h Hslots) as C.
    pose proof (forward_computes self noise' src' tgt (Some m) h Hslots)
      as C'.
    rewrite (mode_of_eval self noise Htr) in C.
    rewrite (mode_of_eval self noise' Htr) in C'.
    unfold forward_value in C, C'. rewrite Er in C. rewrite Er' in C'.
    cbn [bind fst snd] in C, C'.
    destruct (@decode_value_padding self (current_modules self h)
                memory memory' tgt m _ _ _ B Ls Lt Wf Hcols Smem Amem St Sm
                HLt Vt) as (y & y' & Ey & Ey' & Sy & Sy' & Hy).
    destruct (@computes_Ok _ _ _ _ _ C Ey) as (h1 & E1).
    destruct (@computes_Ok _ _ _ _ _ C' Ey') as (h1' & E1').
    exists y, y', h1, h1'. repeat split; assumption.
  - intros mem mem' Smm Amm.
    pose proof (decode_computes self noise mem tgt (Some (newaxis_1 m)) h
                  Hslots) as C.
    pose proof (decode_computes self noise' mem' tgt (Some (newaxis_1 m)) h
                  Hslots) as C'.
    rewrite (mode_of_eval self noise Htr) in C.
    rewrite (mode_of_eval self noise' Htr) in C'.
    destruct (@decode_value_padding self (current_modules self h)
                mem mem' tgt m _ _ _ B Ls Lt Wf Hcols Smm Amm St Sm
                HLt Vt) as (y & y' & Ey & Ey' & Sy & Sy' & Hy).
    destruct (@computes_Ok _ _ _ _ _ C Ey) as (h1 & E1).
    destruct (@computes_Ok _ _ _ _ _ C' Ey') as (h1' & E1').
    exists y, y', h1, h1'. repeat split; assumption.
Qed.

Lemma padding_noninterference_witness :
  exists self h y y' h1 h1',
    forward self keep_all (zeros_ids 3) (zeros_ids 2) (Some (mask_at 2 3)) h
    = Ok (y, h1)
    /\ forward self keep_all (one_at 2 3) (zeros_ids 2) (Some (mask_at 2 3)) h
       = Ok (y', h1')
    /\ at3 y 0 1 3 = at3 y' 0 1 3.
Proof.
  destruct (Transformer_init_runs small_config zero_rng empty_heap eq_refl)
    as (self & h & _ & Hc & _ & Hwf & _).
  assert (Hc' : config (eval self) = small_config) by exact Hc.
  assert (Hag : agree_ids (unmasked (mask_at 2 3)) (zeros_ids 3) (one_at 2 3)).
  { split; [reflexivity |]. unfold unmasked. intros b l _ _ Hl. cbn in *.
    destruct (l =? 2); [contradiction | reflexivity]. }
  destruct (proj1 (proj2
             (@padding_noninterference (eval self) h keep_all keep_all
                (zeros_ids 3) (one_at 2 3) (zeros_ids 2) (mask_at 2 3) 1 3 2
                (wf_Transformer_eval Hwf) eq_refl eq_refl eq_refl eq_refl
                ltac:(rewrite Hc'; cbn; lia) ltac:(rewrite Hc'; cbn; lia)
                ltac:(rewrite Hc'; intros b l _ _; cbn; lia)
                ltac:(rewrite Hc'; intros b l _ _; cbn;
                      destruct (l =? 2); lia)
                ltac:(rewrite Hc'; intros b l _ _; cbn; lia)
                Hag)))
    as (y & y' & h1 & h1' & E & E' & _ & _ & Hy).
  exists (eval self), h, y, y', h1, h1'.
  split; [exact E |]. split; [exact E' |].
  apply Hy; [lia | lia |]. rewrite Hc'. cbn. lia.
Defined.

(** ** The positional table does not depend on the allocator *)

Lemma parity_cases (j : nat) :
  (1 <=? j) && ((j - 1) mod 2 =? 0) = true
  \/ ((1 <=? j) && ((j - 1) mod 2 =? 0) = false
      /\ (0 <=? j) && ((j - 0) mod 2 =? 0) = true).
Proof.
  rewrite Nat.sub_0_r. cbn [Nat.leb andb].
  destruct j as [| j]; [right; split; reflexivity |].
  cbn [Nat.leb andb]. replace (S j - 1) with j by lia.
  pose proof (Nat.mod_upper_bound j 2 ltac:(lia)) as Hj.
  pose proof (Nat.div_mod_eq j 2) as Ej.
  destruct (Nat.eqb_spec (j mod 2) 0) as [H0 | H1]; [left; reflexivity |].
  right. split; [reflexivity |]. apply Nat.eqb_eq.
  symmetry. apply (Nat.mod_unique (S j) 2 (S (j / 2)) 0); lia.
Qed.

Lemma setitem_cols_at (dest : Tensor2 R) (start step : nat)
    (src t : Tensor2 R) :
  setitem_cols dest start step src = Ok t ->
  shape2 t = shape2 dest
  /\ forall i j,
       at2 t i j
       = if (start <=? j) && ((j - start) mod step =? 0)
         then at2 src (bidx (rows src) i)
                      (bidx (cols src) ((j - start) / step))
         else at2 dest i j.
Proof.
  unfold setitem_cols.
  destruct (expandable _ _ && expandable _ _); [| discriminate].
  intros H. injection H as <-. split; reflexivity.
Qed.

Lemma positional_encoding_uninit (u u' : nat -> nat -> R) (L E : nat)
    (t t' : Tensor2 R) :
  positional_encoding u L E = Ok t -> positional_encoding u' L E = Ok t' ->
  agree2 t t'.
Proof.
  unfold positional_encoding. cbv zeta. intros Ht Ht'.
  apply bind_Ok_inv in Ht. destruct Ht as (a & Ea & Ht).
  apply bind_Ok_inv in Ht. destruct Ht as (p & E2 & Ht).
  apply bind_Ok_inv in Ht. destruct Ht as (b & Eb & Ht).
  apply bind_Ok_inv in Ht. destruct Ht as (q & E4 & Ht).
  apply bind_Ok_inv in Ht'. destruct Ht' as (a' & Ea' & Ht').
  apply bind_Ok_inv in Ht'. destruct Ht' as (p' & E3 & Ht').
  apply bind_Ok_inv in Ht'. destruct Ht' as (b' & Eb' & Ht').
  apply bind_Ok_inv in Ht'. destruct Ht' as (q' & E5 & Ht').
  rewrite Ea in Ea', Eb, Eb'.
  injection Ea' as <-. injection Eb as <-. injection Eb' as <-.
  injection Ht as <-. injection Ht' as <-.
  destruct (setitem_cols_at _ _ _ _ E2) as [S2 A2].
  destruct (setitem_cols_at _ _ _ _ E3) as [S3 A3].
  destruct (setitem_cols_at _ _ _ _ E4) as [S4 A4].
  destruct (setitem_cols_at _ _ _ _ E5) as [S5 A5].
  split.
  - rewrite S4, S5, S2, S3. reflexivity.
  - intros i j _ _. rewrite A4, A5.
    destruct (parity_cases j) as [H | [H H']]; rewrite H; [reflexivity |].
    rewrite A2, A3, H'. reflexivity.
Qed.

(** ** The config document *)

Lemma TransformerConfig_kwargs_asdict (c : TransformerConfig) :
  TransformerConfig_kwargs (asdict c) = Ok c.
Proof. destruct c. reflexivity. Qed.

(** ** Two models built from one config *)

Lemma Transformer_init_inv (c : TransformerConfig) (rng : Rng) (h0 h : Heap)
    (self : Transformer) :
  Transformer_init c rng h0 = Ok (self, h) ->
  exists pe enc dec,
    positional_encoding (uninit rng) (max_len c) (cfg_embed_size c) = Ok pe
    /\ Encoder_init rng (n_encoder_layers c) (n_encoder_heads c)
         (cfg_embed_size c) (d_ff c) (post_ln c) (use_additional_dropout c)
       = Ok enc
    /\ Decoder_init rng (n_decoder_layers c) (n_decoder_heads c)
         (cfg_embed_size c) (d_ff c) (post_ln c) (use_additional_dropout c)
       = Ok dec
    /\ pos_enc self = pe
    /\ modules self
       = mkModules enc dec
           (Embedding_init rng (vocab_size c) (cfg_embed_size c))
           (Linear_init rng fc_name (cfg_embed_size c) (vocab_size c))
    /\ sqrt_dmodel self = sqrt (INR (cfg_embed_size c))
    /\ dropout self = mkDropout (1 # 10)
    /\ h = (if xavier_initialization c
            then _init_params rng self (register h0 (parameters (modules self)))
            else register h0 (parameters (modules self))).
Proof.
  unfold Transformer_init.
  destruct (positional_encoding _ _ _) as [pe | e]; cbn [bind];
    [| discriminate].
  destruct (Encoder_init _ _ _ _ _ _ _) as [enc | e]; cbn [bind];
    [| discriminate].
  destruct (Decoder_init _ _ _ _ _ _ _) as [dec | e]; cbn [bind];
    [| discriminate].
  cbv zeta. intros H. injection H as <- <-.
  exists pe, enc, dec. repeat split; reflexivity.
Qed.

Lemma Transformer_init_shapes (c : TransformerConfig) (rng : Rng)
    (h0 h : Heap) (self : Transformer) :
  Transformer_init c rng h0 = Ok (self, h) ->
  wf_Modules (vocab_size c) (cfg_embed_size c) (d_ff c) (modules self)
  /\ forall n, obj_shape (cell h (slots self n))
               = obj_shape (parameters (modules self) n).
Proof.
  intros E.
  assert (Hok : config_ok c = true).
  { rewrite <- (Transformer_init_ok c rng h0), E. reflexivity. }
  destruct (Transformer_init_Ok_inv _ _ _ E) as (_ & _ & _ & Hsl & _).
  destruct (Transformer_init_inv _ _ _ E)
    as (pe & enc & dec & _ & Eenc & Edec & _ & Em & _ & _ & Eh).
  unfold config_ok in Hok.
  apply andb_true_iff in Hok. destruct Hok as [Hok Hdec].
  apply andb_true_iff in Hok. destruct Hok as [_ Henc].
  destruct (@Encoder_init_returns rng (n_encoder_layers c)
              (n_encoder_heads c) (cfg_embed_size c) (d_ff c) (post_ln c)
              (use_additional_dropout c) Henc) as (enc' & Eenc' & Wenc & _).
  destruct (@Decoder_init_returns rng (n_decoder_layers c)
              (n_decoder_heads c) (cfg_embed_size c) (d_ff c) (post_ln c)
              (use_additional_dropout c) Hdec) as (dec' & Edec' & Wdec & _).
  rewrite Eenc in Eenc'. injection Eenc' as <-.
  rewrite Edec in Edec'. injection Edec' as <-.
  split.
  - rewrite Em. unfold wf_Modules; cbn [encoder decoder embeddings fc
      emb_weight Embedding_init rows cols].
    split; [exact Wenc |]. split; [exact Wdec |].
    split; [reflexivity |]. split; [reflexivity |].
    apply wf_Linear_init.
  - intros n.
    assert (Hreg : cell (register h0 (parameters (modules self)))
                        (slots self n)
                   = parameters (modules self)
                       (match slots self n with
                        | LParam _ n' => n' | LTmp _ => n end)).
    { rewrite (Hsl n). destruct (tie_embeddings c);
        [destruct (pname_eq_dec n PEmbeddingsWeight) |];
        apply cell_register. }
    assert (Hsh : obj_shape (cell h (slots self n))
                  = obj_shape (cell (register h0 (parameters (modules self)))
                                    (slots self n))).
    { rewrite Eh. destruct (xavier_initialization c); [| reflexivity].
      apply init_params_spec. }
    rewrite Hsh, Hreg, (Hsl n).
    destruct (tie_embeddings c); [| reflexivity].
    destruct (pname_eq_dec n PEmbeddingsWeight) as [-> | _]; [| reflexivity].
    rewrite Em. reflexivity.
Qed.

Lemma list_comprehension_Forall2 {A} (R : A -> A -> Prop)
    (f f' : nat -> result A) :
  (forall i a a', f i = Ok a -> f' i = Ok a' -> R a a') ->
  forall n start l l',
    list_comprehension f start n = Ok l ->
    list_comprehension f' start n = Ok l' -> Forall2 R l l'.
Proof.
  intros HR. induction n as [| n IH]; intros start l l' El El';
    cbn [list_comprehension] in El, El'.
  - injection El as <-. injection El' as <-. constructor.
  - apply bind_Ok_inv in El. destruct El as (a & Ea & El).
    apply bind_Ok_inv in El. destruct El as (r & Er & El).
    apply bind_Ok_inv in El'. destruct El' as (a' & Ea' & El').
    apply bind_Ok_inv in El'. destruct El' as (r' & Er' & El').
    injection El as <-. injection El' as <-. constructor.
    + exact (HR start a a' Ea Ea').
    + exact (IH (S start) r r' Er Er').
Qed.

Lemma read_layers_Forall2 {L K : Type} (read1 : (K -> wb -> obj) -> L -> L)
    (rd : nat -> K -> wb -> obj) (layers layers' : list L) :
  Forall2 (fun l l' => forall r, read1 r l = read1 r l') layers layers' ->
  forall i, read_layers read1 rd i layers = read_layers read1 rd i layers'.
Proof.
  induction 1 as [| l l' rest rest' Hl _ IH]; intros i; cbn [read_layers];
    [reflexivity |].
  rewrite Hl, IH. reflexivity.
Qed.

Lemma nth_error_Forall2 {L : Type} (param1 param1' : L -> obj)
    (layers layers' : list L) :
  Forall2 (fun l l' => obj_shape (param1 l) = obj_shape (param1' l'))
          layers layers' ->
  forall j,
    obj_shape match nth_error layers j with
              | Some l => param1 l
              | None => no_param
              end
    = obj_shape match nth_error layers' j with
                | Some l => param1' l
                | None => no_param
                end.
Proof.
  induction 1 as [| l l' rest rest' Hl _ IH]; intros j.
  - destruct j; reflexivity.
  - destruct j as [| j]; cbn [nth_error]; [exact Hl | apply IH].
Qed.

Lemma EncoderLayer_init_arch (rng rng' : Rng)
    (name : enc_slot -> wb -> pname) (H E F : nat) (post_ln u : bool)
    (l l' : EncoderLayer) :
  EncoderLayer_init rng name H E F post_ln u = Ok l ->
  EncoderLayer_init rng' name H E F post_ln u = Ok l' ->
  (forall rd, EncoderLayer_read rd l = EncoderLayer_read rd l')
  /\ forall s p, obj_shape (EncoderLayer_param l s p)
                 = obj_shape (EncoderLayer_param l' s p).
Proof.
  unfold EncoderLayer_init, MultiHeadAttention_init. cbv zeta.
  destruct (py_mod E H) as [r | e]; cbn [bind]; [| discriminate].
  destruct (py_assert (r =? 0)); cbn [bind]; [| discriminate].
  intros El El'. injection El as <-. injection El' as <-.
  split; [reflexivity |].
  intros s p. destruct s as [[] | [] | |], p; reflexivity.
Qed.

Lemma DecoderLayer_init_arch (rng rng' : Rng)
    (name : dec_slot -> wb -> pname) (H E F : nat) (post_ln u : bool)
    (l l' : DecoderLayer) :
  DecoderLayer_init rng name H E F post_ln u = Ok l ->
  DecoderLayer_init rng' name H E F post_ln u = Ok l' ->
  (forall rd, DecoderLayer_read rd l = DecoderLayer_read rd l')
  /\ forall s p, obj_shape (DecoderLayer_param l s p)
                 = obj_shape (DecoderLayer_param l' s p).
Proof.
  unfold DecoderLayer_init, MultiHeadAttention_init. cbv zeta.
  destruct (py_mod E H) as [r | e]; cbn [bind]; [| discriminate].
  destruct (py_assert (r =? 0)); cbn [bind]; [| discriminate].
  intros El El'. injection El as <-. injection El' as <-.
  split; [reflexivity |].
  intros s p. destruct s as [[] | [] | [] | | |], p; reflexivity.
Qed.

Lemma Encoder_init_arch (rng rng' : Rng) (n H E F : nat) (post_ln u : bool)
    (m m' : Encoder) :
  Encoder_init rng n H E F post_ln u = Ok m ->
  Encoder_init rng' n H E F post_ln u = Ok m' ->
  Forall2 (fun l l' =>
             (forall rd, EncoderLayer_read rd l = EncoderLayer_read rd l')
             /\ forall s p, obj_shape (EncoderLayer_param l s p)
                            = obj_shape (EncoderLayer_param l' s p))
          (encoder_layers m) (encoder_layers m')
  /\ enc_final_ln m = enc_final_ln m'.
Proof.
  unfold Encoder_init. intros Em Em'.
  apply bind_Ok_inv in Em. destruct Em as (ls & El & Em).
  apply bind_Ok_inv in Em'. destruct Em' as (ls' & El' & Em').
  injection Em as <-. injection Em' as <-.
  cbn [encoder_layers enc_final_ln]. split; [| reflexivity].
  eapply list_comprehension_Forall2; [| exact El | exact El'].
  intros i a a'. apply EncoderLayer_init_arch.
Qed.

Lemma Decoder_init_arch (rng rng' : Rng) (n H E F : nat) (post_ln u : bool)
    (m m' : Decoder) :
  Decoder_init rng n H E F post_ln u = Ok m ->
  Decoder_init rng' n H E F post_ln u = Ok m' ->
  Forall2 (fun l l' =>
             (forall rd, DecoderLayer_read rd l = DecoderLayer_read rd l')
             /\ forall s p, obj_shape (DecoderLayer_param l s p)
                            = obj_shape (DecoderLayer_param l' s p))
          (decoder_layers m) (decoder_layers m')
  /\ dec_final_ln m = dec_final_ln m'.
Proof.
  unfold Decoder_init. intros Em Em'.
  apply bind_Ok_inv in Em. destruct Em as (ls & El & Em).
  apply bind_Ok_inv in Em'. destruct Em' as (ls' & El' & Em').
  injection Em as <-. injection Em' as <-.
  cbn [decoder_layers dec_final_ln]. split; [| reflexivity].
  eapply list_comprehension_Forall2; [| exact El | exact El'].
  intros i a a'. apply DecoderLayer_init_arch.
Qed.

(** Two models built from one config differ in the values of their
    tensors only. *)
Lemma Transformer_init_same_config (c : TransformerConfig) (rng rng' : Rng)
    (h0 h0' h h' : Heap) (self self' : Transformer) :
  Transformer_init c rng h0 = Ok (self, h) ->
  Transformer_init c rng' h0' = Ok (self', h') ->
  (forall rd, Modules_read rd (modules self') = Modules_read rd (modules self))
  /\ (forall n, obj_shape (parameters (modules self') n)
                = obj_shape (parameters (modules self) n))
  /\ agree2 (pos_enc self) (pos_enc self')
  /\ sqrt_dmodel self' = sqrt_dmodel self
  /\ dropout self' = dropout self.
Proof.
  intros E E'.
  destruct (Transformer_init_inv _ _ _ E)
    as (pe & enc & dec & Epe & Eenc & Edec & Hpe & Em & Hsq & Hdr & _).
  destruct (Transformer_init_inv _ _ _ E')
    as (pe' & enc' & dec' & Epe' & Eenc' & Edec' & Hpe' & Em' & Hsq' & Hdr'
        & _).
  destruct (@Encoder_init_arch _ _ _ _ _ _ _ _ _ _ Eenc' Eenc) as [Fe Le].
  destruct (@Decoder_init_arch _ _ _ _ _ _ _ _ _ _ Edec' Edec) as [Fd Ld].
  split; [| split; [| split; [| split]]].
  - intros rd. rewrite Em, Em'. unfold Modules_read.
    cbn [encoder decoder embeddings fc]. rewrite Le, Ld.
    rewrite (@read_layers_Forall2 _ _ EncoderLayer_read
               (fun i s p => rd (PEncoderLayer i s p))
               (encoder_layers enc') (encoder_layers enc)).
    2:{ eapply Forall2_impl; [| exact Fe]. intros a b [Hab _]. exact Hab. }
    rewrite (@read_layers_Forall2 _ _ DecoderLayer_read
               (fun i s p => rd (PDecoderLayer i s p))
               (decoder_layers dec') (decoder_layers dec)).
    2:{ eapply Forall2_impl; [| exact Fd]. intros a b [Hab _]. exact Hab. }
    reflexivity.
  - intros n. rewrite Em, Em'.
    destruct n as [i s p | p | i s p | p | | |];
      cbn [parameters encoder decoder embeddings fc].
    + apply (@nth_error_Forall2 _ (fun l => EncoderLayer_param l s p)
               (fun l => EncoderLayer_param l s p)).
      eapply Forall2_impl; [| exact Fe]. intros a b [_ Hab]. apply Hab.
    + rewrite Le. reflexivity.
    + apply (@nth_error_Forall2 _ (fun l => DecoderLayer_param l s p)
               (fun l => DecoderLayer_param l s p)).
      eapply Forall2_impl; [| exact Fd]. intros a b [_ Hab]. apply Hab.
    + rewrite Ld. reflexivity.
    + reflexivity.
    + reflexivity.
    + reflexivity.
  - rewrite Hpe, Hpe'. exact (@positional_encoding_uninit _ _ _ _ _ _ Epe Epe').
  - congruence.
  - congruence.
Qed.

(** ** The names of a model's parameters *)

Lemma In_names_encoder (c : TransformerConfig) (i : nat) (s : enc_slot)
    (p : wb) :
  i < n_encoder_layers c -> In (PEncoderLayer i s p) (names c).
Proof.
  intros Hi. unfold names. apply in_or_app. left.
  apply in_flat_map. exists i. split; [apply in_seq; lia |].
  destruct s as [[] | [] | |], p; cbn; tauto.
Qed.

Lemma In_names_decoder (c : TransformerConfig) (i : nat) (s : dec_slot)
    (p : wb) :
  i < n_decoder_layers c -> In (PDecoderLayer i s p) (names c).
Proof.
  intros Hi. unfold names. apply in_or_app. right.
  apply in_or_app. right. apply in_or_app. left.
  apply in_flat_map. exists i. split; [apply in_seq; lia |].
  destruct s as [[] | [] | [] | | |], p; cbn; tauto.
Qed.

Lemma In_names_encoder_ln (c : TransformerConfig) (p : wb) :
  post_ln c = false -> In (PEncoderFinalLn p) (names c).
Proof.
  intros H. unfold names. rewrite H. apply in_or_app. right.
  apply in_or_app. left. destruct p; cbn; tauto.
Qed.

Lemma In_names_decoder_ln (c : TransformerConfig) (p : wb) :
  post_ln c = false -> In (PDecoderFinalLn p) (names c).
Proof.
  intros H. unfold names. rewrite H. apply in_or_app. right.
  apply in_or_app. right. apply in_or_app. right. apply in_or_app. left.
  destruct p; cbn; tauto.
Qed.

Lemma In_names_top (c : TransformerConfig) (n : pname) :
  In n [PEmbeddingsWeight; PFcWeight; PFcBias] -> In n (names c).
Proof.
  intros H. unfold names. apply in_or_app. right.
  apply in_or_app. right. apply in_or_app. right. apply in_or_app. right.
  exact H.
Qed.

Lemma list_comprehension_length {A} (f : nat -> result A) (n start : nat)
    (l : list A) :
  list_comprehension f start n = Ok l -> length l = n.
Proof.
  revert start l. induction n as [| n IH]; intros start l El;
    cbn [list_comprehension] in El.
  - injection El as <-. reflexivity.
  - apply bind_Ok_inv in El. destruct El as (a & Ea & El).
    apply bind_Ok_inv in El. destruct El as (r & Er & El).
    injection El as <-. cbn [length]. f_equal. exact (IH _ _ Er).
Qed.

Lemma Encoder_init_layout (rng : Rng) (n H E F : nat) (post_ln u : bool)
    (m : Encoder) :
  Encoder_init rng n H E F post_ln u = Ok m ->
  length (encoder_layers m) = n
  /\ (post_ln = true -> enc_final_ln m = None).
Proof.
  unfold Encoder_init. intros Em.
  apply bind_Ok_inv in Em. destruct Em as (ls & El & Em).
  injection Em as <-. cbn [encoder_layers enc_final_ln].
  split; [exact (list_comprehension_length _ _ _ El) |].
  intros ->. reflexivity.
Qed.

Lemma Decoder_init_layout (rng : Rng) (n H E F : nat) (post_ln u : bool)
    (m : Decoder) :
  Decoder_init rng n H E F post_ln u = Ok m ->
  length (decoder_layers m) = n
  /\ (post_ln = true -> dec_final_ln m = None).
Proof.
  unfold Decoder_init. intros Em.
  apply bind_Ok_inv in Em. destruct Em as (ls & El & Em).
  injection Em as <-. cbn [decoder_layers dec_final_ln].
  split; [exact (list_comprehension_length _ _ _ El) |].
  intros ->. reflexivity.
Qed.

(** The modules of a model are read from the objects bound to the names
    of its config, and from no other. *)
Lemma Modules_read_names (c : TransformerConfig) (rng : Rng) (h0 h : Heap)
    (self : Transformer) (rd rd' : pname -> obj) :
  Transformer_init c rng h0 = Ok (self, h) ->
  (forall n, In n (names c) -> rd n = rd' n) ->
  Modules_read rd (modules self) = Modules_read rd' (modules self).
Proof.
  intros E H.
  destruct (Transformer_init_inv _ _ _ E)
    as (pe & enc & dec & _ & Eenc & Edec & _ & Em & _).
  destruct (Encoder_init_layout _ _ _ _ _ _ _ Eenc) as [Le Fe].
  destruct (Decoder_init_layout _ _ _ _ _ _ _ Edec) as [Ld Fd].
  rewrite Em. unfold Modules_read. cbn [encoder decoder embeddings fc].
  rewrite (@read_layers_ext _ _ EncoderLayer_read
             (fun i s p => rd (PEncoderLayer i s p))
             (fun i s p => rd' (PEncoderLayer i s p))
             (encoder_layers enc) EncoderLayer_read_ext 0)
    by (intros j s p Hj; apply H, In_names_encoder; lia).
  rewrite (@read_layers_ext _ _ DecoderLayer_read
             (fun i s p => rd (PDecoderLayer i s p))
             (fun i s p => rd' (PDecoderLayer i s p))
             (decoder_layers dec) DecoderLayer_read_ext 0)
    by (intros j s p Hj; apply H, In_names_decoder; lia).
  rewrite (Linear_read_ext (fun p => rd (fc_name p)) (fun p => rd' (fc_name p)))
    by (intros [|]; apply H, In_names_top; cbn; tauto).
  rewrite (H PEmbeddingsWeight) by (apply In_names_top; cbn; tauto).
  f_equal; f_equal.
  - destruct (post_ln c) eqn:Hp.
    + rewrite (Fe eq_refl). reflexivity.
    + destruct (enc_final_ln enc); [| reflexivity]. cbn [option_map].
      f_equal. apply LayerNorm_read_ext. intros p.
      apply H, In_names_encoder_ln, Hp.
  - destruct (post_ln c) eqn:Hp.
    + rewrite (Fd eq_refl). reflexivity.
    + destruct (dec_final_ln dec); [| reflexivity]. cbn [option_map].
      f_equal. apply LayerNorm_read_ext. intros p.
      apply H, In_names_decoder_ln, Hp.
Qed.

(** ** [load_state_dict] *)

Lemma sd_get_map (f : pname -> obj) (ns : list pname) (n : pname) :
  In n ns -> sd_get (map (fun n => (n, f n)) ns) n = Some (f n).
Proof.
  induction ns as [| k rest IH]; intros Hn; [contradiction |].
  cbn [map sd_get]. destruct (pname_eq_dec k n) as [-> | Hne];
    [reflexivity |].
  destruct Hn as [-> | Hn]; [contradiction |]. exact (IH Hn).
Qed.

Lemma filter_none {A} (f : A -> bool) (l : list A) :
  (forall x, In x l -> f x = false) -> filter f l = [].
Proof.
  induction l as [| a l IH]; intros H; [reflexivity |].
  cbn [filter]. rewrite (H a (or_introl eq_refl)).
  apply IH. intros x Hx. apply H. right. exact Hx.
Qed.

Lemma copy__same_shape (dst src : obj) :
  obj_shape src = obj_shape dst -> copy_ dst src = src.
Proof.
  destruct dst as [d | d | d], src as [s | s | s]; cbn [obj_shape copy_];
    intros H; try discriminate H.
  - injection H as H0. rewrite <- H0. destruct s; reflexivity.
  - injection H as H0 H1. rewrite <- H0, <- H1. destruct s; reflexivity.
  - injection H as H0 H1 H2. rewrite <- H0, <- H1, <- H2.
    destruct s; reflexivity.
Qed.

Lemma load_param_loads (self : Transformer) (sd : StateDict) (h : Heap)
    (b : bool) (n : pname) (o : obj) :
  sd_get sd n = Some o ->
  obj_shape o = obj_shape (cell h (slots self n)) ->
  load_param self sd (h, b) n = (write h (slots self n) o, b).
Proof.
  intros Hget Hsh. unfold load_param. cbn [fst snd]. rewrite Hget.
  destruct (list_eq_dec Nat.eq_dec (obj_shape o)
              (obj_shape (cell h (slots self n)))) as [_ | Hne];
    [| contradiction].
  rewrite (copy__same_shape _ _ Hsh). reflexivity.
Qed.

Lemma load_params_spec (self : Transformer) (sd : StateDict)
    (g : pname -> obj) (b : bool) :
  (forall n n', slots self n = slots self n' -> g n = g n') ->
  forall ns h,
    (forall n, In n ns -> sd_get sd n = Some (g n)) ->
    (forall n, In n ns ->
       obj_shape (g n) = obj_shape (cell h (slots self n))) ->
    let r := fold_left (load_param self sd) ns (h, b) in
    snd r = b
    /\ (forall n, In n ns -> cell (fst r) (slots self n) = g n)
    /\ (forall l, (forall n, In n ns -> slots self n <> l) ->
          cell (fst r) l = cell h l)
    /\ next_model (fst r) = next_model h
    /\ next_tmp (fst r) = next_tmp h.
Proof.
  intros Hg. induction ns as [| n0 rest IH]; intros h Hget Hsh; cbv zeta;
    cbn [fold_left fst snd].
  - repeat split. intros n [].
  - rewrite (@load_param_loads self sd h b n0 (g n0)
               (Hget n0 (or_introl eq_refl)) (Hsh n0 (or_introl eq_refl))).
    set (h1 := write h (slots self n0) (g n0)).
    assert (Hsh1 : forall n, In n rest ->
              obj_shape (g n) = obj_shape (cell h1 (slots self n))).
    { intros n Hn. unfold h1.
      destruct (loc_eq_dec (slots self n0) (slots self n)) as [He | Hne].
      - rewrite <- He, cell_write_same. rewrite (Hg n n0 (eq_sym He)).
        reflexivity.
      - rewrite (cell_write_other _ _ Hne). apply Hsh. right. exact Hn. }
    destruct (IH h1 (fun n Hn => Hget n (or_intror Hn)) Hsh1)
      as (Hb & Hin & Hout & Hnm & Hnt).
    split; [exact Hb |]. split; [| split; [| split]].
    + intros n [<- | Hn]; [| exact (Hin n Hn)].
      destruct (in_dec loc_eq_dec (slots self n0) (map (slots self) rest))
        as [Hi | Hni].
      * apply in_map_iff in Hi. destruct Hi as (n' & He & Hn').
        rewrite <- He, (Hin n' Hn'). apply Hg. exact He.
      * rewrite Hout.
        -- unfold h1. apply cell_write_same.
        -- intros n Hn He. apply Hni. apply in_map_iff. exists n.
           split; [exact He | exact Hn].
    + intros l Hl. rewrite Hout.
      * unfold h1. apply cell_write_other. apply Hl. left. reflexivity.
      * intros n Hn. apply Hl. right. exact Hn.
    + rewrite Hnm. reflexivity.
    + rewrite Hnt. reflexivity.
Qed.

(** Loading the state dict of [self] into a model [self'] of the same
    config, the same ties and the same shapes. *)
Lemma load_state_dict_state_dict (self self' : Transformer) (h hA : Heap) :
  config self' = config self ->
  (forall n n', slots self' n = slots self' n' ->
                slots self n = slots self n') ->
  (forall n, In n (names (config self)) ->
     obj_shape (cell h (slots self n))
     = obj_shape (cell hA (slots self' n))) ->
  exists hB,
    load_state_dict self' (state_dict self h) hA = Ok (tt, hB)
    /\ (forall n, In n (names (config self)) ->
          cell hB (slots self' n) = cell h (slots self n))
    /\ (forall l, (forall n, In n (names (config self)) ->
                     slots self' n <> l) ->
          cell hB l = cell hA l)
    /\ next_model hB = next_model hA
    /\ next_tmp hB = next_tmp hA.
Proof.
  intros Hc Hties Hsh. unfold load_state_dict. rewrite Hc.
  assert (Hget : forall n, In n (names (config self)) ->
            sd_get (state_dict self h) n = Some (cell h (slots self n))).
  { intros n Hn. unfold state_dict.
    apply (sd_get_map (fun n => cell h (slots self n))). exact Hn. }
  rewrite (@filter_none _
             (fun n => match sd_get (state_dict self h) n with
                       | None => true
                       | _ => false
                       end) (names (config self)))
    by (intros n Hn; rewrite (Hget n Hn); reflexivity).
  assert (Hkeys : map fst (state_dict self h) = names (config self)).
  { unfold state_dict. rewrite map_map. cbn [fst]. apply map_id. }
  rewrite Hkeys.
  rewrite (@filter_none _
             (fun k => if in_dec pname_eq_dec k (names (config self))
                       then false else true) (names (config self)))
    by (intros n Hn;
        destruct (in_dec pname_eq_dec n (names (config self)));
        [reflexivity | contradiction]).
  destruct (@load_params_spec self' (state_dict self h)
              (fun n => cell h (slots self n)) false
              (fun n n' He => f_equal (cell h) (Hties n n' He))
              (names (config self)) hA Hget Hsh)
    as (Hb & Hin & Hout & Hnm & Hnt).
  rewrite Hb. eexists. split; [reflexivity |].
  split; [exact Hin |]. split; [exact Hout |]. split; assumption.
Qed.

(** ** Saving and loading *)

Lemma forward_value_same_modules (self self' : Transformer) (mods : Modules)
    (src tgt : Tensor2 Z) (src_mask : option (Tensor2 Z))
    (V E F B Ls Lt : nat) (y y' : Tensor3 R) :
  wf_Modules V E F mods ->
  sqrt_dmodel self' = sqrt_dmodel self -> dropout self' = dropout self ->
  agree2 (pos_enc self) (pos_enc self') ->
  shape2 src = (B, Ls) -> shape2 tgt = (B, Lt) ->
  forward_value self mods None src tgt src_mask = Ok y ->
  forward_value self' mods None src tgt src_mask = Ok y' ->
  shape3 y = (B, Lt, V) /\ agree3 everywhere y y'.
Proof.
  intros Wf Hsq Hdr Hpe Ss St Ey Ey'. unfold forward_value in Ey, Ey'.
  apply bind_Ok_inv in Ey. destruct Ey as (r & Er & Ey).
  apply bind_Ok_inv in Ey'. destruct Ey' as (r' & Er' & Ey').
  assert (Hrs : rows src = B) by (unfold shape2 in Ss; congruence).
  assert (Hcs : cols src = Ls) by (unfold shape2 in Ss; congruence).
  assert (Hrt : rows tgt = B) by (unfold shape2 in St; congruence).
  assert (Hct : cols tgt = Lt) by (unfold shape2 in St; congruence).
  destruct (@encode_value_agree self self' mods everywhere src src src_mask
              r r' V E F Wf Hsq Hdr Hpe (@agree_ids_refl _ _)
              (@everywhere_attends_within _ _ _ _ _) Er Er')
    as (Sm & Am & Hk & Hk').
  rewrite Hk in Ey. rewrite Hk' in Ey'.
  rewrite Hrs, Hcs in Sm. rewrite <- Hrt in Sm.
  destruct (@decode_value_agree self self' mods everywhere everywhere
              (fst r) (fst r') tgt tgt (option_map newaxis_1 src_mask)
              y y' V E F Ls Wf Hsq Hdr Hpe Sm Am (@agree_ids_refl _ _)
              (fun _ _ _ _ _ => I) (@everywhere_attends_within _ _ _ _ _)
              Ey Ey') as [Sy Ay].
  rewrite Hrt, Hct in Sy. split; assumption.
Qed.

Lemma init_slots_spec_ties (c : TransformerConfig) (id id' : nat)
    (self self' : Transformer) :
  init_slots_spec c id self -> init_slots_spec c id' self' ->
  forall n n', slots self' n = slots self' n' -> slots self n = slots self n'.
Proof.
  intros Hs Hs' n n'. rewrite (Hs n), (Hs n'), (Hs' n), (Hs' n').
  destruct (tie_embeddings c).
  - destruct (pname_eq_dec n PEmbeddingsWeight),
      (pname_eq_dec n' PEmbeddingsWeight); intros H;
      first [reflexivity | injection H as H; congruence].
  - intros H. injection H as H. congruence.
Qed.

Lemma save_pretrained_files (self : Transformer) (save_path : string)
    (h : Heap) (fs : FileSystem) :
  isdir fs save_path = true ->
  exists fs',
    save_pretrained self save_path h fs = Ok fs'
    /\ json_load save_path "config.json" fs' = Ok (asdict (config self))
    /\ torch_load save_path "model.pt" fs' = Ok (state_dict self h).
Proof.
  intros Hdir. unfold save_pretrained, torch_save, json_dump.
  rewrite Hdir. cbn [bind fs_write isdir]. rewrite Hdir.
  eexists. split; [reflexivity |].
  unfold json_load, torch_load. cbn [file fs_write].
  rewrite !String.eqb_refl. split; reflexivity.
Qed.

(** C6.  For a model built by the constructor whose parameters were since
    updated in place, and an existing directory: [save_pretrained] writes
    the two files, and [from_pretrained] on that directory then returns a
    new model with the same config, with every named parameter equal to
    the one of the saved model, hence with the same modules; the saved
    model is left as it was; and in evaluation mode [forward] returns from
    both models tensors of the same shape that are equal element by
    element, on every valid input. *)
Theorem save_load_round_trip (c : TransformerConfig) (rng0 : Rng)
    (h0 h1 h : Heap) (self : Transformer) (save_path : string)
    (fs : FileSystem) :
  Transformer_init c rng0 h0 = Ok (self, h1) ->
  updated_in_place self h1 h ->
  isdir fs save_path = true ->
  exists fs',
    save_pretrained self save_path h fs = Ok fs'
    /\ forall rng, exists model h',
         from_pretrained rng save_path fs' h = Ok (model, h')
         /\ config model = config self
         /\ (forall n, In n (names (config self)) ->
               cell h' (slots model n) = cell h (slots self n))
         /\ current_modules model h' = current_modules self h
         /\ (forall n, cell h' (slots self n) = cell h (slots self n))
         /\ forall noise noise' src tgt src_mask B Ls Lt,
              shape2 src = (B, Ls) -> shape2 tgt = (B, Lt) ->
              Ls <= max_len c -> Lt <= max_len c ->
              valid_ids (vocab_size c) src ->
              valid_ids (vocab_size c) tgt ->
              (forall m, src_mask = Some m -> shape2 m = (B, Ls)) ->
              exists y y' k k',
                forward (eval self) noise src tgt src_mask h = Ok (y, k)
                /\ forward (eval model) noise' src tgt src_mask h'
                   = Ok (y', k')
                /\ shape3 y = (B, Lt, vocab_size c)
                /\ shape3 y' = (B, Lt, vocab_size c)
                /\ forall b l v, b < B -> l < Lt -> v < vocab_size c ->
                     at3 y b l v = at3 y' b l v.
Proof.
  intros H0 [Hnm Hkeep] Hdir.
  destruct (Transformer_init_Ok_inv _ _ _ H0)
    as (Hc & _ & Hwf1 & Hsl & Hn1 & _).
  destruct (@Transformer_init_shapes _ _ _ _ _ H0) as [Wm Hsh1].
  assert (Hok : config_ok c = true).
  { rewrite <- (Transformer_init_ok c rng0 h0), H0. reflexivity. }
  destruct (@save_pretrained_files self save_path h fs Hdir)
    as (fs' & Es & Ej & Et).
  exists fs'. split; [exact Es |]. intros rng.
  destruct (Transformer_init_runs c rng h Hok)
    as (model & hA & EA & HcA & _ & HwfA & HslA & HnA & HtA & HoutA).
  destruct (@Transformer_init_shapes _ _ _ _ _ EA) as [WmA HshA].
  destruct (@Transformer_init_same_config c rng0 rng h0 h h1 hA self model
              H0 EA) as (Hread & Hpsh & Hpe & Hsq & Hdr).
  assert (Hcc : config model = config self) by congruence.
  destruct (@load_state_dict_state_dict self model h hA Hcc
              (init_slots_spec_ties Hsl HslA))
    as (hB & EB & Hin & Hout & HnB & HtB).
  { intros n _. rewrite Hkeep, Hsh1, <- Hpsh, HshA. reflexivity. }
  assert (Hfresh : forall n n', slots model n' <> slots self n).
  { intros n n'. rewrite (Hsl n), (HslA n').
    destruct (tie_embeddings c);
      [destruct (pname_eq_dec n PEmbeddingsWeight),
         (pname_eq_dec n' PEmbeddingsWeight) |];
      intros H; injection H as H; lia. }
  assert (Hcur : current_modules model hB = current_modules self h).
  { unfold current_modules. rewrite Hread.
    apply (@Modules_read_names c rng0 h0 h1 self _ _ H0).
    intros n Hn. apply Hin. rewrite Hc. exact Hn. }
  exists model, hB.
  split; [| split; [exact Hcc | split; [exact Hin | split; [exact Hcur |
                                                           split]]]].
  - unfold from_pretrained, mbind, lift, ret.
    rewrite Ej, TransformerConfig_kwargs_asdict, Hc, EA, Et, EB.
    reflexivity.
  - intros n. rewrite Hout by (intros n' _; apply Hfresh).
    apply HoutA. intros n' H. rewrite (Hsl n) in H.
    destruct (tie_embeddings c);
      [destruct (pname_eq_dec n PEmbeddingsWeight) |];
      injection H as H; lia.
  - intros noise noise' src tgt src_mask B Ls Lt Ss St HLs HLt Vs Vt Hm.
    destruct Hwf1 as (_ & Hrows & Hcols & Hslots & _).
    destruct HwfA as (_ & HrowsA & HcolsA & HslotsA & _).
    rewrite Hc in Hrows, Hcols. rewrite HcA in HrowsA, HcolsA.
    assert (Wf : wf_Modules (vocab_size c) (cfg_embed_size c) (d_ff c)
                            (current_modules self h)).
    { unfold current_modules. apply wf_Modules_read; [exact Wm |].
      intros n. rewrite Hkeep. apply Hsh1. }
    destruct (@forward_value_returns (eval self) (current_modules self h)
                None src tgt src_mask _ _ _ B Ls Lt Wf Hcols Ss St
                (or_introl (eq_ind_r (fun r => Ls <= r) HLs Hrows))
                (or_introl (eq_ind_r (fun r => Lt <= r) HLt Hrows))
                Vs Vt Hm) as (y & Ey & Sy).
    destruct (@forward_value_returns (eval model) (current_modules self h)
                None src tgt src_mask _ _ _ B Ls Lt Wf HcolsA Ss St
                (or_introl (eq_ind_r (fun r => Ls <= r) HLs HrowsA))
                (or_introl (eq_ind_r (fun r => Lt <= r) HLt HrowsA))
                Vs Vt Hm) as (y' & Ey' & Sy').
    destruct (@forward_value_same_modules (eval self) (eval model)
                (current_modules self h) src tgt src_mask _ _ _ B Ls Lt
                y y' Wf Hsq Hdr Hpe Ss St Ey Ey') as [_ [_ Ay]].
    assert (C : computes (forward (eval self) noise src tgt src_mask) h
                  (forward_value (eval self) (current_modules self h) None
                                 src tgt src_mask))
      by exact (forward_computes (eval self) noise src tgt src_mask h
                                 Hslots).
    assert (C' : computes (forward (eval model) noise' src tgt src_mask) hB
                   (forward_value (eval model) (current_modules model hB)
                                  None src tgt src_mask))
      by exact (forward_computes (eval model) noise' src tgt src_mask hB
                                 HslotsA).
    rewrite Hcur in C'.
    destruct (@computes_Ok _ _ _ _ _ C Ey) as (k & Ek).
    destruct (@computes_Ok _ _ _ _ _ C' Ey') as (k' & Ek').
    exists y, y', k, k'.
    split; [exact Ek |]. split; [exact Ek' |].
    split; [exact Sy |]. split; [exact Sy' |].
    intros b l v Hb Hl Hv. unfold shape3 in Sy. injection Sy as Y0 Y1 Y2.
    apply Ay; try lia. exact I.
Qed.

Lemma save_load_round_trip_witness :
  exists self h fs' model h',
    Transformer_init small_config zero_rng empty_heap = Ok (self, h)
    /\ save_pretrained self "ckpt" h ckpt_fs = Ok fs'
    /\ from_pretrained zero_rng "ckpt" fs' h = Ok (model, h')
    /\ config model = config self
    /\ current_modules model h' = current_modules self h.
Proof.
  destruct (Transformer_init_runs small_config zero_rng empty_heap eq_refl)
    as (self & h & E & _).
  destruct (@save_load_round_trip small_config zero_rng empty_heap h h self
              "ckpt" ckpt_fs E (conj (le_n _) (fun n => eq_refl)) eq_refl)
    as (fs' & Es & Hl).
  destruct (Hl zero_rng) as (model & h' & El & Hc & _ & Hm & _).
  exists self, h, fs', model, h'.
  split; [exact E |]. split; [exact Es |]. split; [exact El |].
  split; [exact Hc | exact Hm].
Defined.

(** ** More on the positional table *)

Lemma positional_encoding_rows (u u' : nat -> nat -> R) (L L' E : nat)
    (t t' : Tensor2 R) :
  positional_encoding u L E = Ok t -> positional_encoding u' L' E = Ok t' ->
  forall i j, i < L -> i < L' -> at2 t i j = at2 t' i j.
Proof.
  unfold positional_encoding. cbv zeta. intros Ht Ht'.
  apply bind_Ok_inv in Ht. destruct Ht as (a & Ea & Ht).
  apply bind_Ok_inv in Ht. destruct Ht as (p & E2 & Ht).
  apply bind_Ok_inv in Ht. destruct Ht as (b & Eb & Ht).
  apply bind_Ok_inv in Ht. destruct Ht as (q & E4 & Ht).
  apply bind_Ok_inv in Ht'. destruct Ht' as (a' & Ea' & Ht').
  apply bind_Ok_inv in Ht'. destruct Ht' as (p' & E3 & Ht').
  apply bind_Ok_inv in Ht'. destruct Ht' as (b' & Eb' & Ht').
  apply bind_Ok_inv in Ht'. destruct Ht' as (q' & E5 & Ht').
  rewrite Ea in Eb. injection Eb as <-.
  rewrite Ea' in Eb'. injection Eb' as <-.
  injection Ht as <-. injection Ht' as <-.
  destruct (setitem_cols_at _ _ _ _ E2) as [S2 A2].
  destruct (setitem_cols_at _ _ _ _ E3) as [S3 A3].
  destruct (setitem_cols_at _ _ _ _ E4) as [S4 A4].
  destruct (setitem_cols_at _ _ _ _ E5) as [S5 A5].
  unfold mul2 in Ea, Ea'.
  cbn -[slice_len Nat.div Nat.modulo bdim bidx] in Ea, Ea'.
  rewrite bdim_1_r, bdim_1_l in Ea, Ea'. cbn [bind] in Ea, Ea'.
  injection Ea as <-. injection Ea' as <-.
  intros i j Hi Hi'. rewrite A4, A5.
  destruct (parity_cases j) as [H | [H H']]; rewrite H.
  - cbn -[slice_len Nat.div Nat.modulo bidx].
    rewrite !(bidx_lt Hi), !(bidx_lt Hi'). reflexivity.
  - rewrite A2, A3, H'. cbn -[slice_len Nat.div Nat.modulo bidx].
    rewrite !(bidx_lt Hi), !(bidx_lt Hi'). reflexivity.
Qed.

(** X1.  Every element of the table that [positional_encoding] returns
    has been assigned by one of the two slice assignments: the table does
    not depend on what [torch.empty] found in memory. *)
Theorem positional_encoding_overwrites_empty (u u' : nat -> nat -> R)
    (L E : nat) (t t' : Tensor2 R) :
  positional_encoding u L E = Ok t -> positional_encoding u' L E = Ok t' ->
  shape2 t = shape2 t' /\ forall i j, at2 t i j = at2 t' i j.
Proof.
  unfold positional_encoding. cbv zeta. intros Ht Ht'.
  apply bind_Ok_inv in Ht. destruct Ht as (a & Ea & Ht).
  apply bind_Ok_inv in Ht. destruct Ht as (p & E2 & Ht).
  apply bind_Ok_inv in Ht. destruct Ht as (b & Eb & Ht).
  apply bind_Ok_inv in Ht. destruct Ht as (q & E4 & Ht).
  apply bind_Ok_inv in Ht'. destruct Ht' as (a' & Ea' & Ht').
  apply bind_Ok_inv in Ht'. destruct Ht' as (p' & E3 & Ht').
  apply bind_Ok_inv in Ht'. destruct Ht' as (b' & Eb' & Ht').
  apply bind_Ok_inv in Ht'. destruct Ht' as (q' & E5 & Ht').
  rewrite Ea in Ea', Eb, Eb'.
  injection Ea' as <-. injection Eb as <-. injection Eb' as <-.
  injection Ht as <-. injection Ht' as <-.
  destruct (setitem_cols_at _ _ _ _ E2) as [S2 A2].
  destruct (setitem_cols_at _ _ _ _ E3) as [S3 A3].
  destruct (setitem_cols_at _ _ _ _ E4) as [S4 A4].
  destruct (setitem_cols_at _ _ _ _ E5) as [S5 A5].
  split.
  - rewrite S4, S5, S2, S3. reflexivity.
  - intros i j. rewrite A4, A5.
    destruct (parity_cases j) as [H | [H H']]; rewrite H; [reflexivity |].
    rewrite A2, A3, H'. reflexivity.
Qed.

Lemma positional_encoding_overwrites_empty_witness :
  exists t t',
    positional_encoding (fun _ _ => 0%R) 3 2 = Ok t
    /\ positional_encoding (fun _ _ => 1%R) 3 2 = Ok t'
    /\ at2 t 2 1 = at2 t' 2 1.
Proof.
  destruct (@positional_encoding_even (fun _ _ => 0%R) 3 2 eq_refl)
    as (t & Et & _).
  destruct (@positional_encoding_even (fun _ _ => 1%R) 3 2 eq_refl)
    as (t' & Et' & _).
  exists t, t'. split; [exact Et |]. split; [exact Et' |].
  exact (proj2 (@positional_encoding_overwrites_empty _ _ _ _ _ _ Et Et')
               2 1).
Defined.

(** X2.  Every element of the positional table is a sine or a cosine and
    lies in [[-1, 1]]; for an even embedding size the row of position 0
    is 0 in the even columns and 1 in the odd columns. *)
Theorem positional_encoding_bounded (u : nat -> nat -> R) (L E : nat)
    (t : Tensor2 R) :
  positional_encoding u L E = Ok t ->
  (forall i j, (-1 <= at2 t i j <= 1)%R)
  /\ (Nat.even E = true -> 0 < L ->
      forall i, 2 * i < E ->
        at2 t 0 (2 * i) = 0%R /\ at2 t 0 (2 * i + 1) = 1%R).
Proof.
  intros Ht. split.
  - revert Ht. unfold positional_encoding. cbv zeta. intros Ht.
    apply bind_Ok_inv in Ht. destruct Ht as (a & Ea & Ht).
    apply bind_Ok_inv in Ht. destruct Ht as (p & E2 & Ht).
    apply bind_Ok_inv in Ht. destruct Ht as (b & Eb & Ht).
    apply bind_Ok_inv in Ht. destruct Ht as (q & E4 & Ht).
    injection Ht as <-.
    destruct (setitem_cols_at _ _ _ _ E2) as [S2 A2].
    destruct (setitem_cols_at _ _ _ _ E4) as [S4 A4].
    intros i j. rewrite A4.
    destruct (parity_cases j) as [H | [H H']]; rewrite H.
    + cbn [at2 map2]. apply COS_bound.
    + rewrite A2, H'. cbn [at2 map2]. apply SIN_bound.
  - intros He HL i Hi.
    destruct (@positional_encoding_even u L E He) as (t0 & Et0 & _ & _ & Hat).
    rewrite Ht in Et0. injection Et0 as <-.
    destruct (Hat 0 i HL Hi) as [Hs Hc]. cbv zeta in Hs, Hc.
    rewrite Hs, Hc. cbn [INR]. rewrite Rmult_0_l, sin_0, cos_0.
    split; reflexivity.
Qed.

Lemma positional_encoding_bounded_witness :
  exists t,
    positional_encoding (fun _ _ => 5%R) 3 2 = Ok t
    /\ (-1 <= at2 t 2 1 <= 1)%R /\ at2 t 0 1 = 1%R.
Proof.
  destruct (@positional_encoding_even (fun _ _ => 5%R) 3 2 eq_refl)
    as (t & Et & _).
  exists t. split; [exact Et |].
  destruct (@positional_encoding_bounded _ _ _ _ Et) as [Hb H0].
  split; [exact (Hb 2 1) |].
  exact (proj2 (H0 eq_refl ltac:(lia) 0 ltac:(lia))).
Defined.

(** X3.  The table of a shorter length is a prefix of the table of a
    longer one: when [positional_encoding L E] returns and [n <= L], the
    call for [n] returns the first [n] rows of it.  (This is what lets the
    model build the table once for [max_len] and slice it.) *)
Theorem positional_encoding_prefix (u u' : nat -> nat -> R) (L n E : nat)
    (t : Tensor2 R) :
  positional_encoding u L E = Ok t -> n <= L ->
  exists t',
    positional_encoding u' n E = Ok t'
    /\ shape2 t' = shape2 (slice_rows t n)
    /\ forall i j, i < n -> at2 t' i j = at2 (slice_rows t n) i j.
Proof.
  intros Ht Hn.
  pose proof (positional_encoding_ok u L E) as Hok. rewrite Ht in Hok.
  pose proof (positional_encoding_ok u' n E) as Hok'.
  rewrite <- Hok in Hok'.
  destruct (positional_encoding u' n E) as [t' | e] eqn:Et';
    [| discriminate Hok'].
  exists t'. split; [reflexivity |].
  destruct (@positional_encoding_shape _ _ _ _ Ht) as [R1 C1].
  destruct (@positional_encoding_shape _ _ _ _ Et') as [R2 C2].
  split.
  - unfold shape2, slice_rows. cbn [rows cols]. rewrite R1, C1, R2, C2.
    f_equal. lia.
  - intros i j Hi. cbn [slice_rows at2].
    apply (@positional_encoding_rows u' u n L E t' t Et' Ht); lia.
Qed.

Lemma positional_encoding_prefix_witness :
  exists t t',
    positional_encoding (fun _ _ => 0%R) 3 2 = Ok t
    /\ positional_encoding (fun _ _ => 0%R) 2 2 = Ok t'
    /\ at2 t' 1 1 = at2 t 1 1.
Proof.
  destruct (@positional_encoding_even (fun _ _ => 0%R) 3 2 eq_refl)
    as (t & Et & _).
  destruct (@positional_encoding_prefix (fun _ _ => 0%R) (fun _ _ => 0%R)
              3 2 2 t Et ltac:(lia)) as (t' & Et' & _ & Hat).
  exists t, t'. split; [exact Et |]. split; [exact Et' |].
  exact (Hat 1 1 ltac:(lia)).
Defined.

(** ** Attention weights *)

Lemma Rsum_list_nonneg (f : nat -> R) (l : list nat) :
  (forall i, In i l -> (0 <= f i)%R) ->
  (0 <= fold_right Rplus 0 (map f l))%R.
Proof.
  induction l as [| a l IH]; intros H; cbn [map fold_right]; [lra |].
  pose proof (H a (or_introl eq_refl)).
  pose proof (IH (fun i Hi => H i (or_intror Hi))). lra.
Qed.

Lemma Rsum_list_pos (f : nat -> R) (l : list nat) (j : nat) :
  (forall i, In i l -> (0 <= f i)%R) -> In j l -> (0 < f j)%R ->
  (0 < fold_right Rplus 0 (map f l))%R.
Proof.
  induction l as [| a l IH]; intros H Hj Hpos; [contradiction |].
  cbn [map fold_right].
  pose proof (H a (or_introl eq_refl)) as Ha.
  pose proof (Rsum_list_nonneg f l (fun i Hi => H i (or_intror Hi))) as Hl.
  destruct Hj as [-> | Hj]; [lra |].
  pose proof (IH (fun i Hi => H i (or_intror Hi)) Hj Hpos). lra.
Qed.

Lemma Rsum_nonneg (n : nat) (f : nat -> R) :
  (forall i, i < n -> (0 <= f i)%R) -> (0 <= Rsum n f)%R.
Proof.
  intros H. unfold Rsum. apply Rsum_list_nonneg.
  intros i Hi. apply in_seq in Hi. apply H. lia.
Qed.

Lemma Rsum_pos (n : nat) (f : nat -> R) (j : nat) :
  (forall i, i < n -> (0 <= f i)%R) -> j < n -> (0 < f j)%R ->
  (0 < Rsum n f)%R.
Proof.
  intros H Hj Hpos. unfold Rsum. apply (Rsum_list_pos f (seq 0 n) j).
  - intros i Hi. apply in_seq in Hi. apply H. lia.
  - apply in_seq. lia.
  - exact Hpos.
Qed.

Lemma Rsum_div (n : nat) (f : nat -> R) (c : R) :
  Rsum n (fun i => (f i / c)%R) = (Rsum n f / c)%R.
Proof.
  unfold Rsum. induction (seq 0 n) as [| a l IH]; cbn [map fold_right].
  - unfold Rdiv. rewrite Rmult_0_l. reflexivity.
  - rewrite IH. unfold Rdiv. rewrite Rmult_plus_distr_r. reflexivity.
Qed.

Lemma Rsum_S (n : nat) (f : nat -> R) :
  Rsum (S n) f = (Rsum n f + f n)%R.
Proof.
  unfold Rsum. rewrite seq_S, map_app, fold_right_app. cbn [map fold_right].
  rewrite Nat.add_0_l.
  generalize (seq 0 n). intros l. induction l as [| a l IH];
    cbn [map fold_right]; [lra |].
  rewrite IH. lra.
Qed.

Lemma Rsum_truncate (n m : nat) (f : nat -> R) :
  m <= n -> (forall j, m <= j < n -> f j = 0%R) -> Rsum n f = Rsum m f.
Proof.
  intros Hm. induction n as [| n IH]; intros H.
  - replace m with 0 by lia. reflexivity.
  - destruct (Nat.eq_dec m (S n)) as [-> | Hne]; [reflexivity |].
    rewrite Rsum_S, (H n) by lia. rewrite IH; [lra | lia |].
    intros j Hj. apply H. lia.
Qed.

Lemma unnormalised_nonneg (q k : Tensor4 R) (mask : option (Tensor3 Z))
    (b h i j : nat) :
  (0 <= unnormalised q k mask b h i j)%R.
Proof.
  unfold unnormalised. destruct (visible mask b i j); [| lra].
  left. apply exp_pos.
Qed.

Lemma attention_weight_nonneg (q k : Tensor4 R) (mask : option (Tensor3 Z))
    (b h i j : nat) :
  (0 <= attention_weight q k mask b h i j)%R.
Proof.
  unfold attention_weight, Rdiv.
  pose proof (unnormalised_nonneg q k mask b h i j) as Hu.
  pose proof (@Rsum_nonneg (s2 k) (fun t => unnormalised q k mask b h i t)
                (fun t _ => unnormalised_nonneg q k mask b h i t)) as Hs.
  destruct (Req_dec (Rsum (s2 k) (fun t => unnormalised q k mask b h i t)) 0)
    as [-> | Hne].
  - rewrite Rinv_0, Rmult_0_r. lra.
  - apply Rmult_le_pos; [exact Hu |]. left. apply Rinv_0_lt_compat. lra.
Qed.

Lemma attention_weight_masked (q k : Tensor4 R) (mask : option (Tensor3 Z))
    (b h i j : nat) :
  visible mask b i j = false -> attention_weight q k mask b h i j = 0%R.
Proof.
  intros H. unfold attention_weight, unnormalised. rewrite H.
  unfold Rdiv. apply Rmult_0_l.
Qed.

Lemma attention_weight_sum (q k : Tensor4 R) (mask : option (Tensor3 Z))
    (b h i j : nat) :
  j < s2 k -> visible mask b i j = true ->
  Rsum (s2 k) (attention_weight q k mask b h i) = 1%R.
Proof.
  intros Hj Hv. unfold attention_weight.
  rewrite (Rsum_div (s2 k) (fun t => unnormalised q k mask b h i t)).
  apply Rdiv_diag. apply Rgt_not_eq, Rlt_gt.
  apply (@Rsum_pos (s2 k) (fun t => unnormalised q k mask b h i t) j).
  - intros t _. apply unnormalised_nonneg.
  - exact Hj.
  - unfold unnormalised. rewrite Hv. apply exp_pos.
Qed.


(** X5.  Under the causal mask that [Decoder.forward] builds, in
    evaluation mode, the attention result at position [i] is a weighted
    average of the value rows at positions [0 .. i]: the weights are not
    negative and add up to 1, so no row of the softmax is empty. *)
Theorem causal_attention_averages_the_past
    (self : ScaledDotProductAttention) (q k v a : Tensor4 R)
    (B H L d : nat) :
  shape4 q = (B, H, L, d) -> shape4 k = (B, H, L, d) ->
  shape4 v = (B, H, L, d) ->
  ScaledDotProductAttention_forward self None q k v
    (Some (unsqueeze3_0 (create_causal_mask L))) = Ok a ->
  forall b h i, b < B -> h < H -> i < L ->
    exists w : nat -> R,
      (forall c, c < d ->
         at4 a b h i c = Rsum (S i) (fun j => (w j * at4 v b h j c)%R))
      /\ (forall j, (0 <= w j)%R)
      /\ Rsum (S i) w = 1%R.
Proof.
  intros Sq Sk Sv Ea b h i Hb Hh Hi.
  destruct (@ScaledDotProductAttention_forward_eval self q k v a
              (Some (unsqueeze3_0 (create_causal_mask L))) B H L L d
              Sq Sk Sv Ea) as [_ Hat0].
  assert (HLk : s2 k = L) by (unfold shape4 in Sk; congruence).
  set (mask := Some (unsqueeze3_0 (create_causal_mask L))) in *.
  set (w := attention_weight q k mask b h i).
  assert (Hat : forall c, c < d ->
            at4 a b h i c = Rsum L (fun j => (w j * at4 v b h j c)%R))
    by (intros c Hc; apply Hat0; assumption).
  assert (Hpos : forall j, (0 <= w j)%R)
    by (intros j; apply attention_weight_nonneg).
  assert (Hzero : forall j, visible mask b i j = false -> w j = 0%R)
    by (intros j; apply attention_weight_masked).
  assert (Hsum : (exists j, j < L /\ visible mask b i j = true) ->
                 Rsum L w = 1%R).
  { intros (j & Hj & Hv). rewrite <- HLk.
    apply (@attention_weight_sum q k mask b h i j); [lia | exact Hv]. }
  exists w. split; [| split; [exact Hpos |]].
  - intros c Hc. rewrite (Hat c Hc).
    apply Rsum_truncate; [lia |].
    intros j Hj. rewrite Hzero; [apply Rmult_0_l |].
    unfold mask. rewrite causal_visible by lia. apply Nat.leb_gt. lia.
  - rewrite <- Hsum.
    + symmetry. apply Rsum_truncate; [lia |].
      intros j Hj. apply Hzero.
      unfold mask. rewrite causal_visible by lia. apply Nat.leb_gt. lia.
    + exists i. split; [exact Hi |].
      unfold mask. rewrite causal_visible by lia. apply Nat.leb_refl.
Qed.


Lemma causal_attention_averages_the_past_witness :
  exists a w,
    ScaledDotProductAttention_forward (ScaledDotProductAttention_init false)
      None (ones4 1 1 2 3) (ones4 1 1 2 3) (ones4 1 1 2 3)
      (Some (unsqueeze3_0 (create_causal_mask 2))) = Ok a
    /\ at4 a 0 0 0 2 = Rsum 1 (fun j => (w j * 1)%R)
    /\ Rsum 1 w = 1%R.
Proof.
  destruct (@ScaledDotProductAttention_forward_returns
              (ScaledDotProductAttention_init false) None
              (ones4 1 1 2 3) (ones4 1 1 2 3) (ones4 1 1 2 3)
              (Some (unsqueeze3_0 (create_causal_mask 2)))
              1 1 2 2 3 eq_refl eq_refl eq_refl (causal_mask_fits 1 2))
    as (a & Ea & _).
  destruct (@causal_attention_averages_the_past
              (ScaledDotProductAttention_init false)
              (ones4 1 1 2 3) (ones4 1 1 2 3) (ones4 1 1 2 3) a
              1 1 2 3 eq_refl eq_refl eq_refl Ea 0 0 0
              ltac:(lia) ltac:(lia) ltac:(lia))
    as (w & Hat & _ & Hsum).
  exists a, w. split; [exact Ea |].
  split; [exact (Hat 2 ltac:(lia)) | exact Hsum].
Defined.

(** X6.  Attention reads a mask through the test [mask == 0] only: two
    masks that are 0 at the same places give, in evaluation mode, the same
    result, whatever their other values are. *)
Theorem attention_mask_zero_pattern (self : ScaledDotProductAttention)
    (q k v a a' : Tensor4 R) (mask mask' : option (Tensor3 Z))
    (B H Lq Lk d : nat) :
  shape4 q = (B, H, Lq, d) -> shape4 k = (B, H, Lk, d) ->
  shape4 v = (B, H, Lk, d) ->
  (forall b i j, b < B -> i < Lq -> j < Lk ->
     visible mask b i j = visible mask' b i j) ->
  ScaledDotProductAttention_forward self None q k v mask = Ok a ->
  ScaledDotProductAttention_forward self None q k v mask' = Ok a' ->
  shape4 a = shape4 a'
  /\ forall b h i c, b < B -> h < H -> i < Lq -> c < d ->
       at4 a b h i c = at4 a' b h i c.
Proof.
  intros Sq Sk Sv Hvis Ea Ea'.
  destruct (@ScaledDotProductAttention_forward_eval self q k v a mask
              B H Lq Lk d Sq Sk Sv Ea) as [Sa Hat].
  destruct (@ScaledDotProductAttention_forward_eval self q k v a' mask'
              B H Lq Lk d Sq Sk Sv Ea') as [Sa' Hat'].
  split; [congruence |].
  intros b h i c Hb Hh Hi Hc. rewrite (Hat b h i c), (Hat' b h i c)
    by assumption.
  assert (HLk : s2 k = Lk) by (unfold shape4 in Sk; congruence).
  assert (Hu : forall j, j < Lk ->
            unnormalised q k mask b h i j = unnormalised q k mask' b h i j).
  { intros j Hj. unfold unnormalised. rewrite (Hvis b i j) by assumption.
    reflexivity. }
  apply Rsum_ext. intros j Hj. f_equal.
  unfold attention_weight. rewrite (Hu j Hj). f_equal. rewrite HLk.
  apply Rsum_ext. exact Hu.
Qed.

Lemma attention_mask_zero_pattern_witness :
  exists a a',
    ScaledDotProductAttention_forward (ScaledDotProductAttention_init false)
      None (ones4 1 1 2 3) (ones4 1 1 2 3) (ones4 1 1 2 3)
      (Some (const_mask 1 1 2 2)) = Ok a
    /\ ScaledDotProductAttention_forward
         (ScaledDotProductAttention_init false)
         None (ones4 1 1 2 3) (ones4 1 1 2 3) (ones4 1 1 2 3)
         (Some (const_mask (-7) 1 2 2)) = Ok a'
    /\ at4 a 0 0 1 2 = at4 a' 0 0 1 2.
Proof.
  assert (Hfit : forall z, mask_fits (Some (const_mask z 1 2 2)) 1 2 2).
  { intros z. repeat split. }
  destruct (@ScaledDotProductAttention_forward_returns
              (ScaledDotProductAttention_init false) None
              (ones4 1 1 2 3) (ones4 1 1 2 3) (ones4 1 1 2 3)
              (Some (const_mask 1 1 2 2))
              1 1 2 2 3 eq_refl eq_refl eq_refl (Hfit 1%Z)) as (a & Ea & _).
  destruct (@ScaledDotProductAttention_forward_returns
              (ScaledDotProductAttention_init false) None
              (ones4 1 1 2 3) (ones4 1 1 2 3) (ones4 1 1 2 3)
              (Some (const_mask (-7) 1 2 2))
              1 1 2 2 3 eq_refl eq_refl eq_refl (Hfit (-7)%Z))
    as (a' & Ea' & _).
  exists a, a'. split; [exact Ea |]. split; [exact Ea' |].
  apply (proj2 (@attention_mask_zero_pattern
                  (ScaledDotProductAttention_init false)
                  (ones4 1 1 2 3) (ones4 1 1 2 3) (ones4 1 1 2 3) a a'
                  (Some (const_mask 1 1 2 2)) (Some (const_mask (-7) 1 2 2))
                  1 1 2 2 3 eq_refl eq_refl eq_refl
                  (fun b i j _ _ _ => eq_refl) Ea Ea')); lia.
Defined.



(** ** Heads *)

(** X8.  Splitting the embedding axis of a [(B, L, H * d)] tensor into
    heads as [MultiHeadAttention.forward] does ([view] to [(B, L, H, d)],
    then [transpose(1, 2)]) puts columns [h * d .. h * d + d - 1] into
    head [h], and merging the heads again ([transpose(1, 2)],
    [contiguous], [view] to [(B, L, H * d)]) gives back the tensor. *)
Theorem split_merge_heads_round_trip (x : Tensor3 R) (B L H d : nat) :
  shape3 x = (B, L, H * d) ->
  exists y z,
    view_3_4 x B L H d = Ok y
    /\ shape4 (transpose_1_2 y) = (B, H, L, d)
    /\ (forall b h l c, b < B -> h < H -> l < L -> c < d ->
          at4 (transpose_1_2 y) b h l c = at3 x b l (h * d + c))
    /\ view_4_3 (contiguous (transpose_1_2 (transpose_1_2 y))) B L (H * d)
       = Ok z
    /\ shape3 z = shape3 x
    /\ forall b l e, b < B -> l < L -> e < H * d ->
         at3 z b l e = at3 x b l e.
Proof.
  intros Sx. shapes.
  destruct (@view_3_4_returns R x B L H d) as (y & Ey & Sy); [nia |].
  shapes.
  destruct (@view_4_3_returns R
              (contiguous (transpose_1_2 (transpose_1_2 y))) B L (H * d))
    as (z & Ez & Sz).
  { cbn [contiguous transpose_1_2 s0 s1 s2 s3]. nia. }
  exists y, z. split; [exact Ey |].
  split; [unfold shape4; cbn [transpose_1_2 s0 s1 s2 s3]; congruence |].
  split.
  { intros b h l c Hb Hh Hl Hc. cbn [transpose_1_2 at4].
    apply (@view_3_4_at R x B L H d y b l h c Ey); assumption. }
  split; [exact Ez |].
  split; [rewrite Sz; unfold shape3; congruence |].
  intros b l e Hb Hl He.
  assert (Hd : 0 < d) by nia.
  destruct (@view_4_3_at R (contiguous (transpose_1_2 (transpose_1_2 y)))
              B L H d z b l e Ez) as [_ Hz];
    try (cbn [contiguous transpose_1_2 s0 s1 s2 s3]; congruence);
    try assumption.
  rewrite Hz. cbn [contiguous transpose_1_2 at4].
  assert (Hq : e / d < H).
  { apply Nat.Div0.div_lt_upper_bound. lia. }
  assert (Hr : e mod d < d) by (apply Nat.mod_upper_bound; lia).
  destruct (@view_3_4_at R x B L H d y b l (e / d) (e mod d) Ey) as [_ Hy];
    try assumption.
  rewrite Hy. f_equal.
  pose proof (Nat.div_mod_eq e d). lia.
Qed.

Lemma split_merge_heads_round_trip_witness :
  exists y z,
    view_3_4 (T3 1 2 6 (fun _ l e => INR (l + e))) 1 2 3 2 = Ok y
    /\ view_4_3 (contiguous (transpose_1_2 (transpose_1_2 y))) 1 2 6 = Ok z
    /\ at3 z 0 1 5 = INR 6.
Proof.
  destruct (@split_merge_heads_round_trip
              (T3 1 2 6 (fun _ l e => INR (l + e))) 1 2 3 2 eq_refl)
    as (y & z & Ey & _ & _ & Ez & _ & Hz).
  exists y, z. split; [exact Ey |]. split; [exact Ez |].
  exact (Hz 0 1 5 ltac:(lia) ltac:(lia) ltac:(lia)).
Defined.

(** X9.  [MultiHeadAttention.forward] returns a [(B, Lq, E)] tensor for a
    [(B, Lq, E)] query and [(B, Lk, E)] keys and values, whatever [Lk] is,
    in either mode; it raises a [RuntimeError] when the last dimension of
    the query is not the embedding size. *)
Theorem MultiHeadAttention_forward_shape (self : MultiHeadAttention)
    (md : Mode) (q k v : Tensor3 R) (mask : option (Tensor3 Z)) (E : nat) :
  wf_MultiHeadAttention self E ->
  (forall B Lq Lk,
     shape3 q = (B, Lq, E) -> shape3 k = (B, Lk, E) ->
     shape3 v = (B, Lk, E) -> mask_fits mask B Lq Lk ->
     exists y, MultiHeadAttention_forward self md q k v mask = Ok y
               /\ shape3 y = (B, Lq, E))
  /\ (dim2 q <> E ->
      MultiHeadAttention_forward self md q k v mask = Raise RuntimeError).
Proof.
  intros Wf. split.
  - intros B Lq Lk Sq Sk Sv Hm.
    exact (@MultiHeadAttention_forward_returns self md q k v mask B Lq Lk E
             Wf Sq Sk Sv Hm).
  - intros Hne. destruct Wf as (_ & _ & (_ & Hc & _) & _).
    unfold MultiHeadAttention_forward, Linear_forward. rewrite Hc.
    destruct (Nat.eqb_spec (dim2 q) E) as [He | _]; [contradiction |].
    reflexivity.
Qed.

Lemma MultiHeadAttention_forward_shape_witness :
  exists self y,
    MultiHeadAttention_init zero_rng (fun s => PEncoderLayer 0 (EncMha s))
      2 4 false = Ok self
    /\ MultiHeadAttention_forward self None
         (T3 1 3 4 (fun _ _ _ => 1%R)) (T3 1 5 4 (fun _ _ _ => 1%R))
         (T3 1 5 4 (fun _ _ _ => 1%R)) None = Ok y
    /\ shape3 y = (1, 3, 4).
Proof.
  destruct (@MultiHeadAttention_init_returns zero_rng
              (fun s => PEncoderLayer 0 (EncMha s)) 2 4 false
              ltac:(lia) eq_refl) as (self & Es & Wf).
  destruct (proj1 (@MultiHeadAttention_forward_shape self None
                     (T3 1 3 4 (fun _ _ _ => 1%R))
                     (T3 1 5 4 (fun _ _ _ => 1%R))
                     (T3 1 5 4 (fun _ _ _ => 1%R)) None 4 Wf)
              1 3 5 eq_refl eq_refl eq_refl I) as (y & Ey & Sy).
  exists self, y. split; [exact Es |]. split; [exact Ey | exact Sy].
Defined.

(** ** The feed-forward block *)

(** X10.  In evaluation mode [FeedForward.forward] acts on every position
    separately and in the same way: the output row at a position is a
    function of the input row at that position alone, the same function
    at every position of every batch. *)
Theorem FeedForward_position_wise (self : FeedForward)
    (x x' y y' : Tensor3 R) (E F : nat) (b l b' l' : nat) :
  wf_FeedForward self E F -> dim2 x = E -> dim2 x' = E ->
  FeedForward_forward self None x = Ok y ->
  FeedForward_forward self None x' = Ok y' ->
  (forall e, e < E -> at3 x b l e = at3 x' b' l' e) ->
  forall o, at3 y b l o = at3 y' b' l' o.
Proof.
  intros ((R0 & C0 & B0) & (R3 & C3 & B3)) Dx Dx' Ey Ey' Hrow o.
  unfold FeedForward_forward in Ey, Ey'.
  apply bind_Ok_inv in Ey. destruct Ey as (h1 & E1 & Ey).
  apply bind_Ok_inv in Ey'. destruct Ey' as (h1' & E1' & Ey').
  unfold Linear_forward in E1, E1'.
  destruct (_ && _) in E1; [| discriminate E1].
  destruct (_ && _) in E1'; [| discriminate E1'].
  injection E1 as <-. injection E1' as <-.
  cbn [Dropout_forward3] in Ey, Ey'.
  unfold Linear_forward in Ey, Ey'.
  destruct (_ && _) in Ey; [| discriminate Ey].
  destruct (_ && _) in Ey'; [| discriminate Ey'].
  injection Ey as <-. injection Ey' as <-.
  cbn [at3 ReLU_forward map3 dim0 dim1 dim2]. f_equal.
  apply Rsum_ext. intros f _. f_equal. f_equal. f_equal.
  rewrite Dx, Dx'. apply Rsum_ext. intros e He. rewrite (Hrow e He).
  reflexivity.
Qed.

Lemma FeedForward_position_wise_witness :
  exists y,
    FeedForward_forward
      (FeedForward_init zero_rng (fun s => PEncoderLayer 0 (EncFF s)) 2 3
                        false)
      None (T3 2 2 2 (fun _ _ e => INR e)) = Ok y
    /\ at3 y 0 0 1 = at3 y 1 1 1.
Proof.
  assert (Wf : wf_FeedForward
                 (FeedForward_init zero_rng
                    (fun s => PEncoderLayer 0 (EncFF s)) 2 3 false) 2 3).
  { split; apply wf_Linear_init. }
  destruct (@FeedForward_forward_returns _ None
              (T3 2 2 2 (fun _ _ e => INR e)) 2 3 Wf eq_refl)
    as (y & Ey & _).
  exists y. split; [exact Ey |].
  exact (@FeedForward_position_wise _ (T3 2 2 2 (fun _ _ e => INR e))
           (T3 2 2 2 (fun _ _ e => INR e)) y y 2 3 0 0 1 1 Wf eq_refl
           eq_refl Ey Ey (fun e _ => eq_refl) 1).
Defined.

(** ** Stacks without layers *)

(** X11.  An encoder or a decoder built with [n_layers = 0] is built for
    any head count and never looks at its mask or at the memory: with
    [post_ln] it returns its input as it is, without [post_ln] it returns
    the final layer normalisation of its input. *)
Theorem empty_stack_forward (rng : Rng) (H E F : nat) (post_ln u : bool) :
  (exists enc,
     Encoder_init rng 0 H E F post_ln u = Ok enc
     /\ forall md x mask,
          Encoder_forward enc md x mask
          = if post_ln then Ok x
            else LayerNorm_forward (LayerNorm_init E) x)
  /\ (exists dec,
        Decoder_init rng 0 H E F post_ln u = Ok dec
        /\ forall md x memory mask,
             Decoder_forward dec md x memory mask
             = if post_ln then Ok x
               else LayerNorm_forward (LayerNorm_init E) x).
Proof.
  split; eexists; (split; [reflexivity |]); intros;
    destruct post_ln; reflexivity.
Qed.

(** ** Errors of the constructor *)

Lemma list_comprehension_raises_first {A} (f : nat -> result A)
    (start n : nat) (e : PyError) :
  f start = Raise e -> list_comprehension f start (S n) = Raise e.
Proof. intros H. cbn [list_comprehension]. rewrite H. reflexivity. Qed.

Lemma MultiHeadAttention_init_error (rng : Rng)
    (name : mha_slot -> wb -> pname) (H E : nat) (u : bool) :
  (H = 0 -> MultiHeadAttention_init rng name H E u = Raise ZeroDivisionError)
  /\ (H <> 0 -> E mod H <> 0 ->
      MultiHeadAttention_init rng name H E u = Raise AssertionError).
Proof.
  unfold MultiHeadAttention_init, py_mod, py_assert. split.
  - intros ->. reflexivity.
  - intros H0 Hm. destruct (Nat.eqb_spec H 0) as [| _]; [contradiction |].
    cbn [bind]. destruct (Nat.eqb_spec (E mod H) 0) as [| _];
      [contradiction |]. reflexivity.
Qed.

Lemma Encoder_init_error (rng : Rng) (n H E F : nat) (post_ln u : bool)
    (e : PyError) :
  0 < n ->
  (forall name, MultiHeadAttention_init rng name H E u = Raise e) ->
  Encoder_init rng n H E F post_ln u = Raise e.
Proof.
  intros Hn Hm. destruct n as [| n]; [lia |]. unfold Encoder_init.
  rewrite (@list_comprehension_raises_first _ _ 0 n e); [reflexivity |].
  unfold EncoderLayer_init. cbv zeta. rewrite Hm. reflexivity.
Qed.

Lemma Decoder_init_error (rng : Rng) (n H E F : nat) (post_ln u : bool)
    (e : PyError) :
  0 < n ->
  (forall name, MultiHeadAttention_init rng name H E u = Raise e) ->
  Decoder_init rng n H E F post_ln u = Raise e.
Proof.
  intros Hn Hm. destruct n as [| n]; [lia |]. unfold Decoder_init.
  rewrite (@list_comprehension_raises_first _ _ 0 n e); [reflexivity |].
  unfold DecoderLayer_init. cbv zeta. rewrite Hm. reflexivity.
Qed.

(** X12.  The errors of [Transformer.__init__], in the order the
    constructor meets them: an odd embedding size of 3 or more raises a
    [RuntimeError] from the positional table, whatever the head counts
    are; after that an encoder with at least one layer raises a
    [ZeroDivisionError] for a head count of 0 and an [AssertionError] for
    a head count that does not divide the embedding size; after that the
    decoder does the same. *)
Theorem Transformer_init_error_kinds (c : TransformerConfig) (rng : Rng)
    (h0 : Heap) :
  let E := cfg_embed_size c in
  (Nat.even E = false -> E <> 1 ->
   Transformer_init c rng h0 = Raise RuntimeError)
  /\ (pos_enc_ok E = true -> 0 < n_encoder_layers c ->
      (n_encoder_heads c = 0 ->
       Transformer_init c rng h0 = Raise ZeroDivisionError)
      /\ (n_encoder_heads c <> 0 -> E mod n_encoder_heads c <> 0 ->
          Transformer_init c rng h0 = Raise AssertionError))
  /\ (pos_enc_ok E = true ->
      heads_ok (n_encoder_layers c) (n_encoder_heads c) E = true ->
      0 < n_decoder_layers c ->
      (n_decoder_heads c = 0 ->
       Transformer_init c rng h0 = Raise ZeroDivisionError)
      /\ (n_decoder_heads c <> 0 -> E mod n_decoder_heads c <> 0 ->
          Transformer_init c rng h0 = Raise AssertionError)).
Proof.
  cbv zeta.
  assert (Hpe : pos_enc_ok (cfg_embed_size c) = true ->
                exists pe, positional_encoding (uninit rng) (max_len c)
                             (cfg_embed_size c) = Ok pe).
  { intros Hok.
    pose proof (positional_encoding_ok (uninit rng) (max_len c)
                  (cfg_embed_size c)) as Hp.
    fold (pos_enc_ok (cfg_embed_size c)) in Hp. rewrite Hok in Hp.
    destruct (positional_encoding _ _ _) as [pe | e]; [| discriminate Hp].
    exists pe. reflexivity. }
  split; [| split].
  - intros He H1. apply Transformer_init_pos_enc_raises.
    unfold pos_enc_ok. rewrite He.
    destruct (Nat.eqb_spec (cfg_embed_size c) 1); [contradiction |].
    reflexivity.
  - intros Hok Hn. destruct (Hpe Hok) as (pe & Epe).
    split.
    + intros H0. unfold Transformer_init. rewrite Epe. cbn [bind].
      rewrite (@Encoder_init_error rng _ _ _ _ _ _ ZeroDivisionError Hn);
        [reflexivity |].
      intros name. apply MultiHeadAttention_init_error. exact H0.
    + intros H0 Hm. unfold Transformer_init. rewrite Epe. cbn [bind].
      rewrite (@Encoder_init_error rng _ _ _ _ _ _ AssertionError Hn);
        [reflexivity |].
      intros name. apply MultiHeadAttention_init_error; assumption.
  - intros Hok Henc Hn. destruct (Hpe Hok) as (pe & Epe).
    destruct (@Encoder_init_returns rng (n_encoder_layers c)
                (n_encoder_heads c) (cfg_embed_size c) (d_ff c) (post_ln c)
                (use_additional_dropout c) Henc) as (enc & Eenc & _).
    split.
    + intros H0. unfold Transformer_init. rewrite Epe. cbn [bind].
      rewrite Eenc. cbn [bind].
      rewrite (@Decoder_init_error rng _ _ _ _ _ _ ZeroDivisionError Hn);
        [reflexivity |].
      intros name. apply MultiHeadAttention_init_error. exact H0.
    + intros H0 Hm. unfold Transformer_init. rewrite Epe. cbn [bind].
      rewrite Eenc. cbn [bind].
      rewrite (@Decoder_init_error rng _ _ _ _ _ _ AssertionError Hn);
        [reflexivity |].
      intros name. apply MultiHeadAttention_init_error; assumption.
Qed.

Lemma Transformer_init_error_kinds_witness :
  Transformer_init headless_config zero_rng empty_heap
  = Raise ZeroDivisionError.
Proof.
  apply (proj1 (proj2 (@Transformer_init_error_kinds headless_config
                         zero_rng empty_heap))); [reflexivity | | ].
  - cbn. lia.
  - reflexivity.
Defined.

(** ** The tensor objects of a model *)

Lemma init_slot_cases (c : TransformerConfig) (id : nat)
    (self : Transformer) (n : pname) :
  init_slots_spec c id self ->
  exists n', slots self n = LParam id n'
             /\ (n' = n
                 \/ (tie_embeddings c = true /\ n = PEmbeddingsWeight
                     /\ n' = PFcWeight))
             /\ (tie_embeddings c = true -> n' <> PEmbeddingsWeight).
Proof.
  intros Hs. rewrite (Hs n). destruct (tie_embeddings c) eqn:Ht.
  - destruct (pname_eq_dec n PEmbeddingsWeight) as [-> | Hne].
    + exists PFcWeight. split; [reflexivity |].
      split; [right; repeat split | intros _; discriminate].
    + exists n. split; [reflexivity |].
      split; [left; reflexivity | intros _; exact Hne].
  - exists n. split; [reflexivity |].
    split; [left; reflexivity | intros H; discriminate H].
Qed.

(** X13.  A model built after another one shares no tensor object with
    it: building the second model leaves the parameters of the first as
    they were, and a later write to a parameter of either model is not
    seen by the other. *)
Theorem models_are_independent (c1 c2 : TransformerConfig) (rng1 rng2 : Rng)
    (h0 h1 h2 : Heap) (m1 m2 : Transformer) :
  Transformer_init c1 rng1 h0 = Ok (m1, h1) ->
  Transformer_init c2 rng2 h1 = Ok (m2, h2) ->
  (forall n n', slots m1 n <> slots m2 n')
  /\ current_modules m1 h2 = current_modules m1 h1
  /\ (forall h n o,
        current_modules m1 (write h (slots m2 n) o) = current_modules m1 h)
  /\ (forall h n o,
        current_modules m2 (write h (slots m1 n) o) = current_modules m2 h).
Proof.
  intros E1 E2.
  destruct (Transformer_init_Ok_inv _ _ _ E1)
    as (_ & _ & _ & Hs1 & Hn1 & _ & _).
  destruct (Transformer_init_Ok_inv _ _ _ E2)
    as (_ & _ & _ & Hs2 & _ & _ & Hout2).
  assert (Hne : forall n n', slots m1 n <> slots m2 n').
  { intros n n'.
    destruct (@init_slot_cases c1 _ m1 n Hs1) as (k & -> & _).
    destruct (@init_slot_cases c2 _ m2 n' Hs2) as (k' & -> & _).
    intros H. injection H as H _. lia. }
  split; [exact Hne |]. split; [| split].
  - unfold current_modules. apply Modules_read_ext. intros n.
    apply Hout2. intros n' H.
    destruct (@init_slot_cases c1 _ m1 n Hs1) as (k & Hk & _).
    rewrite Hk in H. injection H as H _. lia.
  - intros h n o. unfold current_modules. apply Modules_read_ext.
    intros n'. apply cell_write_other. intros H. exact (Hne n' n (eq_sym H)).
  - intros h n o. unfold current_modules. apply Modules_read_ext.
    intros n'. apply cell_write_other. exact (Hne n n').
Qed.

Lemma models_are_independent_witness :
  exists m1 h1 m2 h2,
    Transformer_init small_config zero_rng empty_heap = Ok (m1, h1)
    /\ Transformer_init untied_config zero_rng h1 = Ok (m2, h2)
    /\ current_modules m1 h2 = current_modules m1 h1.
Proof.
  destruct (Transformer_init_runs small_config zero_rng empty_heap eq_refl)
    as (m1 & h1 & E1 & _).
  destruct (Transformer_init_runs untied_config zero_rng h1 eq_refl)
    as (m2 & h2 & E2 & _).
  exists m1, h1, m2, h2. split; [exact E1 |]. split; [exact E2 |].
  exact (proj1 (proj2 (@models_are_independent _ _ _ _ _ _ _ _ _ E1 E2))).
Defined.

(** X14.  After construction two parameter names are bound to the same
    tensor object only if they are the same name or, with
    [tie_embeddings], if they are [embeddings.weight] and [fc.weight].
    So without [tie_embeddings] a write to the embedding matrix is not
    seen through the output projection, nor the other way round. *)
Theorem parameter_aliasing (c : TransformerConfig) (rng : Rng)
    (h0 h : Heap) (self : Transformer) :
  Transformer_init c rng h0 = Ok (self, h) ->
  (forall n n',
     slots self n = slots self n'
     <-> (n = n'
          \/ (tie_embeddings c = true
              /\ ((n = PEmbeddingsWeight /\ n' = PFcWeight)
                  \/ (n = PFcWeight /\ n' = PEmbeddingsWeight)))))
  /\ (tie_embeddings c = false ->
      forall h1 t,
        weight (fc (current_modules self
                      (write h1 (slots self PEmbeddingsWeight) (O2 t))))
        = weight (fc (current_modules self h1))
        /\ emb_weight (embeddings
                         (current_modules self
                            (write h1 (slots self PFcWeight) (O2 t))))
           = emb_weight (embeddings (current_modules self h1))).
Proof.
  intros E.
  destruct (Transformer_init_Ok_inv _ _ _ E) as (_ & _ & _ & Hs & _).
  assert (Hiff : forall n n',
            slots self n = slots self n'
            <-> (n = n'
                 \/ (tie_embeddings c = true
                     /\ ((n = PEmbeddingsWeight /\ n' = PFcWeight)
                         \/ (n = PFcWeight /\ n' = PEmbeddingsWeight))))).
  { intros n n'. rewrite (Hs n), (Hs n').
    destruct (tie_embeddings c).
    - destruct (pname_eq_dec n PEmbeddingsWeight) as [-> | Hn],
        (pname_eq_dec n' PEmbeddingsWeight) as [-> | Hn'].
      + split; [left; reflexivity | reflexivity].
      + split.
        * intros H. injection H as <-. right. split; [reflexivity |].
          left. split; reflexivity.
        * intros [<- | [_ [[_ ->] | [H _]]]];
            [contradiction | reflexivity | discriminate H].
      + split.
        * intros H. injection H as ->. right. split; [reflexivity |].
          right. split; reflexivity.
        * intros [-> | [_ [[-> _] | [-> _]]]];
            [contradiction | contradiction | reflexivity].
      + split.
        * intros H. injection H as ->. left. reflexivity.
        * intros [-> | [_ [[-> _] | [_ ->]]]];
            [reflexivity | contradiction | contradiction].
    - split.
      + intros H. injection H as ->. left. reflexivity.
      + intros [-> | [H _]]; [reflexivity | discriminate H]. }
  split; [exact Hiff |].
  intros Ht h1 t.
  assert (Hne : slots self PEmbeddingsWeight <> slots self PFcWeight).
  { intros H. apply Hiff in H. rewrite Ht in H.
    destruct H as [H | [H _]]; discriminate H. }
  unfold current_modules.
  cbn [Modules_read embeddings emb_weight fc Linear_read weight fc_name].
  split.
  - rewrite (cell_write_other _ _ Hne). reflexivity.
  - rewrite (cell_write_other _ _ (fun H => Hne (eq_sym H))). reflexivity.
Qed.

Lemma parameter_aliasing_witness :
  exists self h,
    Transformer_init untied_config zero_rng empty_heap = Ok (self, h)
    /\ slots self PEmbeddingsWeight <> slots self PFcWeight.
Proof.
  destruct (Transformer_init_runs untied_config zero_rng empty_heap eq_refl)
    as (self & h & E & _).
  exists self, h. split; [exact E |].
  intros H.
  apply (proj1 (@parameter_aliasing untied_config zero_rng empty_heap h self
                  E)) in H.
  destruct H as [H | [H _]]; discriminate H.
Defined.

(** ** [_init_params] *)

Lemma dedup_by_loc_spec (sl : pname -> loc) (ns : list pname) :
  forall seen,
    NoDup (map sl (dedup_by_loc sl ns seen))
    /\ (forall n, In n (dedup_by_loc sl ns seen) ->
          In n ns /\ ~ In (sl n) seen)
    /\ (forall n, In n ns ->
          In (sl n) seen
          \/ exists n', In n' (dedup_by_loc sl ns seen) /\ sl n' = sl n).
Proof.
  induction ns as [| n0 rest IH]; intros seen; cbn [dedup_by_loc].
  - split; [constructor |]. split; intros n [].
  - destruct (in_dec loc_eq_dec (sl n0) seen) as [Hin | Hnin].
    + destruct (IH seen) as (H1 & H2 & H3).
      split; [exact H1 |]. split.
      * intros n Hn. destruct (H2 n Hn) as [Ha Hb].
        split; [right; exact Ha | exact Hb].
      * intros n [<- | Hn]; [left; exact Hin | exact (H3 n Hn)].
    + destruct (IH (sl n0 :: seen)) as (H1 & H2 & H3).
      split; [| split].
      * cbn [map]. constructor; [| exact H1].
        intros Hi. apply in_map_iff in Hi. destruct Hi as (n' & He & Hn').
        destruct (H2 n' Hn') as [_ Hb]. apply Hb. left. symmetry. exact He.
      * intros n [<- | Hn]; [split; [left; reflexivity | exact Hnin] |].
        destruct (H2 n Hn) as [Ha Hb].
        split; [right; exact Ha |]. intros Hs. apply Hb. right. exact Hs.
      * intros n [<- | Hn].
        -- right. exists n0. split; [left; reflexivity | reflexivity].
        -- destruct (H3 n Hn) as [[He | Hs] | (n' & Hn' & He)].
           ++ right. exists n0. split; [left; reflexivity | exact He].
           ++ left. exact Hs.
           ++ right. exists n'. split; [right; exact Hn' | exact He].
Qed.

Lemma init_params_values (rng : Rng) (self : Transformer) (ns : list pname) :
  forall h,
    NoDup (map (slots self) ns) ->
    let h' := fold_left
                (fun h n =>
                   match cell h (slots self n) with
                   | O2 t => write h (slots self n)
                               (O2 (T2 (rows t) (cols t)
                                       (xavier_uniform rng n)))
                   | _ => h
                   end) ns h in
    (forall n t, In n ns -> cell h (slots self n) = O2 t ->
       cell h' (slots self n)
       = O2 (T2 (rows t) (cols t) (xavier_uniform rng n)))
    /\ (forall l, (forall t, cell h l <> O2 t) -> cell h' l = cell h l)
    /\ (forall l, ~ In l (map (slots self) ns) -> cell h' l = cell h l).
Proof.
  induction ns as [| n0 rest IH]; intros h Hnd; cbv zeta; cbn [fold_left].
  - split; [intros n t [] |]. split; reflexivity.
  - cbn [map] in Hnd. inversion Hnd as [| ? ? Hn0 Hrest]; subst.
    set (h1 := match cell h (slots self n0) with
               | O2 t => write h (slots self n0)
                           (O2 (T2 (rows t) (cols t)
                                   (xavier_uniform rng n0)))
               | _ => h
               end).
    assert (Hother : forall l, l <> slots self n0 -> cell h1 l = cell h l).
    { intros l Hl. unfold h1. destruct (cell h (slots self n0));
        try reflexivity.
      apply cell_write_other. intros H. apply Hl. symmetry. exact H. }
    destruct (IH h1 Hrest) as (I1 & I2 & I3). cbv zeta in I1, I2, I3.
    split; [| split].
    + intros n t [<- | Hn] Hc.
      * rewrite I3 by exact Hn0. unfold h1. rewrite Hc.
        apply cell_write_same.
      * apply I1; [exact Hn |]. rewrite Hother; [exact Hc |].
        intros He. apply Hn0. rewrite <- He. apply in_map. exact Hn.
    + intros l Hl.
      assert (H1 : cell h1 l = cell h l).
      { destruct (loc_eq_dec l (slots self n0)) as [-> | Hne];
          [| apply Hother; exact Hne].
        unfold h1. destruct (cell h (slots self n0)) as [t | t | t] eqn:Ec;
          [exact Ec | exfalso; exact (Hl t eq_refl) | exact Ec]. }
      rewrite I2; [exact H1 |]. intros t. rewrite H1. apply Hl.
    + intros l Hl. rewrite I3.
      * apply Hother. intros He. apply Hl. left. symmetry. exact He.
      * intros Hi. apply Hl. right. exact Hi.
Qed.

(** X15.  With [xavier_initialization] the constructor draws anew every
    parameter of two dimensions, once for each tensor object (a tied
    matrix is drawn once, under one of its names), and keeps its shape;
    every parameter of one dimension (the biases and the layer
    normalisation vectors) keeps the value its own constructor gave it. *)
Theorem xavier_initialization_effect (c : TransformerConfig) (rng : Rng)
    (h0 h : Heap) (self : Transformer) :
  Transformer_init c rng h0 = Ok (self, h) ->
  xavier_initialization c = true ->
  (forall n t, parameters (modules self) n = O1 t ->
     cell h (slots self n) = O1 t)
  /\ (forall n t, In n (names c) -> parameters (modules self) n = O2 t ->
        exists n',
          In n' (names c) /\ slots self n' = slots self n
          /\ cell h (slots self n)
             = O2 (T2 (rows t) (cols t) (xavier_uniform rng n'))).
Proof.
  intros E Hx.
  destruct (Transformer_init_Ok_inv _ _ _ E) as (Hc & _ & _ & Hs & _).
  destruct (Transformer_init_inv _ _ _ E)
    as (pe & enc & dec & _ & _ & _ & _ & Em & _ & _ & Eh).
  rewrite Hx in Eh.
  set (hb := register h0 (parameters (modules self))) in *.
  assert (Hreg : forall n,
            exists n', slots self n = LParam (next_model h0) n'
                       /\ cell hb (slots self n)
                          = parameters (modules self) n'
                       /\ (n' = n
                           \/ (n = PEmbeddingsWeight /\ n' = PFcWeight))).
  { intros n. destruct (@init_slot_cases c _ self n Hs) as (n' & Hn' & Hor & _).
    exists n'. split; [exact Hn' |]. split.
    - rewrite Hn'. unfold hb. apply cell_register.
    - destruct Hor as [-> | (_ & -> & ->)]; [left; reflexivity |].
      right. split; reflexivity. }
  destruct (dedup_by_loc_spec (slots self) (names (config self)) [])
    as (Hnd & Hsub & Hcov).
  destruct (@init_params_values rng self (named_parameters self) hb Hnd)
    as (I1 & I2 & _).
  cbv zeta in I1, I2. fold (_init_params rng self hb) in I1, I2.
  rewrite <- Eh in I1, I2.
  split.
  - intros n t Hp.
    destruct (Hreg n) as (n' & _ & Hcell & [-> | [-> ->]]).
    + rewrite I2; [rewrite Hcell; exact Hp |].
      intros t'. rewrite Hcell, Hp. discriminate.
    + rewrite Em in Hp. discriminate Hp.
  - intros n t Hn Hp.
    assert (Hb : exists t', cell hb (slots self n) = O2 t'
                            /\ rows t' = rows t /\ cols t' = cols t).
    { destruct (Hreg n) as (n' & _ & Hcell & [-> | [-> ->]]).
      - exists t. rewrite Hcell. split; [exact Hp |]. split; reflexivity.
      - rewrite Hcell. rewrite Em in Hp |- *.
        cbn [parameters embeddings fc Embedding_init Linear_init emb_weight
               weight] in Hp |- *.
        injection Hp as <-. eexists. split; [reflexivity |].
        split; reflexivity. }
    destruct Hb as (t' & Hcell & Hr & Hcl).
    rewrite <- Hc in Hn.
    destruct (Hcov n Hn) as [[] | (n' & Hn' & He)].
    exists n'. destruct (Hsub n' Hn') as [Hin _].
    split; [rewrite <- Hc; exact Hin |]. split; [exact He |].
    rewrite <- He. rewrite <- He in Hcell.
    rewrite (I1 n' t' Hn' Hcell), Hr, Hcl. reflexivity.
Qed.

Lemma xavier_initialization_effect_witness :
  exists self h,
    Transformer_init xavier_config zero_rng empty_heap = Ok (self, h)
    /\ forall n t, parameters (modules self) n = O1 t ->
                   cell h (slots self n) = O1 t.
Proof.
  destruct (Transformer_init_runs xavier_config zero_rng empty_heap eq_refl)
    as (self & h & E & _).
  exists self, h. split; [exact E |].
  exact (proj1 (@xavier_initialization_effect xavier_config zero_rng
                  empty_heap h self E eq_refl)).
Defined.

(** ** Token ids outside the vocabulary *)



(** ** The sequences of a batch *)

Lemma forward_value_agree (self : Transformer) (mods : Modules)
    (P : nat -> nat -> Prop) (src src' tgt tgt' : Tensor2 Z)
    (src_mask : option (Tensor2 Z)) (V E F B Ls Lt : nat)
    (y y' : Tensor3 R) :
  wf_Modules V E F mods ->
  (forall b i j, P b i -> P b j) ->
  shape2 src = (B, Ls) -> shape2 tgt = (B, Lt) ->
  agree_ids P src src' -> agree_ids P tgt tgt' ->
  forward_value self mods None src tgt src_mask = Ok y ->
  forward_value self mods None src' tgt' src_mask = Ok y' ->
  shape3 y = (B, Lt, V) /\ agree3 P y y'.
Proof.
  intros Wf HP Ss St As At Ey Ey'. unfold forward_value in Ey, Ey'.
  apply bind_Ok_inv in Ey. destruct Ey as (r & Er & Ey).
  apply bind_Ok_inv in Ey'. destruct Ey' as (r' & Er' & Ey').
  assert (Hrs : rows src = B) by (unfold shape2 in Ss; congruence).
  assert (Hcs : cols src = Ls) by (unfold shape2 in Ss; congruence).
  assert (Hrt : rows tgt = B) by (unfold shape2 in St; congruence).
  assert (Hct : cols tgt = Lt) by (unfold shape2 in St; congruence).
  assert (Hatt : forall mask B' Lq Lk, attends_within mask P P B' Lq Lk).
  { intros mask B' Lq Lk b i j _ _ _ Hp _. exact (HP b i j Hp). }
  destruct (@encode_value_agree self self mods P src src' src_mask
              r r' V E F Wf eq_refl eq_refl (agree2_refl _) As
              (Hatt _ _ _ _) Er Er')
    as (Sm & Am & Hk & Hk').
  rewrite Hk in Ey. rewrite Hk' in Ey'.
  rewrite Hrs, Hcs in Sm. rewrite <- Hrt in Sm.
  destruct (@decode_value_agree self self mods P P
              (fst r) (fst r') tgt tgt' (option_map newaxis_1 src_mask)
              y y' V E F Ls Wf eq_refl eq_refl (agree2_refl _) Sm Am At
              (fun b i j Hp _ => HP b i j Hp) (Hatt _ _ _ _)
              Ey Ey') as [Sy Ay].
  rewrite Hrt, Hct in Sy. split; assumption.
Qed.

(** X17.  The sequences of a batch do not influence one another: in
    evaluation mode the logits that [forward] returns for sequence [b0]
    are the same for two batches whose sources and targets agree in row
    [b0], whatever the other rows hold. *)
Theorem batch_independence (self : Transformer) (h : Heap)
    (noise noise' : Noise) (src src' tgt tgt' : Tensor2 Z)
    (src_mask : option (Tensor2 Z)) (B Ls Lt b0 : nat) :
  wf_Transformer self h -> training self = false ->
  shape2 src = (B, Ls) -> shape2 tgt = (B, Lt) ->
  Ls <= max_len (config self) -> Lt <= max_len (config self) ->
  valid_ids (vocab_size (config self)) src ->
  valid_ids (vocab_size (config self)) src' ->
  valid_ids (vocab_size (config self)) tgt ->
  valid_ids (vocab_size (config self)) tgt' ->
  (forall m, src_mask = Some m -> shape2 m = (B, Ls)) ->
  agree_ids (in_batch b0) src src' -> agree_ids (in_batch b0) tgt tgt' ->
  b0 < B ->
  exists y y' h1 h1',
    forward self noise src tgt src_mask h = Ok (y, h1)
    /\ forward self noise' src' tgt' src_mask h = Ok (y', h1')
    /\ forall l v, l < Lt -> v < vocab_size (config self) ->
         at3 y b0 l v = at3 y' b0 l v.
Proof.
  intros (Wf & Hrows & Hcols & Hslots & Hsqrt) Htr Ss St HLs HLt Vs Vs' Vt
    Vt' Hm As At Hb0.
  rewrite <- Hrows in HLs, HLt.
  pose proof (agree_ids_shape As Ss) as Ss'.
  pose proof (agree_ids_shape At St) as St'.
  destruct (@forward_value_returns self (current_modules self h) None
              src tgt src_mask _ _ _ B Ls Lt Wf Hcols Ss St
              (or_introl HLs) (or_introl HLt) Vs Vt Hm) as (y & Ey & Sy).
  destruct (@forward_value_returns self (current_modules self h) None
              src' tgt' src_mask _ _ _ B Ls Lt Wf Hcols Ss' St'
              (or_introl HLs) (or_introl HLt) Vs' Vt' Hm) as (y' & Ey' & Sy').
  destruct (@forward_value_agree self (current_modules self h)
              (in_batch b0) src src' tgt tgt' src_mask _ _ _ B Ls Lt y y'
              Wf (fun b i j Hp => Hp) Ss St As At Ey Ey') as [_ [_ Ay]].
  pose proof (forward_computes self noise src tgt src_mask h Hslots) as C.
  pose proof (forward_computes self noise' src' tgt' src_mask h Hslots)
    as C'.
  rewrite (mode_of_eval self noise Htr) in C.
  rewrite (mode_of_eval self noise' Htr) in C'.
  destruct (@computes_Ok _ _ _ _ _ C Ey) as (h1 & E1).
  destruct (@computes_Ok _ _ _ _ _ C' Ey') as (h1' & E1').
  exists y, y', h1, h1'. split; [exact E1 |]. split; [exact E1' |].
  intros l v Hl Hv. unfold shape3 in Sy. injection Sy as Y0 Y1 Y2.
  apply Ay; try lia. reflexivity.
Qed.

Lemma batch_independence_witness :
  exists self h y y' h1 h1',
    forward self keep_all (two_rows 1 2) (two_rows 2 3) None h = Ok (y, h1)
    /\ forward self keep_all (two_rows 3 2) (two_rows 0 3) None h
       = Ok (y', h1')
    /\ at3 y 0 2 3 = at3 y' 0 2 3.
Proof.
  destruct (Transformer_init_runs small_config zero_rng empty_heap eq_refl)
    as (self & h & _ & Hc & _ & Hwf & _).
  assert (Hc' : config (eval self) = small_config) by exact Hc.
  assert (Hv : forall z L, (0 <= z < 4)%Z ->
                 valid_ids (vocab_size (config (eval self))) (two_rows z L)).
  { intros z L Hz b l _ _. rewrite Hc'. cbn. destruct (b =? 0); lia. }
  assert (Ha : forall z z' L,
                 agree_ids (in_batch 0) (two_rows z L) (two_rows z' L)).
  { intros z z' L. split; [reflexivity |].
    intros b l _ _ Hb. unfold in_batch in Hb. subst b. reflexivity. }
  destruct (@batch_independence (eval self) h keep_all keep_all
              (two_rows 1 2) (two_rows 3 2) (two_rows 2 3) (two_rows 0 3)
              None 2 2 3 0 (wf_Transformer_eval Hwf) eq_refl eq_refl eq_refl
              ltac:(rewrite Hc'; cbn; lia) ltac:(rewrite Hc'; cbn; lia)
              (Hv 1%Z 2 ltac:(lia)) (Hv 3%Z 2 ltac:(lia))
              (Hv 2%Z 3 ltac:(lia)) (Hv 0%Z 3 ltac:(lia))
              ltac:(intros m Hm; discriminate Hm)
              (Ha 1%Z 3%Z 2) (Ha 2%Z 0%Z 3) ltac:(lia))
    as (y & y' & h1 & h1' & E & E' & Hy).
  exists (eval self), h, y, y', h1, h1'.
  split; [exact E |]. split; [exact E' |].
  apply Hy; [lia |]. rewrite Hc'. cbn. lia.
Defined.

(** ** Calls one after the other *)

(** X18.  A successful [forward] call can be repeated: the in-place
    scaling and positional addition act on the tensor the embedding lookup
    returned, never on a parameter, so the same call on the heap the first
    call left returns the same tensor; in evaluation mode it does so
    whatever the random draws are. *)
Theorem forward_is_repeatable (self : Transformer) (h h1 : Heap)
    (noise : Noise) (src tgt : Tensor2 Z) (src_mask : option (Tensor2 Z))
    (y : Tensor3 R) :
  wf_Transformer self h ->
  forward self noise src tgt src_mask h = Ok (y, h1) ->
  (exists h2, forward self noise src tgt src_mask h1 = Ok (y, h2))
  /\ (training self = false ->
      forall noise', exists h2,
        forward self noise' src tgt src_mask h1 = Ok (y, h2)).
Proof.
  intros (_ & _ & _ & Hslots & _) E.
  pose proof (forward_computes self noise src tgt src_mask h Hslots) as C.
  destruct (@computes_Ok_inv _ _ _ _ _ _ C E) as [Er Hs].
  pose proof (current_modules_same self Hslots Hs) as Hm.
  split.
  - pose proof (forward_computes self noise src tgt src_mask h1 Hslots)
      as C1.
    rewrite Hm, Er in C1. destruct C1 as (h2 & E2 & _).
    exists h2. exact E2.
  - intros Htr noise'.
    pose proof (forward_computes self noise' src tgt src_mask h1 Hslots)
      as C1.
    rewrite Hm, (mode_of_eval self noise' Htr),
      <- (mode_of_eval self noise Htr), Er in C1.
    destruct C1 as (h2 & E2 & _). exists h2. exact E2.
Qed.

Lemma forward_is_repeatable_witness :
  exists self h y h1 h2,
    forward self keep_all (zeros_ids 2) (zeros_ids 3) None h = Ok (y, h1)
    /\ forward self keep_all (zeros_ids 2) (zeros_ids 3) None h1
       = Ok (y, h2).
Proof.
  destruct (Transformer_init_runs small_config zero_rng empty_heap eq_refl)
    as (self & h & _ & Hc & _ & Hwf & _).
  pose proof Hwf as (Wf & Hrows & Hcols & Hslots & _).
  destruct (@forward_value_returns self (current_modules self h)
              (mode_of self keep_all) (zeros_ids 2) (zeros_ids 3) None
              _ _ _ 1 2 3 Wf Hcols eq_refl eq_refl)
    as (y & Ey & _).
  - left. rewrite Hrows, Hc. cbn. lia.
  - left. rewrite Hrows, Hc. cbn. lia.
  - rewrite Hc. intros b l _ _. cbn. lia.
  - rewrite Hc. intros b l _ _. cbn. lia.
  - intros m Hm. discriminate Hm.
  - destruct (@computes_Ok _ _ _ _ _
                (forward_computes self keep_all (zeros_ids 2) (zeros_ids 3)
                                  None h Hslots) Ey) as (h1 & E).
    destruct (proj1 (@forward_is_repeatable self h h1 keep_all (zeros_ids 2)
                       (zeros_ids 3) None y Hwf E)) as (h2 & E2).
    exists self, h, y, h1, h2. split; [exact E | exact E2].
Defined.

(** ** Shapes of [encode] and [decode] *)

(** X19.  [encode] returns a [(B, Ls, E)] memory together with the mask
    it was given, with a new axis in the middle ([None] stays [None]);
    [decode] returns [(B, Lt, vocab_size)] logits for a [(B, Ls, E)]
    memory of any length [Ls], also one longer than [max_len]. *)
Theorem encode_decode_shapes (self : Transformer) (h : Heap)
    (noise : Noise) :
  wf_Transformer self h ->
  let V := vocab_size (config self) in
  let E := cfg_embed_size (config self) in
  (forall src src_mask B Ls,
     shape2 src = (B, Ls) -> Ls <= max_len (config self) ->
     valid_ids V src ->
     (forall m, src_mask = Some m -> shape2 m = (B, Ls)) ->
     exists memory h',
       encode self noise src src_mask h
       = Ok ((memory, option_map newaxis_1 src_mask), h')
       /\ shape3 memory = (B, Ls, E))
  /\ (forall memory tgt src_mask B Ls Lt,
        shape3 memory = (B, Ls, E) -> shape2 tgt = (B, Lt) ->
        Lt <= max_len (config self) -> valid_ids V tgt ->
        mask_fits src_mask B Lt Ls ->
        exists y h',
          decode self noise memory tgt src_mask h = Ok (y, h')
          /\ shape3 y = (B, Lt, V)).
Proof.
  intros (Wf & Hrows & Hcols & Hslots & _). cbv zeta. split.
  - intros src src_mask B Ls Ss HLs Vs Hm. rewrite <- Hrows in HLs.
    destruct (@encode_value_returns self (current_modules self h)
                (mode_of self noise) src src_mask _ _ _ B Ls Wf Hcols Ss
                (or_introl HLs) Vs Hm) as ([memory k] & Er & Sm & Hk).
    cbn [fst snd] in Sm, Hk. subst k.
    destruct (@computes_Ok _ _ _ _ _
                (encode_computes self noise src src_mask h Hslots) Er)
      as (h' & E').
    exists memory, h'. split; [exact E' | exact Sm].
  - intros memory tgt src_mask B Ls Lt Sm St HLt Vt Hm.
    rewrite <- Hrows in HLt.
    destruct (@decode_value_returns self (current_modules self h)
                (mode_of self noise) memory tgt src_mask _ _ _ B Ls Lt
                Wf Hcols Sm St (or_introl HLt) Vt Hm) as (y & Ey & Sy).
    destruct (@computes_Ok _ _ _ _ _
                (decode_computes self noise memory tgt src_mask h Hslots) Ey)
      as (h' & E').
    exists y, h'. split; [exact E' | exact Sy].
Qed.

Lemma encode_decode_shapes_witness :
  exists self h memory h',
    encode self keep_all (zeros_ids 3) (Some (mask_at 1 3)) h
    = Ok ((memory, Some (newaxis_1 (mask_at 1 3))), h')
    /\ shape3 memory = (1, 3, 2).
Proof.
  destruct (Transformer_init_runs small_config zero_rng empty_heap eq_refl)
    as (self & h & _ & Hc & _ & Hwf & _).
  destruct (proj1 (@encode_decode_shapes self h keep_all Hwf)
              (zeros_ids 3) (Some (mask_at 1 3)) 1 3 eq_refl)
    as (memory & h' & E & Sm).
  - rewrite Hc. cbn. lia.
  - rewrite Hc. intros b l _ _. cbn. lia.
  - intros m Hm. injection Hm as <-. reflexivity.
  - exists self, h, memory, h'. split; [exact E |].
    rewrite Sm, Hc. reflexivity.
Defined.

(** ** Errors of saving and loading *)

Lemma mbind_Ok_inv {A B} (m : M A) (k : A -> M B) (h h' : Heap) (b : B) :
  mbind m k h = Ok (b, h') ->
  exists a h1, m h = Ok (a, h1) /\ k a h1 = Ok (b, h').
Proof.
  unfold mbind. destruct (m h) as [[a h1] | e]; [| discriminate].
  intros H. exists a, h1. split; [reflexivity | exact H].
Qed.

Lemma lift_Ok_inv {A} (r : result A) (h h' : Heap) (a : A) :
  lift r h = Ok (a, h') -> r = Ok a /\ h' = h.
Proof.
  unfold lift. destruct r as [a0 | e]; [| discriminate].
  intros H. injection H as -> ->. split; reflexivity.
Qed.

Lemma from_pretrained_inv (rng : Rng) (path : string) (fs : FileSystem)
    (h h' : Heap) (model : Transformer) :
  from_pretrained rng path fs h = Ok (model, h') ->
  exists doc c sd hA,
    json_load path "config.json" fs = Ok doc
    /\ TransformerConfig_kwargs doc = Ok c
    /\ Transformer_init c rng h = Ok (model, hA)
    /\ torch_load path "model.pt" fs = Ok sd
    /\ load_state_dict model sd hA = Ok (tt, h').
Proof.
  unfold from_pretrained. intros H.
  apply mbind_Ok_inv in H. destruct H as (doc & h1 & E1 & H).
  apply lift_Ok_inv in E1. destruct E1 as [E1 ->].
  apply mbind_Ok_inv in H. destruct H as (c & h2 & E2 & H).
  apply lift_Ok_inv in E2. destruct E2 as [E2 ->].
  apply mbind_Ok_inv in H. destruct H as (m & hA & E3 & H).
  apply mbind_Ok_inv in H. destruct H as (sd & h3 & E4 & H).
  apply lift_Ok_inv in E4. destruct E4 as [E4 ->].
  apply mbind_Ok_inv in H. destruct H as ([] & h4 & E5 & H).
  unfold ret in H. injection H as -> ->.
  exists doc, c, sd, hA. repeat split; assumption.
Qed.

Lemma copy__shape (dst src : obj) : obj_shape (copy_ dst src) = obj_shape dst.
Proof. destruct dst, src; reflexivity. Qed.

Lemma load_param_step (self : Transformer) (sd : StateDict)
    (acc : Heap * bool) (n : pname) :
  let r := load_param self sd acc n in
  (forall l, l <> slots self n -> cell (fst r) l = cell (fst acc) l)
  /\ next_model (fst r) = next_model (fst acc)
  /\ (forall l, obj_shape (cell (fst r) l) = obj_shape (cell (fst acc) l))
  /\ (snd acc = true -> snd r = true)
  /\ (forall o, sd_get sd n = Some o ->
        obj_shape o <> obj_shape (cell (fst acc) (slots self n)) ->
        snd r = true).
Proof.
  cbv zeta. unfold load_param. destruct (sd_get sd n) as [o |].
  - destruct (list_eq_dec Nat.eq_dec (obj_shape o)
                (obj_shape (cell (fst acc) (slots self n)))) as [He | Hne];
      cbn [fst snd].
    + split; [| split; [| split; [| split]]].
      * intros l Hl. apply cell_write_other. intros H. apply Hl.
        symmetry. exact H.
      * reflexivity.
      * intros l. destruct (loc_eq_dec (slots self n) l) as [<- | Hl].
        -- rewrite cell_write_same. apply copy__shape.
        -- rewrite (cell_write_other _ _ Hl). reflexivity.
      * intros H. exact H.
      * intros o' Ho Hs. injection Ho as <-. contradiction.
    + repeat split; reflexivity.
  - split; [reflexivity |]. split; [reflexivity |].
    split; [reflexivity |]. split; [intros H; exact H |].
    intros o Ho. discriminate Ho.
Qed.

Lemma load_params_frame (self : Transformer) (sd : StateDict)
    (ns : list pname) :
  forall acc,
    let r := fold_left (load_param self sd) ns acc in
    (forall l, (forall n, slots self n <> l) ->
       cell (fst r) l = cell (fst acc) l)
    /\ next_model (fst r) = next_model (fst acc)
    /\ (forall l, obj_shape (cell (fst r) l) = obj_shape (cell (fst acc) l))
    /\ (snd acc = true -> snd r = true)
    /\ ((exists n o, In n ns /\ sd_get sd n = Some o
                     /\ obj_shape o
                        <> obj_shape (cell (fst acc) (slots self n))) ->
        snd r = true).
Proof.
  induction ns as [| n0 rest IH]; intros acc; cbv zeta; cbn [fold_left].
  - repeat split; try reflexivity; try (intros H; exact H).
    intros (n & o & [] & _).
  - destruct (load_param_step self sd acc n0) as (S1 & S2 & S3 & S4 & S5).
    cbv zeta in S1, S2, S3, S4, S5.
    destruct (IH (load_param self sd acc n0)) as (I1 & I2 & I3 & I4 & I5).
    cbv zeta in I1, I2, I3, I4, I5.
    split; [| split; [| split; [| split]]].
    + intros l Hl. rewrite (I1 l Hl). apply S1. intros H.
      exact (Hl n0 (eq_sym H)).
    + rewrite I2. exact S2.
    + intros l. rewrite I3. apply S3.
    + intros H. apply I4, S4, H.
    + intros (n & o & [<- | Hn] & Ho & Hs).
      * apply I4. exact (S5 o Ho Hs).
      * apply I5. exists n, o. split; [exact Hn |]. split; [exact Ho |].
        rewrite S3. exact Hs.
Qed.

Lemma load_state_dict_raises (self : Transformer) (sd : StateDict)
    (h : Heap) :
  (exists n, In n (names (config self)) /\ sd_get sd n = None)
  \/ (exists k, In k (map fst sd) /\ ~ In k (names (config self)))
  \/ (exists n o, In n (names (config self)) /\ sd_get sd n = Some o
                  /\ obj_shape o <> obj_shape (cell h (slots self n))) ->
  load_state_dict self sd h = Raise RuntimeError.
Proof.
  intros H. unfold load_state_dict.
  destruct H as [(n & Hn & Hg) | [(k & Hk & Hnk) | Hs]].
  - assert (Hf : In n (filter (fun n => match sd_get sd n with
                                        | None => true
                                        | _ => false
                                        end) (names (config self)))).
    { apply filter_In. split; [exact Hn |]. rewrite Hg. reflexivity. }
    destruct (filter _ (names (config self))); [contradiction |].
    reflexivity.
  - assert (Hf : In k (filter (fun k => if in_dec pname_eq_dec k
                                              (names (config self))
                                        then false else true)
                              (map fst sd))).
    { apply filter_In. split; [exact Hk |].
      destruct (in_dec pname_eq_dec k (names (config self)));
        [contradiction | reflexivity]. }
    destruct (filter _ (names (config self))); [| reflexivity].
    destruct (filter _ (map fst sd)); [contradiction | reflexivity].
  - destruct (load_params_frame self sd (names (config self)) (h, false))
      as (_ & _ & _ & _ & I5).
    cbv zeta in I5. cbn [fst snd] in I5. rewrite (I5 Hs).
    destruct (filter _ (names (config self))); [| reflexivity].
    destruct (filter _ (map fst sd)); reflexivity.
Qed.



(** X21.  [from_pretrained] loads strictly: when the weights file lacks a
    parameter of the model that the config document describes, holds a key
    that model does not have, or holds a tensor of another shape under a
    name of the model, the call raises a [RuntimeError] and returns no
    model. *)
Theorem from_pretrained_strict (rng : Rng) (path : string) (fs : FileSystem)
    (h hA : Heap) (doc : json) (c : TransformerConfig) (sd : StateDict)
    (model : Transformer) :
  json_load path "config.json" fs = Ok doc ->
  TransformerConfig_kwargs doc = Ok c ->
  Transformer_init c rng h = Ok (model, hA) ->
  torch_load path "model.pt" fs = Ok sd ->
  (exists n, In n (names c) /\ sd_get sd n = None)
  \/ (exists k, In k (map fst sd) /\ ~ In k (names c))
  \/ (exists n o, In n (names c) /\ sd_get sd n = Some o
                  /\ obj_shape o <> obj_shape (cell hA (slots model n))) ->
  from_pretrained rng path fs h = Raise RuntimeError.
Proof.
  intros Ej Ec EA Et Hbad.
  destruct (Transformer_init_Ok_inv _ _ _ EA) as (Hc & _).
  unfold from_pretrained, mbind, lift. rewrite Ej, Ec, EA, Et.
  rewrite load_state_dict_raises; [reflexivity |].
  rewrite Hc. exact Hbad.
Qed.

Lemma from_pretrained_strict_witness :
  from_pretrained zero_rng "ckpt" broken_fs empty_heap = Raise RuntimeError.
Proof.
  destruct (Transformer_init_runs small_config zero_rng empty_heap eq_refl)
    as (model & hA & EA & _).
  apply (@from_pretrained_strict zero_rng "ckpt" broken_fs empty_heap hA
           (asdict small_config) small_config [] model
           eq_refl eq_refl EA eq_refl).
  left. exists PFcBias. split; [| reflexivity].
  apply In_names_top. cbn. tauto.
Defined.

(** X22.  The model that [from_pretrained] returns is in training mode
    (the mode of the saved model is not stored), and is made of tensor
    objects that did not exist before the call: every object that existed
    keeps its contents, so the loaded model shares nothing with the model
    that was saved or with any other one. *)
Theorem from_pretrained_fresh (rng : Rng) (path : string) (fs : FileSystem)
    (h h' : Heap) (model : Transformer) :
  from_pretrained rng path fs h = Ok (model, h') ->
  training model = true
  /\ (forall n, exists n', slots model n = LParam (next_model h) n')
  /\ next_model h' = S (next_model h)
  /\ (forall l, (forall n, l <> LParam (next_model h) n) ->
        cell h' l = cell h l).
Proof.
  intros E.
  destruct (from_pretrained_inv _ _ _ _ E)
    as (doc & c & sd & hA & _ & _ & EA & _ & EL).
  destruct (Transformer_init_Ok_inv _ _ _ EA)
    as (_ & Htr & _ & Hs & HnA & _ & HoutA).
  assert (Hsl : forall n, exists n', slots model n = LParam (next_model h) n').
  { intros n. destruct (@init_slot_cases c _ model n Hs) as (n' & Hn' & _).
    exists n'. exact Hn'. }
  unfold load_state_dict in EL.
  destruct (load_params_frame model sd (names (config model)) (hA, false))
    as (I1 & I2 & _).
  cbv zeta in I1, I2. cbn [fst] in I1, I2.
  destruct (filter _ (names (config model))); [| discriminate EL].
  destruct (filter _ (map fst sd)); [| discriminate EL].
  destruct (snd (fold_left (load_param model sd) (names (config model))
                           (hA, false))); [discriminate EL |].
  injection EL as <-.
  split; [exact Htr |]. split; [exact Hsl |]. split; [congruence |].
  intros l Hl. rewrite I1; [apply HoutA, Hl |].
  intros n Hn. destruct (Hsl n) as (n' & Hn'). rewrite Hn' in Hn.
  exact (Hl n' (eq_sym Hn)).
Qed.

(** ** The config document *)

(** X23.  The config survives the JSON document: building a
    [TransformerConfig] from the keyword arguments that [asdict] produces
    gives back the same config; a document with a key that is no field
    raises a [TypeError]; a document without keys gives the defaults. *)
Theorem config_document_round_trip :
  (forall c, TransformerConfig_kwargs (asdict c) = Ok c)
  /\ (forall doc k v, In (k, v) doc -> ~ In k fields ->
        TransformerConfig_kwargs doc = Raise TypeError)
  /\ TransformerConfig_kwargs [] = Ok default_config.
Proof.
  split; [| split].
  - intros c. destruct c. reflexivity.
  - intros doc k v Hin Hk. unfold TransformerConfig_kwargs.
    destruct (forallb _ doc) eqn:Hall; [| reflexivity].
    rewrite forallb_forall in Hall. specialize (Hall (k, v) Hin).
    cbn [fst] in Hall. apply existsb_exists in Hall.
    destruct Hall as (f & Hf & He). apply String.eqb_eq in He. subst f.
    contradiction.
  - reflexivity.
Qed.

Lemma from_pretrained_after_save (c : TransformerConfig) (rng0 rng : Rng)
    (h0 h : Heap) (self : Transformer) (path : string) (fs : FileSystem) :
  Transformer_init c rng0 h0 = Ok (self, h) ->
  isdir fs path = true ->
  exists fs' model h',
    save_pretrained self path h fs = Ok fs'
    /\ from_pretrained rng path fs' h = Ok (model, h').
Proof.
  intros H0 Hdir.
  destruct (Transformer_init_Ok_inv _ _ _ H0) as (Hc & _ & _ & Hsl & _).
  destruct (@Transformer_init_shapes _ _ _ _ _ H0) as [_ Hsh].
  assert (Hok : config_ok c = true).
  { rewrite <- (Transformer_init_ok c rng0 h0), H0. reflexivity. }
  destruct (@save_pretrained_files self path h fs Hdir)
    as (fs' & Es & Ej & Et).
  destruct (Transformer_init_runs c rng h Hok)
    as (model & hA & EA & HcA & _ & _ & HslA & _).
  destruct (@Transformer_init_shapes _ _ _ _ _ EA) as [_ HshA].
  destruct (@Transformer_init_same_config c rng0 rng h0 h h hA self model
              H0 EA) as (_ & Hpsh & _).
  assert (Hcc : config model = config self) by congruence.
  destruct (@load_state_dict_state_dict self model h hA Hcc
              (init_slots_spec_ties Hsl HslA))
    as (hB & EB & _).
  { intros n _. rewrite Hsh, <- Hpsh, HshA. reflexivity. }
  exists fs', model, hB. split; [exact Es |].
  unfold from_pretrained, mbind, lift, ret.
  rewrite Ej, TransformerConfig_kwargs_asdict, Hc, EA, Et, EB.
  reflexivity.
Qed.

Lemma from_pretrained_fresh_witness :
  exists self h fs' model h',
    Transformer_init small_config zero_rng empty_heap = Ok (self, h)
    /\ save_pretrained self "ckpt" h ckpt_fs = Ok fs'
    /\ from_pretrained zero_rng "ckpt" fs' h = Ok (model, h')
    /\ training model = true
    /\ forall n, cell h' (LParam 0 n) = cell h (LParam 0 n).
Proof.
  destruct (Transformer_init_runs small_config zero_rng empty_heap eq_refl)
    as (self & h & E & _ & _ & _ & _ & Hn & _).
  destruct (@from_pretrained_after_save small_config zero_rng zero_rng
              empty_heap h self "ckpt" ckpt_fs E eq_refl)
    as (fs' & model & h' & Es & El).
  destruct (@from_pretrained_fresh zero_rng "ckpt" fs' h h' model El)
    as (Htr & _ & _ & Hout).
  exists self, h, fs', model, h'.
  split; [exact E |]. split; [exact Es |]. split; [exact El |].
  split; [exact Htr |].
  intros n. apply Hout. intros n' H. injection H as H _.
  rewrite Hn in H. cbn in H. lia.
Defined.

(** ** Layer normalisation at the end of a post-LN layer *)







(** ** Shapes and errors of the layers *)

(** X25.  An encoder layer and a decoder layer keep the shape
    [(B, L, E)] of their input, for either value of [post_ln] and in
    either mode, and raise a [RuntimeError] when the last dimension of the
    input is not the embedding size. *)
Theorem layer_forward_shapes (E F : nat) :
  (forall (self : EncoderLayer) md x mask,
     wf_EncoderLayer E F self ->
     (forall B L, shape3 x = (B, L, E) -> mask_fits mask B L L ->
        exists y, EncoderLayer_forward self md x mask = Ok y
                  /\ shape3 y = (B, L, E))
     /\ (dim2 x <> E ->
         EncoderLayer_forward self md x mask = Raise RuntimeError))
  /\ (forall (self : DecoderLayer) md x memory encoder_mask,
        wf_DecoderLayer E F self ->
        (forall B Lt Ls,
           shape3 x = (B, Lt, E) -> shape3 memory = (B, Ls, E) ->
           mask_fits encoder_mask B Lt Ls ->
           exists y,
             DecoderLayer_forward self md x memory
               (unsqueeze3_0 (create_causal_mask Lt)) encoder_mask = Ok y
             /\ shape3 y = (B, Lt, E))
        /\ (forall causal_mask,
              dim2 x <> E ->
              DecoderLayer_forward self md x memory causal_mask encoder_mask
              = Raise RuntimeError)).
Proof.
  split.
  - intros self md x mask Wf. split.
    + intros B L Sx Hm.
      exact (@EncoderLayer_forward_returns self md x mask B L E F Wf Sx Hm).
    + intros Hne.
      destruct Wf as (_ & (_ & _ & (_ & Hc & _) & _) & (Hn & _) & _).
      unfold EncoderLayer_forward.
      destruct (enc_post_ln self).
      * unfold MultiHeadAttention_forward, Linear_forward. rewrite Hc.
        destruct (Nat.eqb_spec (dim2 x) E) as [He | _]; [contradiction |].
        reflexivity.
      * unfold LayerNorm_forward. rewrite Hn.
        destruct (Nat.eqb_spec (dim2 x) E) as [He | _]; [contradiction |].
        reflexivity.
  - intros self md x memory encoder_mask Wf. split.
    + intros B Lt Ls Sx Sm Hm.
      exact (@DecoderLayer_forward_returns self md x memory
               (unsqueeze3_0 (create_causal_mask Lt)) encoder_mask
               B Lt Ls E F Wf Sx Sm (causal_mask_fits B Lt) Hm).
    + intros causal_mask Hne.
      destruct Wf as (_ & _ & (_ & _ & (_ & Hc & _) & _) & (Hn & _) & _).
      unfold DecoderLayer_forward.
      destruct (dec_post_ln self).
      * unfold MultiHeadAttention_forward, Linear_forward. rewrite Hc.
        destruct (Nat.eqb_spec (dim2 x) E) as [He | _]; [contradiction |].
        reflexivity.
      * unfold LayerNorm_forward. rewrite Hn.
        destruct (Nat.eqb_spec (dim2 x) E) as [He | _]; [contradiction |].
        reflexivity.
Qed.

Lemma layer_forward_shapes_witness :
  exists self y,
    DecoderLayer_init zero_rng (PDecoderLayer 0) 1 2 2 false false = Ok self
    /\ DecoderLayer_forward self None (T3 1 3 2 (fun _ _ _ => 1%R))
         (T3 1 5 2 (fun _ _ _ => 1%R))
         (unsqueeze3_0 (create_causal_mask 3)) None = Ok y
    /\ shape3 y = (1, 3, 2).
Proof.
  destruct (@DecoderLayer_init_returns zero_rng (PDecoderLayer 0) 1 2 2
              false false ltac:(lia) eq_refl) as (self & Es & Wf).
  destruct (proj1 (proj2 (layer_forward_shapes 2 2) self None
                     (T3 1 3 2 (fun _ _ _ => 1%R))
                     (T3 1 5 2 (fun _ _ _ => 1%R)) None Wf)
              1 3 5 eq_refl eq_refl I) as (y & Ey & Sy).
  exists self, y. split; [exact Es |]. split; [exact Ey | exact Sy].
Defined.
